(** * cryptoMonitor: the scoring and ranking core of [src/monitor.js]

    A shallow embedding of the classes [BitcoinDominanceAnalyzer] and
    [AdvancedCryptoAnalyzer].  JavaScript Numbers are IEEE-754 binary64
    values, modelled by Rocq's primitive floats, so that NaN, the
    infinities, signed zeros and rounding behave as they do in the
    engine.  Network requests and the log are modelled by explicit state
    passing over a table of scripted responses. *)

From Stdlib Require Import ZArith Floats List String Ascii Bool Lia Permutation.
From Stdlib Require Uint63.
Import ListNotations.

Set Warnings "-inexact-float".
Local Open Scope float_scope.

(** ** JavaScript built-ins *)

(** [Math.max(a, b)]: NaN when an argument is NaN, and [+0] is larger
    than [-0]. *)
Definition Math_max (a b : float) : float :=
  if is_nan a || is_nan b then nan
  else if a <? b then b
  else if b <? a then a
  else if is_zero a && get_sign a then b else a.

(** [Math.min(a, b)]: NaN when an argument is NaN, and [-0] is smaller
    than [+0]. *)
Definition Math_min (a b : float) : float :=
  if is_nan a || is_nan b then nan
  else if a <? b then a
  else if b <? a then b
  else if is_zero a && get_sign a then a else b.

Definition Math_abs (x : float) : float := abs x.

Definition Math_sqrt (x : float) : float := sqrt x.

(** [Math.pow(x, 2)]: engines square the base for the exponent 2, and the
    product agrees with every case ECMAScript fixes (NaN, zeros,
    infinities). *)
Definition Math_pow2 (x : float) : float := x * x.

(** [Math.log10(x)] as ECMAScript specifies it: the special values are
    fixed by the standard, every other argument gets an
    implementation-approximated result, here [log10_approx]. *)
Definition Math_log10 (log10_approx : float -> float) (x : float) : float :=
  if is_nan x then nan
  else if x =? infinity then infinity
  else if x =? 1 then 0
  else if is_zero x then neg_infinity
  else if x <? 0 then nan
  else log10_approx x.

(** An Array's [length] as a Number. *)
Definition Array_length {A : Type} (l : list A) : float :=
  of_uint63 (Uint63.of_Z (Z.of_nat (List.length l))).

(** [arr.reduce(f, init)]. *)
Definition Array_reduce {A B : Type} (f : B -> A -> B) (l : list A) (init : B) : B :=
  fold_left f l init.

(** [Array.prototype.sort(comparefn)]: a stable sort (ECMAScript 2019);
    a comparator result that is NaN counts as [+0].  [x], met before [y]
    in the input, moves behind [y] only when [comparefn(x, y) > 0].
    Where the comparator is a consistent order this is the one result
    the standard allows (for the ranking: [Array_sort_stable_ranking]);
    where it is not, as with NaN scores, the standard leaves the order
    to the engine, and the insertion sort of the model is one of the
    orders an engine may return: of such a batch the theorems on a scan
    state the order of neighbouring Numbers only, nothing on ties. *)
Fixpoint sort_insert {A : Type} (comparefn : A -> A -> float) (x : A) (l : list A) : list A :=
  match l with
  | [] => [x]
  | y :: r => if 0 <? comparefn x y then y :: sort_insert comparefn x r else x :: l
  end.

Definition Array_sort {A : Type} (comparefn : A -> A -> float) (l : list A) : list A :=
  fold_right (sort_insert comparefn) [] l.

(** [arr.slice(0, n)]. *)
Definition Array_slice0 {A : Type} (n : nat) (l : list A) : list A := firstn n l.

(** [String.prototype.toUpperCase] on the ASCII letters; other bytes are
    kept. *)
Definition toUpperCase_ascii (c : ascii) : ascii :=
  let n := nat_of_ascii c in
  if (97 <=? n)%nat && (n <=? 122)%nat then ascii_of_nat (n - 32) else c.

Fixpoint toUpperCase (s : string) : string :=
  match s with
  | EmptyString => EmptyString
  | String c r => String (toUpperCase_ascii c) (toUpperCase r)
  end.

(** ** Data *)

(** The objects [{ score, category }] of the metric calculators. *)
Record Scored := { score : float; category : string }.

Record RiskLevel := { level : string; riskScore : float }.

(** [coin.quote.USD] of a CoinMarketCap response; a percent change may be
    [null]. *)
Record Quote := {
  price : float;
  market_cap : float;
  volume_24h : float;
  percent_change_1h : option float;
  percent_change_24h : option float;
  percent_change_7d : option float;
  percent_change_30d : option float
}.

Record CoinData := { coin_name : string; coin_symbol : string; quote_USD : Quote }.

Record Basic := {
  name : string;
  symbol : string;
  basic_price : float;
  marketCap : float;
  volume24h : float
}.

Record Metrics := {
  marketMaturity : Scored;
  volumeHealth : Scored;
  momentum : float;
  volatility : Scored
}.

Record Performance := {
  change1h : option float;
  change24h : option float;
  change7d : option float;
  change30d : option float
}.

(** The object literal [analysis] of [performBaseAnalysis], before the
    three computed fields are attached. *)
Record Analysis := {
  basic : Basic;
  metrics : Metrics;
  performance : Performance;
  isOnCoinbase : bool
}.

(** [analysis] once [investmentScore], [riskLevel] and [potentialReturn]
    are assigned; [fields] holds the properties it had before. *)
Record BaseAnalysis := {
  fields : Analysis;
  investmentScore : float;
  riskLevel : RiskLevel;
  potentialReturn : float
}.

Record Phase := { phase_name : string; strength : string; description : string }.

Record Impact := { btcImpact : float; altcoinImpact : float }.

Record Recommendation := { rec_type : string; action : string; confidence : string }.

(** The result of [analyzeMarketCycle]. *)
Record DominanceState := {
  currentDominance : float;
  phase : Phase;
  impact : Impact;
  recommendations : list Recommendation
}.

(** [{ ...analysis, btcDominance, adjustedScore }]. *)
Record AdjustedAnalysis := {
  base : BaseAnalysis;
  btcDominance : DominanceState;
  adjustedScore : float
}.

(** ** class BitcoinDominanceAnalyzer *)

Module BitcoinDominanceAnalyzer.

Module cyclePhases.
Definition BTC_DOMINANCE : string := "btc_dominance".
Definition ALTCOIN_SEASON : string := "altcoin_season".
Definition TRANSITION : string := "transition".
Definition ACCUMULATION : string := "accumulation".
End cyclePhases.

Module thresholds.
Definition HIGH : float := 60.
Definition MEDIUM : float := 45.
Definition LOW : float := 35.
End thresholds.

Definition determineCyclePhase (dominance : float) : Phase :=
  if thresholds.HIGH <=? dominance then
    {| phase_name := cyclePhases.BTC_DOMINANCE;
       strength := "high";
       description := "Dominio fuerte de Bitcoin" |}
  else if dominance <=? thresholds.LOW then
    {| phase_name := cyclePhases.ALTCOIN_SEASON;
       strength := "high";
       description := "Temporada favorable para altcoins" |}
  else if dominance <? thresholds.MEDIUM then
    {| phase_name := cyclePhases.TRANSITION;
       strength := "medium";
       description := "Fase de transición" |}
  else
    {| phase_name := cyclePhases.ACCUMULATION;
       strength := "medium";
       description := "Fase de acumulación" |}.

Definition calculateBTCImpact (dominance : float) : float :=
  if thresholds.HIGH <=? dominance then 1.2
  else if dominance <=? thresholds.LOW then 0.8
  else 1.0.

Definition calculateAltcoinImpact (dominance : float) : float :=
  2 - calculateBTCImpact dominance.

Definition assessMarketImpact (dominance : float) : Impact :=
  {| btcImpact := calculateBTCImpact dominance;
     altcoinImpact := calculateAltcoinImpact dominance |}.

Definition generateRecommendations (dominance : float) : list Recommendation :=
  let phase := determineCyclePhase dominance in
  if String.eqb (phase_name phase) cyclePhases.BTC_DOMINANCE then
    [ {| rec_type := "BTC_FOCUS"; action := "Priorizar Bitcoin"; confidence := "Alta" |} ]
  else if String.eqb (phase_name phase) cyclePhases.ALTCOIN_SEASON then
    [ {| rec_type := "ALT_FOCUS";
         action := "Considerar altcoins de alta capitalización";
         confidence := "Alta" |} ]
  else if String.eqb (phase_name phase) cyclePhases.TRANSITION then
    [ {| rec_type := "MIXED";
         action := "Diversificar entre BTC y altcoins selectas";
         confidence := "Media" |} ]
  else
    [ {| rec_type := "CONSERVATIVE";
         action := "Mantener posiciones conservadoras";
         confidence := "Media" |} ].

(** The synchronous part of [analyzeMarketCycle], once the dominance
    reading is there. *)
Definition marketCycleOf (currentDominance : float) : DominanceState :=
  {| currentDominance := currentDominance;
     phase := determineCyclePhase currentDominance;
     impact := assessMarketImpact currentDominance;
     recommendations := generateRecommendations currentDominance |}.

End BitcoinDominanceAnalyzer.

(** ** class AdvancedCryptoAnalyzer: the calculators *)

Module constants.
Module MARKET_SEGMENTS.
Definition MICRO_CAP : float := 50000000.
Definition SMALL_CAP : float := 250000000.
Definition MID_CAP : float := 1000000000.
Definition LARGE_CAP : float := 10000000000.
End MARKET_SEGMENTS.
Module VOLATILITY_THRESHOLDS.
Definition LOW : float := 5.
Definition MEDIUM : float := 15.
Definition HIGH : float := 25.
End VOLATILITY_THRESHOLDS.
Module VOLUME_RATIOS.
Definition HEALTHY : float := 0.15.
Definition STRONG : float := 0.30.
Definition EXCEPTIONAL : float := 0.50.
End VOLUME_RATIOS.
End constants.

Section Calculators.

(** The engine's approximation of the base-10 logarithm. *)
Variable log10_approx : float -> float.

Let log10 := Math_log10 log10_approx.

Definition calculateMarketMaturity (marketCap : float) : Scored :=
  if constants.MARKET_SEGMENTS.LARGE_CAP <=? marketCap then
    {| score := 1.0; category := "Establecido" |}
  else if constants.MARKET_SEGMENTS.MID_CAP <=? marketCap then
    {| score := 1.5; category := "Maduro" |}
  else if constants.MARKET_SEGMENTS.SMALL_CAP <=? marketCap then
    {| score := 2.0; category := "En Desarrollo" |}
  else if constants.MARKET_SEGMENTS.MICRO_CAP <=? marketCap then
    {| score := 2.5; category := "Emergente" |}
  else {| score := 3.0; category := "Especulativo" |}.

Definition calculateVolumeHealth (volumeRatio : float) : Scored :=
  let normalizedRatio := Math_min volumeRatio constants.VOLUME_RATIOS.EXCEPTIONAL in
  let volumeScore :=
    log10 (normalizedRatio * 100 + 1) / log10 (constants.VOLUME_RATIOS.EXCEPTIONAL * 100 + 1) in
  {| score := volumeScore;
     category :=
       if constants.VOLUME_RATIOS.EXCEPTIONAL <=? volumeRatio then "Excepcional"
       else if constants.VOLUME_RATIOS.STRONG <=? volumeRatio then "Fuerte"
       else if constants.VOLUME_RATIOS.HEALTHY <=? volumeRatio then "Saludable"
       else "Bajo" |}.

(** [arr.length > 0 ? arr.reduce((a, b) => a + b) / arr.length : 0];
    [reduce] without an initial value starts from the first element. *)
Definition average (arr : list float) : float :=
  match arr with
  | [] => 0
  | x :: r => Array_reduce add r x / Array_length arr
  end.

Definition calculateMomentumIndicator (priceChanges : list float) : float :=
  let gains := filter (fun x => 0 <? x) priceChanges in
  let losses := map Math_abs (filter (fun x => x <? 0) priceChanges) in
  let avgGain := average gains in
  let avgLoss := average losses in
  if avgLoss =? 0 then 1
  else
    let RS := avgGain / avgLoss in
    (100 - (100 / (1 + RS))) / 100.

(** The local constant [stdDev] of [calculateVolatilityScore]. *)
Definition stdDev (priceChanges : list float) : float :=
  let mean := Array_reduce add priceChanges 0 / Array_length priceChanges in
  let variance :=
    Array_reduce (fun a b => a + Math_pow2 (b - mean)) priceChanges 0
    / Array_length priceChanges in
  Math_sqrt variance.

Definition calculateVolatilityScore (priceChanges : list float) : Scored :=
  let stdDev := stdDev priceChanges in
  {| score := Math_min (stdDev / constants.VOLATILITY_THRESHOLDS.HIGH) 1;
     category :=
       if constants.VOLATILITY_THRESHOLDS.HIGH <? stdDev then "Alta"
       else if constants.VOLATILITY_THRESHOLDS.MEDIUM <? stdDev then "Media"
       else "Baja" |}.

Definition calculateInvestmentScore (analysis : Analysis) : float :=
  let marketMaturityScore := (4 - score (marketMaturity (metrics analysis))) * 2 in
  let volumeScore := score (volumeHealth (metrics analysis)) * 10 in
  let momentumScore := momentum (metrics analysis) * 10 in
  let volatilityAdjustment := Math_max 0 (1 - score (volatility (metrics analysis))) in
  let marketCapOptimality :=
    Math_min 10 (log10 (1e11 / marketCap (basic analysis)) * 2) in
  let volumeRatio :=
    Math_min 10 ((volume24h (basic analysis) / marketCap (basic analysis)) * 5) in
  Math_max 1 (Math_min 10 (
    marketMaturityScore * 0.2 +
    volumeScore * 0.2 +
    momentumScore * 0.25 +
    volatilityAdjustment * 0.15 +
    marketCapOptimality * 0.1 +
    volumeRatio * 0.1)).

Definition calculateRiskLevel (analysis : Analysis) : RiskLevel :=
  let volatilityWeight := score (volatility (metrics analysis)) * 0.4 in
  let marketMaturityWeight := (score (marketMaturity (metrics analysis)) / 3) * 0.3 in
  let volumeWeight := (1 - score (volumeHealth (metrics analysis))) * 0.3 in
  let riskScore := volatilityWeight + marketMaturityWeight + volumeWeight in
  {| level := if 0.66 <? riskScore then "Alto"
              else if 0.33 <? riskScore then "Medio" else "Bajo";
     riskScore := riskScore |}.

Definition calculatePotentialReturn (analysis : Analysis) : float :=
  let marketGrowthFactor := log10 (1e11 / marketCap (basic analysis)) * 0.5 in
  let volumeHealthFactor := score (volumeHealth (metrics analysis)) in
  let momentumFactor := momentum (metrics analysis) in
  let maturityFactor := (4 - score (marketMaturity (metrics analysis))) / 3 in
  let potential :=
    (marketGrowthFactor * 0.4 +
     volumeHealthFactor * 0.2 +
     momentumFactor * 0.2 +
     maturityFactor * 0.2) * 10 in
  Math_max 1 (Math_min 10 potential).

(** [[...].filter(x => x !== null)]. *)
Definition notNull (changes : list (option float)) : list float :=
  flat_map (fun x => match x with Some v => [v] | None => [] end) changes.

(** [this.coinbaseTokens], filled by [updateCoinbaseTokens]. *)
Variable coinbaseTokens : list string.

Definition performBaseAnalysis (coinData : CoinData) : BaseAnalysis :=
  let q := quote_USD coinData in
  let priceChanges :=
    notNull [percent_change_1h q; percent_change_24h q;
             percent_change_7d q; percent_change_30d q] in
  let analysis :=
    {| basic := {| name := coin_name coinData;
                   symbol := coin_symbol coinData;
                   basic_price := price q;
                   marketCap := market_cap q;
                   volume24h := volume_24h q |};
       metrics := {| marketMaturity := calculateMarketMaturity (market_cap q);
                     volumeHealth := calculateVolumeHealth (volume_24h q / market_cap q);
                     momentum := calculateMomentumIndicator priceChanges;
                     volatility := calculateVolatilityScore priceChanges |};
       performance := {| change1h := percent_change_1h q;
                         change24h := percent_change_24h q;
                         change7d := percent_change_7d q;
                         change30d := percent_change_30d q |};
       isOnCoinbase := existsb (String.eqb (coin_symbol coinData)) coinbaseTokens |} in
  {| fields := analysis;
     investmentScore := calculateInvestmentScore analysis;
     riskLevel := calculateRiskLevel analysis;
     potentialReturn := calculatePotentialReturn analysis |}.

Definition adjustForBTCDominance (analysis : BaseAnalysis) (btcDominance : DominanceState)
  : AdjustedAnalysis :=
  let isBTC := String.eqb (toUpperCase (symbol (basic (fields analysis)))) "BTC" in
  let dominanceImpact :=
    if isBTC then btcImpact (impact btcDominance)
    else altcoinImpact (impact btcDominance) in
  {| base := analysis;
     btcDominance := btcDominance;
     adjustedScore := investmentScore analysis * dominanceImpact |}.

End Calculators.

(** ** Requests, exceptions and the log *)

(** How a call completes: with a value, or by throwing an [Error] with
    this message. *)
Inductive Completion (A : Type) : Type :=
| Normal (value : A)
| Throw (message : string).

Arguments Normal {A} value.
Arguments Throw {A} message.

(** The scripted answers of the CoinMarketCap API: what the [n]-th
    request to each endpoint receives.  [quotes_latest n s] is the
    [data] object of the answer to the [n]-th quote request, made for
    the symbol [s]; it maps symbols to coins. *)
Record Network := {
  listings_latest : nat -> Completion (list CoinData);
  quotes_latest : nat -> string -> Completion (string -> option CoinData);
  global_metrics : nat -> Completion float
}.

(** What a run has done so far: the requests sent to each endpoint, and
    the messages written by [log]. *)
Record Session := {
  listings_sent : nat;
  quotes_sent : nat;
  dominance_sent : nat;
  logged : list string
}.

Definition Async (A : Type) : Type := Session -> Completion A * Session.

Definition ret {A : Type} (a : A) : Async A := fun s => (Normal a, s).

Definition throw {A : Type} (message : string) : Async A := fun s => (Throw message, s).

Definition bind {A B : Type} (c : Async A) (k : A -> Async B) : Async B :=
  fun s =>
    match c s with
    | (Normal a, s') => k a s'
    | (Throw message, s') => (Throw message, s')
    end.

(** [try { c } catch (error) { handler(error.message) }]. *)
Definition try_catch {A : Type} (c : Async A) (handler : string -> Async A) : Async A :=
  fun s =>
    match c s with
    | (Normal a, s') => (Normal a, s')
    | (Throw message, s') => handler message s'
    end.

(** [await Promise.all([p, q])]: both calls are started, in this order;
    the result is rejected when one of them is (with the error of [p]
    when both are). *)
Definition Promise_all {A B : Type} (p : Async A) (q : Async B) : Async (A * B) :=
  fun s =>
    let (r1, s1) := p s in
    let (r2, s2) := q s1 in
    (match r1, r2 with
     | Normal a, Normal b => Normal (a, b)
     | Throw message, _ => Throw message
     | _, Throw message => Throw message
     end, s2).

Declare Scope async_scope.
Delimit Scope async_scope with async.
Notation "x <- c ;; k" := (bind c (fun x => k))
  (at level 61, c at next level, right associativity) : async_scope.
Notation "c ;;; k" := (bind c (fun _ => k))
  (at level 61, right associativity) : async_scope.

Section Requests.

Variable log10_approx : float -> float.
Variable coinbaseTokens : list string.
Variable net : Network.

Local Open Scope async_scope.
Local Open Scope string_scope.

(** [this.log(message)]: the message goes to the console and to the
    log file; a failure to write is swallowed. *)
Definition log (message : string) : Async unit :=
  fun s =>
    (Normal tt,
     {| listings_sent := listings_sent s; quotes_sent := quotes_sent s;
        dominance_sent := dominance_sent s; logged := logged s ++ [message] |}).

Definition axios_get_listings : Async (list CoinData) :=
  fun s =>
    (listings_latest net (listings_sent s),
     {| listings_sent := S (listings_sent s); quotes_sent := quotes_sent s;
        dominance_sent := dominance_sent s; logged := logged s |}).

Definition axios_get_quotes (symbol : string) : Async (string -> option CoinData) :=
  fun s =>
    (quotes_latest net (quotes_sent s) symbol,
     {| listings_sent := listings_sent s; quotes_sent := S (quotes_sent s);
        dominance_sent := dominance_sent s; logged := logged s |}).

Definition axios_get_global_metrics : Async float :=
  fun s =>
    (global_metrics net (dominance_sent s),
     {| listings_sent := listings_sent s; quotes_sent := quotes_sent s;
        dominance_sent := S (dominance_sent s); logged := logged s |}).

Definition getCurrentDominance : Async float :=
  try_catch axios_get_global_metrics
    (fun message => throw ("Error obteniendo dominancia BTC: " ++ message)).

Definition analyzeMarketCycle : Async DominanceState :=
  try_catch
    (currentDominance <- getCurrentDominance ;;
     ret (BitcoinDominanceAnalyzer.marketCycleOf currentDominance))
    (fun message => throw ("Error en análisis de ciclo: " ++ message)).

Definition analyzeToken (symbol : string) : Async AdjustedAnalysis :=
  try_catch
    (responses <- Promise_all (axios_get_quotes (toUpperCase symbol)) analyzeMarketCycle ;;
     let (tokenData, btcDominance) := responses in
     match tokenData (toUpperCase symbol) with
     | None => throw "Token no encontrado"
     | Some coinData =>
         let baseAnalysis := performBaseAnalysis log10_approx coinbaseTokens coinData in
         ret (adjustForBTCDominance baseAnalysis btcDominance)
     end)
    (fun message => throw ("Error analizando " ++ symbol ++ ": " ++ message)).

(** The [for (const coin of response.data.data)] loop. *)
Fixpoint scanLoop (coins : list CoinData) (opportunities : list AdjustedAnalysis)
  : Async (list AdjustedAnalysis) :=
  match coins with
  | [] => ret opportunities
  | coin :: rest =>
      opportunities' <-
        try_catch
          (analysis <- analyzeToken (coin_symbol coin) ;;
           ret (opportunities ++ [analysis])%list)
          (fun message =>
             log ("Error analizando " ++ coin_symbol coin ++ ": " ++ message) ;;;
             ret opportunities) ;;
      scanLoop rest opportunities'
  end.

(** [(a, b) => b.adjustedScore - a.adjustedScore]. *)
Definition byAdjustedScore (a b : AdjustedAnalysis) : float :=
  adjustedScore b - adjustedScore a.

Definition scanTopOpportunities : Async (list AdjustedAnalysis) :=
  try_catch
    (coins <- axios_get_listings ;;
     opportunities <- scanLoop coins [] ;;
     ret (Array_slice0 10 (Array_sort byAdjustedScore opportunities)))
    (fun message => throw ("Error escaneando oportunidades: " ++ message)).

End Requests.

(** A fresh session: nothing requested, nothing logged. *)
Definition start : Session :=
  {| listings_sent := 0; quotes_sent := 0; dominance_sent := 0; logged := [] |}.

(** ** Vocabulary of the specification *)

(** *** The order of binary64 values

    Every value other than NaN gets a key; the order of the values is
    the lexicographic order of the keys: the sign class first, then the
    exponent, then the mantissa.  Both zeros share a key. *)
Definition key (x : spec_float) : Z * Z * Z :=
  match x with
  | S754_infinity true => (-2, 0, 0)
  | S754_finite true m e => (-1, - e, - Zpos m)
  | S754_zero _ => (0, 0, 0)
  | S754_nan => (0, 0, 0)
  | S754_finite false m e => (1, e, Zpos m)
  | S754_infinity false => (2, 0, 0)
  end%Z.

Definition lex_lt (a b : Z * Z * Z) : Prop :=
  let '(a1, a2, a3) := a in
  let '(b1, b2, b3) := b in
  (a1 < b1 \/ (a1 = b1 /\ (a2 < b2 \/ (a2 = b2 /\ a3 < b3))))%Z.

Definition lex_le (a b : Z * Z * Z) : Prop :=
  let '(a1, a2, a3) := a in
  let '(b1, b2, b3) := b in
  (a1 < b1 \/ (a1 = b1 /\ (a2 < b2 \/ (a2 = b2 /\ a3 <= b3))))%Z.

Definition fkey (x : float) : Z * Z * Z := key (Prim2SF x).

(** *** Shapes of values *)

(** The exponent of the last place of a binary64 value of magnitude
    [2^e]. *)
Definition fexp64 (e : Z) : Z := Z.max (e - 53) (-1074).

(** Not NaN, with this sign. *)
Definition sf_signed (s : bool) (r : spec_float) : Prop :=
  match r with
  | S754_zero s' | S754_infinity s' | S754_finite s' _ _ => s' = s
  | S754_nan => False
  end.

(** Finite, of absolute value below [2^k]. *)
Definition sf_mag (k : Z) (r : spec_float) : Prop :=
  match r with
  | S754_zero _ => True
  | S754_finite _ m e => (Z.pos (digits2_pos m) + e <= k)%Z
  | _ => False
  end.

(** A Number below [2^k]: [-Infinity] and every negative value count. *)
Definition sf_below (k : Z) (r : spec_float) : Prop :=
  match r with
  | S754_nan => False
  | S754_infinity s => s = true
  | S754_zero _ => True
  | S754_finite true _ _ => True
  | S754_finite false m e => (Z.pos (digits2_pos m) + e <= k)%Z
  end.

(** A zero, a positive value or [+Infinity]. *)
Definition sf_nonneg (r : spec_float) : Prop :=
  match r with
  | S754_zero _ | S754_finite false _ _ | S754_infinity false => True
  | _ => False
  end.

(** A positive divisor: finite or [+Infinity]. *)
Definition sf_posdiv (r : spec_float) : Prop :=
  match r with
  | S754_finite false _ _ | S754_infinity false => True
  | _ => False
  end.

Definition below (k : Z) (x : float) : Prop := sf_below k (Prim2SF x).
Definition mag (k : Z) (x : float) : Prop := sf_mag k (Prim2SF x).
Definition nonneg (x : float) : Prop := sf_nonneg (Prim2SF x).

(** *** Well-formed inputs *)

(** The MetricSet of the data model: every score in its range. *)
Definition wellFormedMetrics (m : Metrics) : Prop :=
  (score (marketMaturity m) = 1 \/ score (marketMaturity m) = 1.5 \/
   score (marketMaturity m) = 2 \/ score (marketMaturity m) = 2.5 \/
   score (marketMaturity m) = 3) /\
  ((0 <=? score (volumeHealth m)) = true /\ (score (volumeHealth m) <=? 1) = true) /\
  ((0 <=? momentum m) = true /\ (momentum m <=? 1) = true) /\
  ((0 <=? score (volatility m)) = true /\ (score (volatility m) <=? 1) = true).

(** [1 <= x <= 10]. *)
Definition inScoreRange (x : float) : Prop :=
  (1 <=? x) = true /\ (x <=? 10) = true.

(** The spellings of BTC in upper and lower case letters. *)
Definition caseVariantsOfBTC : list string :=
  ["BTC"; "BTc"; "BtC"; "Btc"; "bTC"; "bTc"; "btC"; "btc"]%string.

(** Two neighbours of a ranking are in descending order. *)
Definition descending (a b : AdjustedAnalysis) : Prop :=
  (adjustedScore b <=? adjustedScore a) = true.

(** The same, whenever both scores are Numbers. *)
Definition descendingNumbers (a b : AdjustedAnalysis) : Prop :=
  is_nan (adjustedScore a) = false -> is_nan (adjustedScore b) = false -> descending a b.

(** Every neighbouring pair of a list is related. *)
Fixpoint chain {A : Type} (R : A -> A -> Prop) (l : list A) : Prop :=
  match l with
  | a :: (b :: _) as r => R a b /\ chain R r
  | _ => True
  end.

(** The entries of a ranking whose adjusted score equals [v]. *)
Definition withScore (v : float) (l : list AdjustedAnalysis) : list AdjustedAnalysis :=
  filter (fun a => adjustedScore a =? v) l.

(** *** Sample data for the examples *)

(** A stand-in for the engine's logarithm, correctly rounded on the
    arguments the examples reach. *)
Definition log10_sample (x : float) : float :=
  if x =? 51 then 1.7075701760979363
  else if x =? 100 then 2
  else if x =? 10 then 1
  else 0.

Definition sampleMetrics : Metrics :=
  {| marketMaturity := {| score := 1.5; category := "Maduro" |};
     volumeHealth := {| score := 0.8; category := "Excepcional" |};
     momentum := 0.7;
     volatility := {| score := 0.4; category := "Baja" |} |}.

(** An analysis as the scoring functions receive it. *)
Definition sampleAnalysis (symbol : string) (marketCap volume24h : float) : Analysis :=
  {| basic := {| name := symbol; symbol := symbol; basic_price := 100;
                 marketCap := marketCap; volume24h := volume24h |};
     metrics := sampleMetrics;
     performance := {| change1h := Some 1; change24h := Some 5;
                       change7d := Some 10; change30d := Some 20 |};
     isOnCoinbase := false |}.

Definition sampleBase (symbol : string) (investmentScore : float) : BaseAnalysis :=
  {| fields := sampleAnalysis symbol 1e11 6e10;
     investmentScore := investmentScore;
     riskLevel := {| level := "Medio"; riskScore := 0.5 |};
     potentialReturn := 5 |}.

Definition sampleCoin (symbol : string) (market_cap volume_24h : float) : CoinData :=
  {| coin_name := symbol; coin_symbol := symbol;
     quote_USD := {| price := 100; market_cap := market_cap; volume_24h := volume_24h;
                     percent_change_1h := Some 1; percent_change_24h := Some 5;
                     percent_change_7d := Some 10; percent_change_30d := Some 20 |} |}.

(** A listed coin none of whose four percent changes is known. *)
Definition staleCoin : CoinData :=
  {| coin_name := "Stale"; coin_symbol := "STALE";
     quote_USD := {| price := 100; market_cap := 1e11; volume_24h := 6e10;
                     percent_change_1h := None; percent_change_24h := None;
                     percent_change_7d := None; percent_change_30d := None |} |}.

Definition lookup (coins : list CoinData) (symbol : string) : option CoinData :=
  find (fun coin => String.eqb (coin_symbol coin) symbol) coins.

(** A network that always answers: the listing is [coins], a quote
    request gets the listed coins by symbol, the [n]-th dominance
    request reads [dominanceAt n]. *)
Definition answering (coins : list CoinData) (dominanceAt : nat -> float) : Network :=
  {| listings_latest := fun _ => Normal coins;
     quotes_latest := fun _ _ => Normal (lookup coins);
     global_metrics := fun n => Normal (dominanceAt n) |}.

(** Five listed coins; the third has a market capitalisation of 0. *)
Definition fiveCoins : list CoinData :=
  [ sampleCoin "AAA" 1e11 6e10; sampleCoin "BBB" 1e11 6e10; sampleCoin "ZERO" 0 6e10;
    sampleCoin "DDD" 1e11 6e10; sampleCoin "EEE" 1e11 6e10 ].

(** Two listed coins; the first has neither capitalisation nor volume. *)
Definition twoCoins : list CoinData :=
  [ sampleCoin "DEAD" 0 0; sampleCoin "LIVE" 1e11 6e10 ].

(** A dominance that falls from 65 to 30 between two readings. *)
Definition fallingDominance (n : nat) : float :=
  match n with O => 65 | _ => 30 end.

(** *** Requests of a scan *)

(** The session after one more quote request and one more dominance
    request. *)
Definition afterToken (s : Session) : Session :=
  {| listings_sent := listings_sent s; quotes_sent := S (quotes_sent s);
     dominance_sent := S (dominance_sent s); logged := logged s |}.

(** An analysis carries the dominance state made from the [n]-th
    reading of the network. *)
Definition readsDominance (net : Network) (a : AdjustedAnalysis) (n : nat) : Prop :=
  global_metrics net n = Normal (currentDominance (btcDominance a)) /\
  btcDominance a = BitcoinDominanceAnalyzer.marketCycleOf (currentDominance (btcDominance a)).

(** Every request for a listed coin is answered, and the answer holds
    the coin under its upper-cased symbol. *)
Definition allAnswered (net : Network) (coins : list CoinData) : Prop :=
  (forall n, exists d, global_metrics net n = Normal d) /\
  (forall n coin, In coin coins ->
     exists data found,
       quotes_latest net n (toUpperCase (coin_symbol coin)) = Normal data /\
       data (toUpperCase (coin_symbol coin)) = Some found).

(** *** The coins of a scan, one by one *)

(** The session in which a scan started in [s] calls [analyzeToken] for
    the listed coin number [k] (counted from 0), the log apart: the
    listing is requested, and every coin before it has cost one quote
    request and one dominance request. *)
Definition turn (s : Session) (k : nat) : Session :=
  {| listings_sent := S (listings_sent s); quotes_sent := quotes_sent s + k;
     dominance_sent := dominance_sent s + k; logged := logged s |}.

(** Every listed coin, from number [k] on, with the completion of its
    own [analyzeToken] call. *)
Fixpoint outcomes (log10_approx : float -> float) (coinbaseTokens : list string) (net : Network)
    (s : Session) (k : nat) (coins : list CoinData)
  : list (CoinData * Completion AdjustedAnalysis) :=
  match coins with
  | [] => []
  | coin :: rest =>
      (coin, fst (analyzeToken log10_approx coinbaseTokens net (coin_symbol coin) (turn s k)))
        :: outcomes log10_approx coinbaseTokens net s (S k) rest
  end.

(** The analyses of the coins whose call returned, in the order of the
    listing. *)
Definition analysedOf (results : list (CoinData * Completion AdjustedAnalysis))
  : list AdjustedAnalysis :=
  flat_map (fun result => match snd result with Normal a => [a] | Throw _ => [] end) results.

(** The log lines of the coins whose call threw, in the order of the
    listing. *)
Definition droppedOf (results : list (CoinData * Completion AdjustedAnalysis)) : list string :=
  flat_map (fun result =>
              match snd result with
              | Normal _ => []
              | Throw message =>
                  ["Error analizando " ++ coin_symbol (fst result) ++ ": " ++ message]%string
              end) results.

(** The listing is [coins] and every dominance request reads 45, but
    the first quote request of a run times out. *)
Definition firstQuoteLost (coins : list CoinData) : Network :=
  {| listings_latest := fun _ => Normal coins;
     quotes_latest := fun n _ => match n with
                                 | O => Throw "timeout"%string
                                 | S _ => Normal (lookup coins)
                                 end;
     global_metrics := fun _ => Normal 45 |}.

(** ** class AdvancedCryptoScanner *)

(** A [null] operand of [+] or of [Math.abs] is converted to [+0]. *)
Definition ToNumber (x : option float) : float :=
  match x with Some v => v | None => 0 end.

Module AdvancedCryptoScanner.

Definition minMarketCap : float := 1000000.
Definition minVolume : float := 100000.
Definition minVolumeRatio : float := 0.05.

Definition normalizeValue (value min max : float) : float :=
  Math_max min (Math_min value max).

Definition calculateScore (coin : CoinData) : float :=
  let USD := quote_USD coin in
  let momentum := (ToNumber (percent_change_24h USD) + 100) / 100 in
  let trend := (ToNumber (percent_change_7d USD) + 100) / 100 in
  let volume := Math_min (volume_24h USD / market_cap USD * 10) 5 in
  (momentum * 0.3 + trend * 0.4 + volume * 0.3) * 100.

(** The three local constants of [calculateRisk]. *)
Definition marketCapRisk (coin : CoinData) : float :=
  if market_cap (quote_USD coin) <? 10000000 then 3
  else if market_cap (quote_USD coin) <? 100000000 then 2 else 1.

Definition volumeRisk (coin : CoinData) : float :=
  let USD := quote_USD coin in
  if volume_24h USD / market_cap USD <? 0.1 then 3
  else if volume_24h USD / market_cap USD <? 0.2 then 2 else 1.

Definition volatilityRisk (coin : CoinData) : float :=
  let USD := quote_USD coin in
  if 20 <? Math_abs (ToNumber (percent_change_24h USD)) then 3
  else if 10 <? Math_abs (ToNumber (percent_change_24h USD)) then 2 else 1.

Definition calculateRisk (coin : CoinData) : string :=
  let avgRisk := (marketCapRisk coin + volumeRisk coin + volatilityRisk coin) / 3 in
  if 2.5 <? avgRisk then "Alto" else if 1.5 <? avgRisk then "Medio" else "Bajo".

(** [coin.quote.USD.price]; the entries of a scan have a [price] of
    their own. *)
Local Abbreviation USD_price := price.

(** An entry of the list [scanOpportunities] returns. *)
Record Opportunity := {
  symbol : string;
  name : string;
  price : float;
  marketCap : float;
  volume24h : float;
  change24h : option float;
  change7d : option float;
  volumeRatio : float;
  score : float;
  risk : string;
  potentialReturn : float
}.

Section Scanner.

Variable log10_approx : float -> float.

Definition calculatePotentialReturn (coin : CoinData) : float :=
  let USD := quote_USD coin in
  let marketCapFactor :=
    Math_max 0 (Math_log10 log10_approx (1000000000 / Math_max (market_cap USD) 1)) in
  let momentumFactor := Math_max 0.1 ((ToNumber (percent_change_7d USD) + 100) / 100) in
  let volumeFactor := normalizeValue (volume_24h USD / market_cap USD * 10) 0.1 5 in
  normalizeValue (marketCapFactor * momentumFactor * volumeFactor) 1 10.

(** The callback of the first [filter].  On a coin of this type no
    property access throws, so its [catch] is not reached. *)
Definition eligible (coin : CoinData) : bool :=
  let USD := quote_USD coin in
  (minMarketCap <=? market_cap USD) &&
  (minVolume <=? volume_24h USD) &&
  (minVolumeRatio <=? volume_24h USD / market_cap USD).

(** The callback of [map]; nothing in it throws either, so that no
    entry is [null] and the second [filter] keeps them all. *)
Definition toOpportunity (coin : CoinData) : Opportunity :=
  let USD := quote_USD coin in
  {| symbol := coin_symbol coin;
     name := coin_name coin;
     price := USD_price USD;
     marketCap := market_cap USD;
     volume24h := volume_24h USD;
     change24h := percent_change_24h USD;
     change7d := percent_change_7d USD;
     volumeRatio := volume_24h USD / market_cap USD;
     score := calculateScore coin;
     risk := calculateRisk coin;
     potentialReturn := calculatePotentialReturn coin |}.

(** [(a, b) => b.score - a.score]. *)
Definition byScore (a b : Opportunity) : float := score b - score a.

(** The answers to the listing requests of the scanner: [None] is a
    response without [data.data]. *)
Variable listings : nat -> Completion (option (list CoinData)).

Local Open Scope async_scope.
Local Open Scope string_scope.

Definition axios_get_listings : Async (option (list CoinData)) :=
  fun s =>
    (listings (listings_sent s),
     {| listings_sent := S (listings_sent s); quotes_sent := quotes_sent s;
        dominance_sent := dominance_sent s; logged := logged s |}).

(** [this.log] of the scanner has the body of the analyzer's. *)
Definition scanOpportunities : Async (list Opportunity) :=
  try_catch
    (response <- axios_get_listings ;;
     match response with
     | None => throw "Respuesta de API inválida"
     | Some data => ret (Array_sort byScore (map toOpportunity (filter eligible data)))
     end)
    (fun message => log ("Error en scanOpportunities: " ++ message) ;;; throw message).

End Scanner.

End AdvancedCryptoScanner.

(** *** Vocabulary of the further properties *)

(** The session once a listing is requested. *)
Definition afterListing (s : Session) : Session :=
  {| listings_sent := S (listings_sent s); quotes_sent := quotes_sent s;
     dominance_sent := dominance_sent s; logged := logged s |}.

(** The line [scanTopOpportunities] logs for a coin it drops: the
    message of [analyzeToken] names the coin already. *)
Definition droppedLine (coins : list CoinData) (line : string) : Prop :=
  exists coin cause, In coin coins /\
    line = ("Error analizando " ++ coin_symbol coin ++
            ": Error analizando " ++ coin_symbol coin ++ ": " ++ cause)%string.

(** A change that is [null] or a Number of at most 1e15 percent. *)
Definition boundedChange (change : option float) : Prop :=
  forall v, change = Some v -> (v <=? 1e15) = true.

(** A network that answers nothing. *)
Definition offline : Network :=
  {| listings_latest := fun _ => Throw "timeout"%string;
     quotes_latest := fun _ _ => Throw "timeout"%string;
     global_metrics := fun _ => Throw "timeout"%string |}.

(** The listing is [coins], the dominance is 50, and every quote
    request times out. *)
Definition withoutQuotes (coins : list CoinData) : Network :=
  {| listings_latest := fun _ => Normal coins;
     quotes_latest := fun _ _ => Throw "timeout"%string;
     global_metrics := fun _ => Normal 50 |}.


(** * Facts about binary64 arithmetic

    The primitive operations are specified by [SpecFloat]; what follows
    is derived from that specification. *)

(** ** The order of the values *)

Ltac lex_case :=
  split;
  [ let Hc := fresh "Hc" in
    intros Hc; try discriminate Hc; repeat split; try discriminate; lia
  | let H1 := fresh in let H2 := fresh in let H3 := fresh in
    intros (H1 & H2 & H3); try congruence; try reflexivity; exfalso; lia ].

Lemma SFcompare_lt (x y : spec_float) :
  SFcompare x y = Some Lt <-> x <> S754_nan /\ y <> S754_nan /\ lex_lt (key x) (key y).
Proof.
  destruct x as [[|]|[|]| |[|] m e], y as [[|]|[|]| |[|] m' e']; cbn; try lex_case.
  all: change (Pos.compare_cont Eq m m') with (Pos.compare m m');
    destruct (Z.compare_spec e e'), (Pos.compare_spec m m'); cbn; lex_case.
Qed.

Lemma SFcompare_eq (x y : spec_float) :
  SFcompare x y = Some Eq <-> x <> S754_nan /\ y <> S754_nan /\ key x = key y.
Proof.
  destruct x as [[|]|[|]| |[|] m e], y as [[|]|[|]| |[|] m' e']; cbn;
    try (split; [ intros Hc; try discriminate Hc; repeat split; try discriminate; reflexivity
                | intros (H1 & H2 & H3); try congruence; try reflexivity ]).
  all: change (Pos.compare_cont Eq m m') with (Pos.compare m m');
    destruct (Z.compare_spec e e'), (Pos.compare_spec m m'); cbn;
    (split; [ intros Hc; try discriminate Hc; repeat split; try discriminate; subst; reflexivity
            | intros (H1 & H2 & H3); try reflexivity; exfalso; inversion H3; lia ]).
Qed.

Lemma SFcompare_gt (x y : spec_float) :
  SFcompare x y = Some Gt <-> x <> S754_nan /\ y <> S754_nan /\ lex_lt (key y) (key x).
Proof.
  destruct x as [[|]|[|]| |[|] m e], y as [[|]|[|]| |[|] m' e']; cbn; try lex_case.
  all: change (Pos.compare_cont Eq m m') with (Pos.compare m m');
    destruct (Z.compare_spec e e'), (Pos.compare_spec m m'); cbn; lex_case.
Qed.

Lemma SFcompare_nan (x y : spec_float) :
  SFcompare x y = None <-> x = S754_nan \/ y = S754_nan.
Proof.
  destruct x as [[|]|[|]| |[|] m e], y as [[|]|[|]| |[|] m' e']; cbn;
    (split; [ intros Hc; try discriminate Hc; auto | intros [Hc|Hc]; try discriminate Hc; reflexivity ]).
Qed.

Lemma lex_le_iff (a b : Z * Z * Z) : lex_le a b <-> lex_lt a b \/ a = b.
Proof.
  destruct a as [[a1 a2] a3], b as [[b1 b2] b3]; unfold lex_le, lex_lt; split.
  - intros H. destruct (Z.eq_dec a1 b1), (Z.eq_dec a2 b2), (Z.eq_dec a3 b3); subst; auto; left; lia.
  - intros [H|H]; [lia | inversion H; subst; lia].
Qed.

Lemma lex_total (a b : Z * Z * Z) : lex_lt a b \/ a = b \/ lex_lt b a.
Proof.
  destruct a as [[a1 a2] a3], b as [[b1 b2] b3]; unfold lex_lt.
  destruct (Z.eq_dec a1 b1), (Z.eq_dec a2 b2), (Z.eq_dec a3 b3); subst; auto; lia.
Qed.

Lemma lex_lt_irrefl (a b : Z * Z * Z) : lex_lt a b -> lex_le b a -> False.
Proof.
  destruct a as [[a1 a2] a3], b as [[b1 b2] b3]; unfold lex_lt, lex_le; lia.
Qed.

Lemma lex_lt_refl (a : Z * Z * Z) : ~ lex_lt a a.
Proof. destruct a as [[a1 a2] a3]; unfold lex_lt; lia. Qed.

Lemma is_nan_true_iff (x : float) : is_nan x = true <-> Prim2SF x = S754_nan.
Proof.
  unfold is_nan. rewrite FloatAxioms.eqb_spec. unfold SFeqb.
  destruct (SFcompare (Prim2SF x) (Prim2SF x)) as [[| |]|] eqn:E; cbn.
  - apply SFcompare_eq in E. split; [intros H; discriminate H | tauto].
  - apply SFcompare_lt in E. destruct E as (_ & _ & E). now apply lex_lt_refl in E.
  - apply SFcompare_gt in E. destruct E as (_ & _ & E). now apply lex_lt_refl in E.
  - apply SFcompare_nan in E. split; [tauto | reflexivity].
Qed.

Lemma is_nan_false_iff (x : float) : is_nan x = false <-> Prim2SF x <> S754_nan.
Proof.
  rewrite <- is_nan_true_iff. destruct (is_nan x); split; congruence.
Qed.

Lemma ltb_true_iff (x y : float) :
  (x <? y) = true <-> is_nan x = false /\ is_nan y = false /\ lex_lt (fkey x) (fkey y).
Proof.
  rewrite FloatAxioms.ltb_spec, !is_nan_false_iff. unfold SFltb, fkey. rewrite <- SFcompare_lt.
  destruct (SFcompare (Prim2SF x) (Prim2SF y)) as [[| |]|]; split; congruence.
Qed.

Lemma leb_true_iff (x y : float) :
  (x <=? y) = true <-> is_nan x = false /\ is_nan y = false /\ lex_le (fkey x) (fkey y).
Proof.
  rewrite FloatAxioms.leb_spec, !is_nan_false_iff, lex_le_iff. unfold SFleb, fkey.
  destruct (SFcompare (Prim2SF x) (Prim2SF y)) as [[| |]|] eqn:E.
  - apply SFcompare_eq in E. tauto.
  - apply SFcompare_lt in E. tauto.
  - apply SFcompare_gt in E. split; [discriminate|].
    intros (Hx & Hy & [H|H]).
    + exfalso. eapply lex_lt_irrefl; [exact H|]. apply lex_le_iff. tauto.
    + exfalso. destruct E as (_ & _ & E). rewrite H in E. eapply lex_lt_irrefl; [exact E|].
      apply lex_le_iff. auto.
  - apply SFcompare_nan in E. split; [discriminate | tauto].
Qed.

Lemma eqb_true_iff (x y : float) :
  (x =? y) = true <-> is_nan x = false /\ is_nan y = false /\ fkey x = fkey y.
Proof.
  rewrite FloatAxioms.eqb_spec, !is_nan_false_iff. unfold SFeqb, fkey. rewrite <- SFcompare_eq.
  destruct (SFcompare (Prim2SF x) (Prim2SF y)) as [[| |]|]; split; congruence.
Qed.

Lemma ltb_false_iff (x y : float) :
  (x <? y) = false <-> is_nan x = true \/ is_nan y = true \/ lex_le (fkey y) (fkey x).
Proof.
  destruct (x <? y) eqn:E.
  - apply ltb_true_iff in E. destruct E as (Hx & Hy & E). split; [discriminate|].
    intros [H|[H|H]]; try congruence. exfalso. eapply lex_lt_irrefl; eauto.
  - split; [intros _|reflexivity].
    destruct (is_nan x) eqn:Hx; [auto|]. destruct (is_nan y) eqn:Hy; [auto|].
    right; right. apply lex_le_iff.
    destruct (lex_total (fkey y) (fkey x)) as [H|[H|H]]; auto.
    assert ((x <? y) = true) by (apply ltb_true_iff; auto). congruence.
Qed.

Lemma leb_false_iff (x y : float) :
  (x <=? y) = false <-> is_nan x = true \/ is_nan y = true \/ lex_lt (fkey y) (fkey x).
Proof.
  destruct (x <=? y) eqn:E.
  - apply leb_true_iff in E. destruct E as (Hx & Hy & E). split; [discriminate|].
    intros [H|[H|H]]; try congruence. exfalso. eapply lex_lt_irrefl; eauto.
  - split; [intros _|reflexivity].
    destruct (is_nan x) eqn:Hx; [auto|]. destruct (is_nan y) eqn:Hy; [auto|].
    right; right.
    destruct (lex_total (fkey y) (fkey x)) as [H|[H|H]]; auto.
    + assert ((x <=? y) = true) by (apply leb_true_iff; repeat split; auto; apply lex_le_iff; auto).
      congruence.
    + assert ((x <=? y) = true) by (apply leb_true_iff; repeat split; auto; apply lex_le_iff; auto).
      congruence.
Qed.

(** ** Rounding *)

Section Rounding.

Local Open Scope Z_scope.

Lemma fexp64_eq e : fexp prec emax e = fexp64 e.
Proof. reflexivity. Qed.

Lemma digits2_size p : digits2_pos p = Pos.size p.
Proof. induction p; cbn; congruence. Qed.

Lemma Zdigits2_nonneg m : 0 <= Zdigits2 m.
Proof. destruct m; cbn; lia. Qed.

Lemma Zdigits2_bound m j : 0 <= m -> 0 <= j -> (Zdigits2 m <= j <-> m < 2 ^ j).
Proof.
  intros Hm Hj. destruct m as [|p|p]; [| |lia].
  - cbn. split; intros _; [apply Z.pow_pos_nonneg; lia | lia].
  - cbn. rewrite digits2_size.
    pose proof (Pos.size_gt p) as Hgt. pose proof (Pos.size_le p) as Hle.
    apply Pos2Z.pos_lt_pos in Hgt. apply Pos2Z.pos_le_pos in Hle.
    rewrite Pos2Z.inj_pow in Hgt, Hle. change (Z.pos 2) with 2 in *.
    split; intros H.
    + apply Z.lt_le_trans with (1 := Hgt). apply Z.pow_le_mono_r; lia.
    + destruct (Z_le_gt_dec (Z.pos (Pos.size p)) j) as [|Hgt']; [assumption|exfalso].
      assert (2 ^ (j + 1) <= 2 ^ Z.pos (Pos.size p)) by (apply Z.pow_le_mono_r; lia).
      rewrite Z.pow_add_r in H0 by lia. change (Z.pos p~0) with (2 * Z.pos p) in Hle. lia.
Qed.

Lemma Zdigits2_pos m : 0 < m -> 0 < Zdigits2 m.
Proof. destruct m; cbn; lia. Qed.

Lemma shr_1_m r : 0 <= shr_m r -> shr_m (shr_1 r) = shr_m r / 2.
Proof.
  destruct r as [m rb sb]. cbn. destruct m as [|[p|p|]|p]; cbn; intros H; try lia.
  - change (Z.pos p~1) with (2 * Z.pos p + 1). apply Z.div_unique with 1; lia.
  - change (Z.pos p~0) with (2 * Z.pos p). apply Z.div_unique with 0; lia.
Qed.

Lemma iter_shr_1_m p : forall r, 0 <= shr_m r ->
  shr_m (iter_pos shr_1 p r) = shr_m r / 2 ^ Z.pos p.
Proof.
  induction p as [p IH|p IH|]; intros r Hr; cbn [iter_pos].
  - assert (H1 : 0 <= shr_m (shr_1 r)) by (rewrite shr_1_m by assumption; apply Z.div_pos; lia).
    assert (H2 : 0 <= shr_m (iter_pos shr_1 p (shr_1 r)))
      by (rewrite IH by assumption; apply Z.div_pos; [assumption | apply Z.pow_pos_nonneg; lia]).
    rewrite IH by assumption. rewrite IH by assumption. rewrite shr_1_m by assumption.
    rewrite !Z.div_div by (try apply Z.pow_pos_nonneg; lia).
    f_equal. replace (Z.pos p~1) with (1 + (Z.pos p + Z.pos p)) by lia.
    rewrite !Z.pow_add_r by lia. reflexivity.
  - assert (H2 : 0 <= shr_m (iter_pos shr_1 p r))
      by (rewrite IH by assumption; apply Z.div_pos; [assumption | apply Z.pow_pos_nonneg; lia]).
    rewrite IH by assumption. rewrite IH by assumption.
    rewrite !Z.div_div by (try apply Z.pow_pos_nonneg; lia).
    f_equal. replace (Z.pos p~0) with (Z.pos p + Z.pos p) by lia.
    rewrite !Z.pow_add_r by lia. reflexivity.
  - rewrite shr_1_m by assumption. reflexivity.
Qed.

Lemma loc_of_shr_record_of_loc m l : loc_of_shr_record (shr_record_of_loc m l) = l.
Proof. destruct l as [|[| |]]; reflexivity. Qed.

Lemma shr_m_of_loc m l : shr_m (shr_record_of_loc m l) = m.
Proof. destruct l as [|[| |]]; reflexivity. Qed.

Lemma round_nearest_even_bounds m l : m <= round_nearest_even m l <= m + 1.
Proof. destruct l as [|[| |]]; cbn; try lia. destruct (Z.even m); lia. Qed.

(** The first shift of [binary_round_aux]. *)
Lemma shr_fexp_spec M E l : 0 <= M ->
  let e1 := Z.max E (fexp64 (Zdigits2 M + E)) in
  exists r, shr_fexp prec emax M E l = (r, e1) /\ shr_m r = M / 2 ^ (e1 - E) /\
            (e1 = E -> r = shr_record_of_loc M l).
Proof.
  intros HM e1. unfold shr_fexp, shr. rewrite fexp64_eq. fold e1.
  destruct (fexp64 (Zdigits2 M + E) - E) as [|p|p] eqn:En.
  - assert (e1 = E) by lia. exists (shr_record_of_loc M l). rewrite H, Z.sub_diag, Z.div_1_r.
    rewrite shr_m_of_loc. auto.
  - assert (e1 = E + Z.pos p) by lia. eexists. split; [rewrite H; reflexivity|]. split.
    + rewrite iter_shr_1_m by (rewrite shr_m_of_loc; assumption). rewrite shr_m_of_loc.
      do 2 f_equal. lia.
    + lia.
  - assert (e1 = E) by lia. exists (shr_record_of_loc M l). rewrite H, Z.sub_diag, Z.div_1_r.
    rewrite shr_m_of_loc. auto.
Qed.

(** What [binary_round_aux] returns on a non-negative mantissa: the
    mantissa is cut to the precision, moved up by at most one unit, and
    cut again if that carried. *)
Lemma binary_round_aux_spec s M E l : 0 <= M ->
  let e1 := Z.max E (fexp64 (Zdigits2 M + E)) in
  exists m1, M / 2 ^ (e1 - E) <= m1 <= M / 2 ^ (e1 - E) + 1 /\
    (l = loc_Exact -> e1 = E -> m1 = M) /\
    let e2 := Z.max e1 (fexp64 (Zdigits2 m1 + e1)) in
    binary_round_aux prec emax s M E l =
      match m1 / 2 ^ (e2 - e1) with
      | Z0 => S754_zero s
      | Z.pos m => if e2 <=? emax - prec then S754_finite s m e2 else S754_infinity s
      | Z.neg _ => S754_nan
      end.
Proof.
  intros HM e1. unfold binary_round_aux.
  destruct (shr_fexp_spec M E l HM) as (r & Hr & Hm & Hex). fold e1 in Hr, Hm, Hex.
  rewrite Hr.
  set (m1 := round_nearest_even (shr_m r) (loc_of_shr_record r)).
  assert (Hm1 : shr_m r <= m1 <= shr_m r + 1) by apply round_nearest_even_bounds.
  exists m1. rewrite <- Hm. split; [assumption|]. split.
  - intros -> He. subst m1. rewrite (Hex He). reflexivity.
  - cbv zeta. set (e2 := Z.max e1 (fexp64 (Zdigits2 m1 + e1))).
    assert (H0 : 0 <= m1).
    { rewrite Hm in Hm1. assert (0 <= M / 2 ^ (e1 - E)) by (apply Z.div_pos; [assumption | apply Z.pow_pos_nonneg; lia]). lia. }
    destruct (shr_fexp_spec m1 e1 loc_Exact H0) as (r2 & Hr2 & Hm2 & _). fold e2 in Hr2, Hm2.
    rewrite Hr2, Hm2. reflexivity.
Qed.

Lemma binary_round_aux_signed s M E l : 0 <= M ->
  sf_signed s (binary_round_aux prec emax s M E l).
Proof.
  intros HM. destruct (binary_round_aux_spec s M E l HM) as (m1 & Hm1 & _ & ->).
  assert (0 <= M / 2 ^ (Z.max E (fexp64 (Zdigits2 M + E)) - E))
    by (apply Z.div_pos; [assumption | apply Z.pow_pos_nonneg; lia]).
  set (e1 := Z.max E (fexp64 (Zdigits2 M + E))) in *.
  set (e2 := Z.max e1 (fexp64 (Zdigits2 m1 + e1))).
  assert (0 <= m1 / 2 ^ (e2 - e1)) by (apply Z.div_pos; [lia | apply Z.pow_pos_nonneg; lia]).
  destruct (m1 / 2 ^ (e2 - e1)); [reflexivity| |lia].
  destruct (e2 <=? emax - prec); reflexivity.
Qed.

Lemma div_pow2_lt a n j : 0 <= n -> 0 <= j -> a < 2 ^ (n + j) -> a / 2 ^ n < 2 ^ j.
Proof.
  intros Hn Hj Ha. apply Z.div_lt_upper_bound; [apply Z.pow_pos_nonneg; lia|].
  rewrite <- Z.pow_add_r by lia. assumption.
Qed.

(** A value below [2^k] rounds to a finite value of at most [2^k]. *)
Lemma binary_round_aux_mag s M E l k : 0 <= M ->
  Zdigits2 M + E <= k -> -1074 <= k <= 970 ->
  sf_mag (k + 1) (binary_round_aux prec emax s M E l).
Proof.
  intros HM Hd Hk. destruct (binary_round_aux_spec s M E l HM) as (m1 & Hm1 & _ & ->).
  pose proof (Zdigits2_nonneg M) as Hd0.
  set (e1 := Z.max E (fexp64 (Zdigits2 M + E))) in *.
  assert (He1 : E <= e1 <= k) by (unfold e1, fexp64; lia).
  assert (HMlt : M < 2 ^ (k - E)) by (apply Zdigits2_bound; lia).
  assert (Hm' : 0 <= M / 2 ^ (e1 - E) < 2 ^ (k - e1)).
  { split; [apply Z.div_pos; [assumption | apply Z.pow_pos_nonneg; lia]|].
    apply div_pow2_lt; try lia. replace (e1 - E + (k - e1)) with (k - E) by lia. assumption. }
  assert (Hm1lt : m1 < 2 ^ (k + 1 - e1)).
  { replace (k + 1 - e1) with (1 + (k - e1)) by lia. rewrite Z.pow_add_r by lia.
    change (2 ^ 1) with 2. pose proof (Z.pow_pos_nonneg 2 (k - e1)). lia. }
  assert (HD1 : Zdigits2 m1 + e1 <= k + 1).
  { assert (Zdigits2 m1 <= k + 1 - e1) by (apply Zdigits2_bound; lia). lia. }
  pose proof (Zdigits2_nonneg m1) as Hd1.
  set (e2 := Z.max e1 (fexp64 (Zdigits2 m1 + e1))).
  assert (He2 : e1 <= e2 <= k) by (unfold e2, fexp64; lia).
  assert (Hm2 : 0 <= m1 / 2 ^ (e2 - e1) < 2 ^ (k + 1 - e2)).
  { split; [apply Z.div_pos; [lia | apply Z.pow_pos_nonneg; lia]|].
    apply div_pow2_lt; try lia. replace (e2 - e1 + (k + 1 - e2)) with (k + 1 - e1) by lia.
    assumption. }
  destruct (m1 / 2 ^ (e2 - e1)) as [|m|m] eqn:Em; [exact I| |lia].
  replace (e2 <=? emax - prec) with true by (symmetry; apply Z.leb_le; cbn; lia).
  unfold sf_mag. assert (Zdigits2 (Z.pos m) <= k + 1 - e2) by (apply Zdigits2_bound; lia).
  unfold Zdigits2 in H. lia.
Qed.

Lemma shift_nonzero m e : 1 <= m -> -1074 <= e ->
  1 <= m / 2 ^ (Z.max e (fexp64 (Zdigits2 m + e)) - e).
Proof.
  intros Hm He. pose proof (Zdigits2_pos m ltac:(lia)) as Hd.
  set (e' := Z.max e (fexp64 (Zdigits2 m + e))).
  destruct (Z.eq_dec e' e) as [->|Hne].
  - rewrite Z.sub_diag, Z.div_1_r. assumption.
  - assert (He' : e' - e = Zdigits2 m - 53) by (unfold e', fexp64 in *; lia).
    rewrite He'. assert (Hlow : 2 ^ (Zdigits2 m - 1) <= m).
    { destruct (Z_lt_le_dec m (2 ^ (Zdigits2 m - 1))) as [Hlt|]; [|assumption].
      apply Zdigits2_bound in Hlt; lia. }
    apply Z.div_le_lower_bound; [apply Z.pow_pos_nonneg; lia|]. rewrite Z.mul_1_r.
    apply Z.le_trans with (2 := Hlow). apply Z.pow_le_mono_r; lia.
Qed.

(** No underflow to zero from an exponent already in range. *)
Lemma binary_round_aux_nonzero s M E l : 1 <= M -> -1074 <= E ->
  match binary_round_aux prec emax s M E l with
  | S754_finite s' _ _ | S754_infinity s' => s' = s
  | _ => False
  end.
Proof.
  intros HM HE. destruct (binary_round_aux_spec s M E l ltac:(lia)) as (m1 & Hm1 & _ & ->).
  pose proof (shift_nonzero M E HM HE) as H1.
  set (e1 := Z.max E (fexp64 (Zdigits2 M + E))) in *.
  assert (1 <= m1) by lia.
  pose proof (shift_nonzero m1 e1 H ltac:(lia)) as H2.
  set (e2 := Z.max e1 (fexp64 (Zdigits2 m1 + e1))) in *.
  destruct (m1 / 2 ^ (e2 - e1)); [lia| |lia].
  destruct (e2 <=? emax - prec); reflexivity.
Qed.

Lemma sf_mag_below k r : sf_mag k r -> sf_below k r.
Proof. destruct r as [s|s| |[|] m e]; cbn; auto; contradiction. Qed.

Lemma sf_below_mono k k' r : k <= k' -> sf_below k r -> sf_below k' r.
Proof. destruct r as [s|s| |[|] m e]; cbn; auto; lia. Qed.

Lemma sf_mag_mono k k' r : k <= k' -> sf_mag k r -> sf_mag k' r.
Proof. destruct r as [s|s| |s m e]; cbn; auto; lia. Qed.

Lemma sf_signed_true_below k r : sf_signed true r -> sf_below k r.
Proof. destruct r as [s|s| |s m e]; cbn; auto; intros ->; exact I. Qed.

Lemma sf_signed_nan s r : sf_signed s r -> r <> S754_nan.
Proof. destruct r; cbn; congruence. Qed.

Lemma sf_below_nan k r : sf_below k r -> r <> S754_nan.
Proof. destruct r; cbn; congruence. Qed.

Lemma sf_mag_nan k r : sf_mag k r -> r <> S754_nan.
Proof. destruct r; cbn; congruence. Qed.

Lemma shl_align_spec mx ex ez :
  let '(m', e') := shl_align mx ex ez in
  e' = Z.min ex ez /\ Z.pos m' = Z.pos mx * 2 ^ (ex - e').
Proof.
  unfold shl_align. destruct (ez - ex) as [|d|d] eqn:Ed.
  - split; [lia|]. rewrite Z.sub_diag. lia.
  - split; [lia|]. rewrite Z.sub_diag. lia.
  - split; [lia|]. replace (ex - ez) with (Z.pos d) by lia.
    change (Pos.iter xO mx d) with (shift_pos d mx). rewrite shift_pos_correct.
    change (Z.pow_pos 2 d) with (2 ^ Z.pos d). lia.
Qed.

Lemma shl_align_fst mx ex ez : ez <= ex ->
  Z.pos (fst (shl_align mx ex ez)) = Z.pos mx * 2 ^ (ex - ez).
Proof.
  intros H. pose proof (shl_align_spec mx ex ez) as Hs.
  destruct (shl_align mx ex ez) as [m' e']. destruct Hs as [He Hm]. cbn [fst].
  rewrite Hm, He. replace (Z.min ex ez) with ez by lia. reflexivity.
Qed.

Lemma Zdigits2_mul_pow2 m n : 0 < m -> 0 <= n -> Zdigits2 (m * 2 ^ n) = Zdigits2 m + n.
Proof.
  intros Hm Hn. pose proof (Zdigits2_pos m Hm) as Hd.
  assert (Hp : 0 < 2 ^ n) by (apply Z.pow_pos_nonneg; lia).
  assert (Hlt : m < 2 ^ Zdigits2 m) by (apply Zdigits2_bound; lia).
  assert (Hge : 2 ^ (Zdigits2 m - 1) <= m).
  { destruct (Z_lt_le_dec m (2 ^ (Zdigits2 m - 1))) as [H|]; [|assumption].
    apply Zdigits2_bound in H; lia. }
  apply Z.le_antisymm.
  - apply Zdigits2_bound; try nia. rewrite Z.pow_add_r by lia. nia.
  - destruct (Z_le_gt_dec (Zdigits2 m + n) (Zdigits2 (m * 2 ^ n))) as [|Hgt]; [assumption|exfalso].
    assert (H : Zdigits2 (m * 2 ^ n) <= Zdigits2 m - 1 + n) by lia.
    apply Zdigits2_bound in H; try nia. rewrite Z.pow_add_r in H by lia. nia.
Qed.

Lemma binary_round_unfold s m e :
  exists m' e', binary_round prec emax s m e = binary_round_aux prec emax s (Z.pos m') e' loc_Exact
    /\ Zdigits2 (Z.pos m') + e' = Zdigits2 (Z.pos m) + e /\ (-1074 <= e -> -1074 <= e').
Proof.
  unfold binary_round. rewrite fexp64_eq.
  pose proof (shl_align_spec m e (fexp64 (Z.pos (digits2_pos m) + e))) as Hs.
  destruct (shl_align m e (fexp64 (Z.pos (digits2_pos m) + e))) as [m' e'].
  destruct Hs as [He Hm]. exists m', e'. split; [reflexivity|]. split.
  - rewrite Hm, Zdigits2_mul_pow2 by lia. lia.
  - unfold fexp64 in He. lia.
Qed.

Lemma binary_round_signed s m e : sf_signed s (binary_round prec emax s m e).
Proof.
  destruct (binary_round_unfold s m e) as (m' & e' & -> & _). apply binary_round_aux_signed. lia.
Qed.

Lemma binary_round_mag s m e k : Z.pos (digits2_pos m) + e <= k -> -1074 <= k <= 970 ->
  sf_mag (k + 1) (binary_round prec emax s m e).
Proof.
  intros Hd Hk. destruct (binary_round_unfold s m e) as (m' & e' & -> & H & _).
  apply binary_round_aux_mag; [lia| |assumption]. cbn [Zdigits2] in *. lia.
Qed.

Lemma binary_round_nonzero s m e : -1074 <= e ->
  match binary_round prec emax s m e with
  | S754_finite s' _ _ | S754_infinity s' => s' = s
  | _ => False
  end.
Proof.
  intros He. destruct (binary_round_unfold s m e) as (m' & e' & -> & _ & H).
  apply binary_round_aux_nonzero; lia.
Qed.

Lemma binary_normalize_nan M e sz : binary_normalize prec emax M e sz <> S754_nan.
Proof.
  destruct M; cbn [binary_normalize]; [discriminate| |];
    eapply sf_signed_nan; apply binary_round_signed.
Qed.

(** The sum of the aligned mantissas, bounded from above. *)
Lemma binary_normalize_below M e k : M < 2 ^ (k - e) -> 0 <= k - e -> -1074 <= k <= 970 ->
  sf_below (k + 1) (binary_normalize prec emax M e false).
Proof.
  intros HM He Hk. destruct M as [|m|m]; cbn [binary_normalize].
  - exact I.
  - apply sf_mag_below, binary_round_mag; [|assumption].
    assert (Zdigits2 (Z.pos m) <= k - e) by (apply Zdigits2_bound; lia). cbn in H. lia.
  - apply sf_signed_true_below, binary_round_signed.
Qed.

Lemma SFadd_finite sx mx ex sy my ey :
  SFadd prec emax (S754_finite sx mx ex) (S754_finite sy my ey) =
  binary_normalize prec emax
    (cond_Zopp sx (Z.pos (fst (shl_align mx ex (Z.min ex ey)))) +
     cond_Zopp sy (Z.pos (fst (shl_align my ey (Z.min ex ey))))) (Z.min ex ey) false.
Proof. reflexivity. Qed.

Lemma SFsub_finite sx mx ex sy my ey :
  SFsub prec emax (S754_finite sx mx ex) (S754_finite sy my ey) =
  binary_normalize prec emax
    (cond_Zopp sx (Z.pos (fst (shl_align mx ex (Z.min ex ey)))) -
     cond_Zopp sy (Z.pos (fst (shl_align my ey (Z.min ex ey))))) (Z.min ex ey) false.
Proof. reflexivity. Qed.

(** An aligned mantissa of a positive value below [2^k]. *)
Lemma aligned_bound s m e ez k : ez <= e ->
  sf_below k (S754_finite s m e) ->
  cond_Zopp s (Z.pos (fst (shl_align m e ez))) < 2 ^ (k + 1 - ez) /\
  (s = false -> 0 <= k - ez /\ cond_Zopp s (Z.pos (fst (shl_align m e ez))) < 2 ^ (k - ez)).
Proof.
  intros Hez Hb. rewrite shl_align_fst by assumption.
  assert (Hp : 0 < 2 ^ (e - ez)) by (apply Z.pow_pos_nonneg; lia).
  destruct s; cbn [cond_Zopp sf_below] in *.
  - split; [|discriminate]. 
    destruct (Z_le_gt_dec 0 (k + 1 - ez)).
    + assert (0 < 2 ^ (k + 1 - ez)) by (apply Z.pow_pos_nonneg; lia). nia.
    + rewrite (Z.pow_neg_r 2 (k + 1 - ez)) by lia. nia.
  - assert (Hd : Zdigits2 (Z.pos m) <= k - e) by (cbn; lia).
    assert (0 < Zdigits2 (Z.pos m)) by (cbn; lia).
    apply Zdigits2_bound in Hd; try lia.
    assert (Z.pos m * 2 ^ (e - ez) < 2 ^ (k - ez)).
    { replace (k - ez) with ((k - e) + (e - ez)) by lia. rewrite Z.pow_add_r by lia. nia. }
    split; [|intros _; split; [lia|assumption]].
    replace (k + 1 - ez) with (1 + (k - ez)) by lia. rewrite Z.pow_add_r by lia.
    change (2 ^ 1) with 2. lia.
Qed.

Lemma SFadd_below k x y : sf_below k x -> sf_below k y -> -1074 <= k <= 968 ->
  sf_below (k + 2) (SFadd prec emax x y).
Proof.
  intros Hx Hy Hk.
  destruct x as [sx|sx| |sx mx ex]; try contradiction;
  destruct y as [sy|sy| |sy my ey]; try contradiction;
    try (cbn in Hx, Hy |- *; subst; try destruct sx; try destruct sy; cbn; auto; lia).
  rewrite SFadd_finite. set (ez := Z.min ex ey).
  destruct (aligned_bound sx mx ex ez k ltac:(lia) Hx) as [Hx1 Hx2].
  destruct (aligned_bound sy my ey ez k ltac:(lia) Hy) as [Hy1 Hy2].
  set (X := cond_Zopp sx _) in *. set (Y := cond_Zopp sy _) in *.
  assert (HX : sx = true -> X < 0) by (intros ->; subst X; cbn; lia).
  assert (HY : sy = true -> Y < 0) by (intros ->; subst Y; cbn; lia).
  destruct (Z_le_gt_dec (X + Y) 0) as [Hle|Hgt].
  - destruct (X + Y) as [|p|p] eqn:E; try lia; cbn [binary_normalize]; [exact I|].
    apply sf_signed_true_below, binary_round_signed.
  - assert (0 <= k - ez) by (destruct sx, sy; try (apply Hx2; reflexivity); try (apply Hy2; reflexivity);
      specialize (HX eq_refl); specialize (HY eq_refl); lia).
    replace (k + 2) with ((k + 1) + 1) by lia. apply binary_normalize_below; try lia.
    replace (k + 1 - ez) with (1 + (k - ez)) by lia. rewrite Z.pow_add_r by lia.
    change (2 ^ 1) with 2.
    assert (0 < 2 ^ (k - ez)) by (apply Z.pow_pos_nonneg; lia).
    destruct sx, sy;
      try specialize (HX eq_refl); try specialize (HY eq_refl);
      try (destruct (Hx2 eq_refl)); try (destruct (Hy2 eq_refl)); lia.
Qed.

Lemma SFsub_below k x y : sf_below k x -> sf_nonneg y -> -1074 <= k <= 968 ->
  sf_below (k + 2) (SFsub prec emax x y).
Proof.
  intros Hx Hy Hk.
  destruct x as [sx|sx| |sx mx ex]; try contradiction;
  destruct y as [sy|[|]| |[|] my ey]; try contradiction;
    try (cbn in Hx |- *; subst; try destruct sx; try destruct sy; cbn; auto; lia).
  rewrite SFsub_finite. set (ez := Z.min ex ey).
  destruct (aligned_bound sx mx ex ez k ltac:(lia) Hx) as [Hx1 Hx2].
  set (X := cond_Zopp sx _) in *.
  assert (HY : 0 < cond_Zopp false (Z.pos (fst (shl_align my ey ez)))) by (cbn; lia).
  set (Y := cond_Zopp false _) in *.
  assert (HX : sx = true -> X < 0) by (intros ->; subst X; cbn; lia).
  destruct (Z_le_gt_dec (X - Y) 0) as [Hle|Hgt].
  - destruct (X - Y) as [|p|p] eqn:E; try lia; cbn [binary_normalize]; [exact I|].
    apply sf_signed_true_below, binary_round_signed.
  - destruct sx; [specialize (HX eq_refl); lia|]. destruct (Hx2 eq_refl).
    apply sf_below_mono with (k + 1); [lia|]. apply binary_normalize_below; lia.
Qed.

Lemma SFmul_finite sx mx ex sy my ey :
  SFmul prec emax (S754_finite sx mx ex) (S754_finite sy my ey) =
  binary_round_aux prec emax (xorb sx sy) (Z.pos (mx * my)) (ex + ey) loc_Exact.
Proof. reflexivity. Qed.

Lemma Zdigits2_mul mx my kx ky :
  Z.pos (digits2_pos mx) <= kx -> Z.pos (digits2_pos my) <= ky ->
  Zdigits2 (Z.pos (mx * my)) <= kx + ky.
Proof.
  intros Hx Hy.
  assert (Z.pos mx < 2 ^ kx) by (apply (Zdigits2_bound (Z.pos mx)); cbn; lia).
  assert (Z.pos my < 2 ^ ky) by (apply (Zdigits2_bound (Z.pos my)); cbn; lia).
  apply Zdigits2_bound; try lia. rewrite Z.pow_add_r, Pos2Z.inj_mul by lia. nia.
Qed.

(** The product of two finite values. *)
Lemma SFmul_mag kx ky x y : sf_mag kx x -> sf_mag ky y -> -1074 <= kx + ky <= 970 ->
  sf_mag (kx + ky + 1) (SFmul prec emax x y).
Proof.
  intros Hx Hy Hk.
  destruct x as [sx|sx| |sx mx ex]; try contradiction;
  destruct y as [sy|sy| |sy my ey]; try contradiction; try exact I.
  rewrite SFmul_finite. unfold sf_mag in Hx, Hy. apply binary_round_aux_mag; try lia.
  pose proof (Zdigits2_mul mx my (kx - ex) (ky - ey) ltac:(lia) ltac:(lia)). lia.
Qed.

(** The product with a positive finite factor. *)
Lemma SFmul_below k ky x my ey : sf_below k x -> Z.pos (digits2_pos my) + ey <= ky ->
  -1074 <= k + ky <= 970 ->
  sf_below (k + ky + 1) (SFmul prec emax x (S754_finite false my ey)).
Proof.
  intros Hx Hy Hk.
  destruct x as [sx|sx| |[|] mx ex]; try contradiction.
  - exact I.
  - cbn in Hx |- *. subst. reflexivity.
  - rewrite SFmul_finite. apply sf_signed_true_below. apply binary_round_aux_signed. lia.
  - apply sf_mag_below. apply (SFmul_mag k ky (S754_finite false mx ex) (S754_finite false my ey)); auto.
Qed.

Lemma SFmul_nan x sy my ey : x <> S754_nan ->
  SFmul prec emax x (S754_finite sy my ey) <> S754_nan.
Proof.
  intros Hx. destruct x as [sx|sx| |sx mx ex]; try congruence; try discriminate.
  rewrite SFmul_finite. eapply sf_signed_nan. apply binary_round_aux_signed. lia.
Qed.

Lemma SFadd_nan x y : x <> S754_nan -> sf_mag 1024 y -> SFadd prec emax x y <> S754_nan.
Proof.
  intros Hx Hy.
  destruct x as [sx|sx| |sx mx ex]; try congruence;
  destruct y as [sy|sy| |sy my ey]; try contradiction; try discriminate.
  - destruct sx, sy; discriminate.
  - rewrite SFadd_finite. apply binary_normalize_nan.
Qed.

Lemma SFdiv_finite_signed sx mx ex sy my ey :
  sf_signed (xorb sx sy)
    (SFdiv prec emax (S754_finite sx mx ex) (S754_finite sy my ey)).
Proof.
  unfold SFdiv, SFdiv_core_binary.
  set (m' := match _ - _ - _ with Z0 => _ | Z.pos _ => _ | Z.neg _ => _ end).
  assert (Hm' : 0 <= m').
  { subst m'. destruct (_ - _ - _); [lia| |lia]. apply Z.shiftl_nonneg. lia. }
  pose proof (Z.div_pos m' (Z.pos my) Hm' ltac:(lia)) as Hq.
  unfold Z.div in Hq. destruct (Z.div_eucl m' (Z.pos my)) as [q r]. cbn [fst] in Hq.
  apply binary_round_aux_signed. assumption.
Qed.

(** Dividing by a positive value gives a Number unless both are infinite
    or the dividend is NaN. *)
Lemma SFdiv_nan x y : sf_mag 1024 x ->
  match y with S754_finite false _ _ | S754_infinity false => True | _ => False end ->
  SFdiv prec emax x y <> S754_nan.
Proof.
  intros Hx Hy.
  destruct x as [sx|sx| |sx mx ex]; try contradiction;
  destruct y as [sy|[|]| |[|] my ey]; try contradiction; try discriminate.
  eapply sf_signed_nan. apply SFdiv_finite_signed.
Qed.

Lemma SFdiv_nonneg mx ex y :
  match y with S754_finite false _ _ | S754_infinity false => True | _ => False end ->
  sf_nonneg (SFdiv prec emax (S754_finite false mx ex) y).
Proof.
  intros Hy. destruct y as [sy|[|]| |[|] my ey]; try contradiction; try exact I.
  pose proof (SFdiv_finite_signed false mx ex false my ey) as H.
  destruct (SFdiv _ _ _ _) as [s|s| |s m e]; cbn in H |- *; subst; auto.
Qed.

Lemma Zdigits2_low m : 0 < m -> 2 ^ (Zdigits2 m - 1) <= m.
Proof.
  intros Hm. pose proof (Zdigits2_pos m Hm) as Hd.
  destruct (Z_lt_le_dec m (2 ^ (Zdigits2 m - 1))) as [H|]; [|assumption].
  apply Zdigits2_bound in H; lia.
Qed.

Lemma Zdigits2_high m : 0 <= m -> m < 2 ^ Zdigits2 m.
Proof. intros Hm. apply Zdigits2_bound; try lia. apply Zdigits2_nonneg. Qed.

(** The mantissa and exponent of a valid finite value. *)
Lemma valid_canonical s m e : valid_binary (S754_finite s m e) = true ->
  -1074 <= e <= 971 /\ Z.pos m < 2 ^ 53 /\ (-1074 < e -> 2 ^ 52 <= Z.pos m).
Proof.
  intros Hv. cbn in Hv. unfold bounded, canonical_mantissa in Hv.
  apply andb_prop in Hv. destruct Hv as [Hc He].
  apply Z.eqb_eq in Hc. apply Z.leb_le in He. rewrite fexp64_eq in Hc.
  unfold fexp64 in Hc. change (emax - prec) with 971 in He.
  pose proof (Zdigits2_high (Z.pos m) ltac:(lia)) as Hh.
  pose proof (Zdigits2_low (Z.pos m) ltac:(lia)) as Hl.
  change (Zdigits2 (Z.pos m)) with (Z.pos (digits2_pos m)) in *.
  split; [lia|]. split.
  - apply Z.lt_le_trans with (1 := Hh). apply Z.pow_le_mono_r; lia.
  - intros Hgt. replace (Z.pos (digits2_pos m)) with 53 in Hl by lia. exact Hl.
Qed.

(** On valid values the order of the keys is the order of the aligned
    mantissas. *)
Lemma aligned_order sx mx ex sy my ey :
  valid_binary (S754_finite sx mx ex) = true ->
  valid_binary (S754_finite sy my ey) = true ->
  let ez := Z.min ex ey in
  lex_lt (key (S754_finite sx mx ex)) (key (S754_finite sy my ey)) <->
  cond_Zopp sx (Z.pos (fst (shl_align mx ex ez))) < cond_Zopp sy (Z.pos (fst (shl_align my ey ez))).
Proof.
  intros Hx Hy ez. apply valid_canonical in Hx, Hy.
  destruct Hx as (Hex & Hmx & Hnx), Hy as (Hey & Hmy & Hny).
  rewrite !shl_align_fst by lia.
  assert (Hpx : 0 < 2 ^ (ex - ez)) by (apply Z.pow_pos_nonneg; lia).
  assert (Hpy : 0 < 2 ^ (ey - ez)) by (apply Z.pow_pos_nonneg; lia).
  assert (Hcmp : (ex < ey -> Z.pos mx * 2 ^ (ex - ez) < Z.pos my * 2 ^ (ey - ez)) /\
                 (ey < ex -> Z.pos my * 2 ^ (ey - ez) < Z.pos mx * 2 ^ (ex - ez)) /\
                 (ex = ey -> 2 ^ (ex - ez) = 1 /\ 2 ^ (ey - ez) = 1)).
  { repeat split.
    - intros Hlt. replace (ex - ez) with 0 by lia. rewrite Z.pow_0_r, Z.mul_1_r.
      assert (2 ^ 1 <= 2 ^ (ey - ez)) by (apply Z.pow_le_mono_r; lia).
      change (2 ^ 1) with 2 in H. specialize (Hny ltac:(lia)).
      change (2 ^ 53) with (2 * 2 ^ 52) in Hmx. nia.
    - intros Hlt. replace (ey - ez) with 0 by lia. rewrite Z.pow_0_r, Z.mul_1_r.
      assert (2 ^ 1 <= 2 ^ (ex - ez)) by (apply Z.pow_le_mono_r; lia).
      change (2 ^ 1) with 2 in H. specialize (Hnx ltac:(lia)).
      change (2 ^ 53) with (2 * 2 ^ 52) in Hmy. nia.
    - replace (ex - ez) with 0 by lia. reflexivity.
    - replace (ey - ez) with 0 by lia. reflexivity. }
  destruct Hcmp as (H1 & H2 & H3).
  destruct sx, sy; cbn [key lex_lt cond_Zopp].
  - destruct (Z.lt_trichotomy ex ey) as [H|[H|H]].
    + specialize (H1 H). split; intros; lia.
    + destruct (H3 H) as [-> ->]. split; intros; lia.
    + specialize (H2 H). split; intros; lia.
  - split; intros; nia.
  - split; intros; nia.
  - destruct (Z.lt_trichotomy ex ey) as [H|[H|H]].
    + specialize (H1 H). split; intros; lia.
    + destruct (H3 H) as [-> ->]. split; intros; lia.
    + specialize (H2 H). split; intros; lia.
Qed.

Lemma SFltb_zero_normalize M e : -1074 <= e ->
  SFltb (S754_zero false) (binary_normalize prec emax M e false) = true <-> 0 < M.
Proof.
  intros He. destruct M as [|m|m]; cbn [binary_normalize].
  - cbn. split; [discriminate|lia].
  - pose proof (binary_round_nonzero false m e He) as H.
    destruct (binary_round prec emax false m e) as [s|s| |s m' e']; try contradiction; subst; cbn;
      split; intros; try reflexivity; lia.
  - pose proof (binary_round_signed true m e) as H.
    destruct (binary_round prec emax true m e) as [s|s| |s m' e']; cbn in H; try contradiction; subst; cbn;
      split; intros; try discriminate; lia.
Qed.

(** The sign of a difference decides the order: subtraction neither
    underflows to zero nor turns a strict order around. *)
Lemma SFsub_pos x y : valid_binary x = true -> valid_binary y = true ->
  SFltb (S754_zero false) (SFsub prec emax y x) = SFltb x y.
Proof.
  intros Hx Hy.
  destruct x as [sx|sx| |sx mx ex], y as [sy|sy| |sy my ey];
    try (destruct sx; try destruct sy; reflexivity); try (destruct sy; reflexivity);
    try reflexivity.
  rewrite SFsub_finite.
  pose proof (aligned_order sx mx ex sy my ey Hx Hy) as Ho. cbv zeta in Ho.
  replace (Z.min ey ex) with (Z.min ex ey) by lia.
  set (X := cond_Zopp sx _) in *. set (Y := cond_Zopp sy _) in *.
  assert (He : -1074 <= Z.min ex ey).
  { apply valid_canonical in Hx, Hy. lia. }
  pose proof (SFltb_zero_normalize (Y - X) (Z.min ex ey) He) as Hn.
  assert (Hl : SFltb (S754_finite sx mx ex) (S754_finite sy my ey) = true <-> X < Y).
  { rewrite <- Ho. unfold SFltb.
    destruct (SFcompare (S754_finite sx mx ex) (S754_finite sy my ey)) as [[| |]|] eqn:E.
    - apply SFcompare_eq in E. destruct E as (_ & _ & E). split; [discriminate|].
      intros H. rewrite E in H. now apply lex_lt_refl in H.
    - apply SFcompare_lt in E. tauto.
    - apply SFcompare_gt in E. destruct E as (_ & _ & E). split; [discriminate|].
      intros H. exfalso. eapply lex_lt_irrefl; [exact H|]. apply lex_le_iff. auto.
    - apply SFcompare_nan in E. destruct E; discriminate. }
  apply Bool.eq_true_iff_eq. rewrite Hn, Hl. lia.
Qed.

Lemma Zdigits2_eq m d : 0 < d -> 2 ^ (d - 1) <= m < 2 ^ d -> Zdigits2 m = d.
Proof.
  intros Hd [Hl Hh]. assert (0 < 2 ^ (d - 1)) by (apply Z.pow_pos_nonneg; lia).
  apply Z.le_antisymm.
  - apply Zdigits2_bound; lia.
  - destruct (Z_le_gt_dec d (Zdigits2 m)) as [|Hgt]; [assumption|exfalso].
    assert (Hb : Zdigits2 m <= d - 1) by lia. apply Zdigits2_bound in Hb; lia.
Qed.

(** Rounding a product of two 53-bit mantissas: [d] is its width. *)
Lemma binary_round_aux_product s P E d : 105 <= d <= 106 -> 2 ^ (d - 1) <= P < 2 ^ d ->
  -200 <= E <= 200 ->
  exists m2 e2, binary_round_aux prec emax s P E loc_Exact = S754_finite s (Z.to_pos m2) e2 /\
    0 < m2 /\
    ((e2 = E + d - 53 /\ P / 2 ^ (d - 53) <= m2 <= P / 2 ^ (d - 53) + 1 /\ m2 < 2 ^ 53) \/
     (e2 = E + d - 52 /\ m2 = 2 ^ 52 /\ P / 2 ^ (d - 53) = 2 ^ 53 - 1)).
Proof.
  intros Hd HP HE. assert (H0 : 0 < 2 ^ (d - 1)) by (apply Z.pow_pos_nonneg; lia).
  destruct (binary_round_aux_spec s P E loc_Exact ltac:(lia)) as (m1 & Hm1 & _ & ->).
  rewrite (Zdigits2_eq P d) in * by lia.
  replace (Z.max E (fexp64 (d + E))) with (E + (d - 53)) in * by (unfold fexp64; lia).
  replace (E + (d - 53) - E) with (d - 53) in * by lia.
  assert (Hm' : 2 ^ 52 <= P / 2 ^ (d - 53) < 2 ^ 53).
  { assert (0 < 2 ^ (d - 53)) by (apply Z.pow_pos_nonneg; lia). split.
    - apply Z.div_le_lower_bound; [assumption|]. rewrite <- Z.pow_add_r by lia.
      replace (d - 53 + 52) with (d - 1) by lia. lia.
    - apply Z.div_lt_upper_bound; [assumption|]. rewrite <- Z.pow_add_r by lia.
      replace (d - 53 + 53) with d by lia. lia. }
  destruct (Z_lt_le_dec m1 (2 ^ 53)) as [Hlt|Hge].
  - rewrite (Zdigits2_eq m1 53) by (change (2 ^ (53 - 1)) with (2 ^ 52); lia).
    replace (Z.max (E + (d - 53)) (fexp64 (53 + (E + (d - 53))))) with (E + (d - 53))
      by (unfold fexp64; lia).
    rewrite Z.sub_diag, Z.div_1_r. exists m1, (E + (d - 53)).
    destruct m1 as [|p|p]; try lia.
    replace (E + (d - 53) <=? emax - prec) with true
      by (symmetry; apply Z.leb_le; change (emax - prec) with 971; lia).
    split; [reflexivity|]. split; [lia|]. left. lia.
  - assert (m1 = 2 ^ 53) by lia. subst m1.
    rewrite (Zdigits2_eq (2 ^ 53) 54) by (cbn; lia).
    replace (Z.max (E + (d - 53)) (fexp64 (54 + (E + (d - 53))))) with (E + (d - 53) + 1)
      by (unfold fexp64; lia).
    replace (E + (d - 53) + 1 - (E + (d - 53))) with 1 by lia.
    change (2 ^ 53 / 2 ^ 1) with (Z.pos (Z.to_pos (2 ^ 52))). cbv iota.
    replace (E + (d - 53) + 1 <=? emax - prec) with true
      by (symmetry; apply Z.leb_le; change (emax - prec) with 971; lia).
    exists (2 ^ 52), (E + (d - 53) + 1). split; [reflexivity|]. split; [lia|]. right. lia.
Qed.

Lemma product_width m mc : 2 ^ 52 <= m < 2 ^ 53 -> 2 ^ 52 <= mc < 2 ^ 53 ->
  exists d, 105 <= d <= 106 /\ 2 ^ (d - 1) <= m * mc < 2 ^ d.
Proof.
  intros Hm Hc. destruct (Z_lt_le_dec (m * mc) (2 ^ 105)).
  - exists 105. change (2 ^ (105 - 1)) with (2 ^ 52 * 2 ^ 52). split; [lia|nia].
  - exists 106. change (2 ^ (106 - 1)) with (2 ^ 105).
    change (2 ^ 106) with (2 ^ 53 * 2 ^ 53). split; [lia|nia].
Qed.

Lemma div_pow2_bounds P n : 0 <= n -> 2 ^ n * (P / 2 ^ n) <= P < 2 ^ n * (P / 2 ^ n + 1).
Proof.
  intros Hn. assert (0 < 2 ^ n) by (apply Z.pow_pos_nonneg; lia). split.
  - apply Z.mul_div_le; assumption.
  - replace (P / 2 ^ n + 1) with (Z.succ (P / 2 ^ n)) by lia. apply Z.mul_succ_div_gt; assumption.
Qed.

(** A value in [1,10] times 0.8 is strictly smaller, times 1.2 strictly
    larger. *)
Lemma SFmul_shrinks m e : 2 ^ 52 <= Z.pos m < 2 ^ 53 -> -52 <= e <= -49 ->
  lex_lt (key (SFmul prec emax (S754_finite false m e) (S754_finite false 7205759403792794 (-53))))
         (key (S754_finite false m e)).
Proof.
  intros Hm He. rewrite SFmul_finite. cbn [xorb].
  destruct (product_width (Z.pos m) 7205759403792794 Hm ltac:(cbn; lia)) as (d & Hd & HP).
  rewrite Pos2Z.inj_mul.
  destruct (binary_round_aux_product false (Z.pos m * 7205759403792794) (e + -53) d Hd HP ltac:(lia))
    as (m2 & e2 & -> & Hm2 & Hcases).
  cbn [key lex_lt]. rewrite Z2Pos.id by assumption.
  pose proof (div_pow2_bounds (Z.pos m * 7205759403792794) (d - 53) ltac:(lia)) as Hdiv.
  assert (d = 105 \/ d = 106) as [-> | ->] by lia;
    change (2 ^ (105 - 53)) with 4503599627370496 in *;
    change (2 ^ (106 - 53)) with 9007199254740992 in *;
    change (2 ^ 52) with 4503599627370496 in *;
    change (2 ^ 53) with 9007199254740992 in *;
    change (2 ^ (105 - 1)) with 20282409603651670423947251286016 in *;
    change (2 ^ 105) with 40564819207303340847894502572032 in *;
    change (2 ^ (106 - 1)) with 40564819207303340847894502572032 in *;
    change (2 ^ 106) with 81129638414606681695789005144064 in *;
    lia.
Qed.

Lemma SFmul_grows m e : 2 ^ 52 <= Z.pos m < 2 ^ 53 -> -52 <= e <= -49 ->
  lex_lt (key (S754_finite false m e))
         (key (SFmul prec emax (S754_finite false m e) (S754_finite false 5404319552844595 (-52)))).
Proof.
  intros Hm He. rewrite SFmul_finite. cbn [xorb].
  destruct (product_width (Z.pos m) 5404319552844595 Hm ltac:(cbn; lia)) as (d & Hd & HP).
  rewrite Pos2Z.inj_mul.
  destruct (binary_round_aux_product false (Z.pos m * 5404319552844595) (e + -52) d Hd HP ltac:(lia))
    as (m2 & e2 & -> & Hm2 & Hcases).
  cbn [key lex_lt]. rewrite Z2Pos.id by assumption.
  pose proof (div_pow2_bounds (Z.pos m * 5404319552844595) (d - 53) ltac:(lia)) as Hdiv.
  assert (d = 105 \/ d = 106) as [-> | ->] by lia;
    change (2 ^ (105 - 53)) with 4503599627370496 in *;
    change (2 ^ (106 - 53)) with 9007199254740992 in *;
    change (2 ^ 52) with 4503599627370496 in *;
    change (2 ^ 53) with 9007199254740992 in *;
    change (2 ^ (105 - 1)) with 20282409603651670423947251286016 in *;
    change (2 ^ 105) with 40564819207303340847894502572032 in *;
    change (2 ^ (106 - 1)) with 40564819207303340847894502572032 in *;
    change (2 ^ 106) with 81129638414606681695789005144064 in *;
    lia.
Qed.

(** *** Exact results *)

(** A mantissa of 54 digits whose last digit is 0 loses that digit and nothing else. *)
Lemma binary_round_aux_even s m E : Z.pos (digits2_pos m) = 53 -> -1075 <= E <= 970 ->
  binary_round_aux prec emax s (Z.pos m~0) E loc_Exact = S754_finite s m (E + 1).
Proof.
  intros Hd HE. unfold binary_round_aux, shr_fexp.
  cbn [Zdigits2 digits2_pos]. rewrite Pos2Z.inj_succ, Hd, fexp64_eq.
  replace (fexp64 (Z.succ 53 + E) - E) with 1 by (unfold fexp64; lia).
  cbn [shr shr_record_of_loc iter_pos shr_1 shr_m shr_r shr_s loc_of_shr_record round_nearest_even fst snd orb].
  cbn [Zdigits2]. rewrite Hd, fexp64_eq.
  replace (fexp64 (53 + (E + 1)) - (E + 1)) with 0 by (unfold fexp64; lia).
  cbn [shr shr_record_of_loc shr_m]. 
  replace (E + 1 <=? emax - prec) with true by (symmetry; apply Z.leb_le; change (emax - prec) with 971; lia).
  reflexivity.
Qed.

(** The exponent of a valid finite value is the one its width asks for. *)
Lemma valid_digits s m e : valid_binary (S754_finite s m e) = true ->
  e = fexp64 (Z.pos (digits2_pos m) + e) /\ e <= 971.
Proof.
  intros Hv. cbn in Hv. unfold bounded, canonical_mantissa in Hv.
  apply andb_prop in Hv. destruct Hv as [Hc He].
  apply Z.eqb_eq in Hc. apply Z.leb_le in He. rewrite fexp64_eq in Hc.
  change (emax - prec) with 971 in He. split; [symmetry; exact Hc | exact He].
Qed.

(** Dividing by 1 changes nothing. *)
Lemma SFdiv_one x : valid_binary x = true ->
  SFdiv prec emax x (S754_finite false 4503599627370496 (-52)) = x.
Proof.
  destruct x as [s|s| |s m e]; intros Hv; try reflexivity.
  - destruct s; reflexivity.
  - destruct s; reflexivity.
  - destruct (valid_digits s m e Hv) as (He & Hemax).
    pose proof (Zdigits2_pos (Z.pos m) ltac:(lia)) as Hd0.
    cbn [Zdigits2] in Hd0.
    unfold SFdiv, SFdiv_core_binary. cbn [Zdigits2]. rewrite fexp64_eq.
    change (Z.pos (digits2_pos 4503599627370496)) with 53.
    rewrite xorb_false_r.
    destruct (Z.eq_dec e (-1074)) as [->|Hn].
    + assert (Hd : Z.pos (digits2_pos m) <= 53) by (unfold fexp64 in He; lia).
      replace (Z.min (fexp64 (Z.pos (digits2_pos m) + -1074 - (53 + -52))) (-1074 - -52)) with (-1074)
        by (unfold fexp64 in *; lia).
      change (-1074 - -52 - -1074) with 52.
      cbn [Z.ltb Z.compare]. 
      rewrite Z.shiftl_mul_pow2 by lia.
      assert (Hq : Z.div_eucl (Z.pos m * 2 ^ 52) 4503599627370496 = (Z.pos m, 0)).
      { pose proof (Z.div_eucl_eq (Z.pos m * 2 ^ 52) 4503599627370496 ltac:(lia)) as Heq.
        pose proof (Z.mod_pos_bound (Z.pos m * 2 ^ 52) 4503599627370496 ltac:(lia)) as Hb.
        unfold Z.modulo in Hb.
        destruct (Z.div_eucl (Z.pos m * 2 ^ 52) 4503599627370496) as [q r].
        change (2 ^ 52) with 4503599627370496 in *. f_equal; nia. }
      rewrite Hq.
      change (new_location 4503599627370496 0) with loc_Exact.
      destruct (binary_round_aux_spec s (Z.pos m) (-1074) loc_Exact ltac:(lia)) as (m1 & _ & Hex & Hr).
      cbv zeta in *.
      assert (He1 : Z.max (-1074) (fexp64 (Zdigits2 (Z.pos m) + -1074)) = -1074) by (cbn [Zdigits2]; unfold fexp64; lia).
      rewrite He1 in *. rewrite (Hex eq_refl eq_refl) in Hr.
      rewrite Hr, He1, Z.sub_diag, Z.div_1_r. reflexivity.
    + assert (Hd : Z.pos (digits2_pos m) = 53) by (unfold fexp64 in He; lia).
      rewrite Hd.
      replace (Z.min (fexp64 (53 + e - (53 + -52))) (e - -52)) with (e - 1) by (unfold fexp64 in *; lia).
      replace (e - -52 - (e - 1)) with 53 by lia.
      cbn [Z.ltb Z.compare].
      rewrite Z.shiftl_mul_pow2 by lia.
      assert (Hq : Z.div_eucl (Z.pos m * 2 ^ 53) 4503599627370496 = (Z.pos m~0, 0)).
      { pose proof (Z.div_eucl_eq (Z.pos m * 2 ^ 53) 4503599627370496 ltac:(lia)) as Heq.
        pose proof (Z.mod_pos_bound (Z.pos m * 2 ^ 53) 4503599627370496 ltac:(lia)) as Hb.
        unfold Z.modulo in Hb.
        destruct (Z.div_eucl (Z.pos m * 2 ^ 53) 4503599627370496) as [q r].
        change (2 ^ 53) with (2 * 4503599627370496) in *.
        change (Z.pos m~0) with (2 * Z.pos m). f_equal; nia. }
      rewrite Hq.
      change (new_location 4503599627370496 0) with loc_Exact.
      rewrite binary_round_aux_even by (unfold fexp64 in *; lia). f_equal. lia.
Qed.

(** A finite value minus itself is [+0]. *)
Lemma SFsub_diag x : sf_mag 1024 x -> SFsub prec emax x x = S754_zero false.
Proof.
  destruct x as [s|s| |s m e]; cbn [sf_mag]; intros H; try contradiction.
  - destruct s; reflexivity.
  - rewrite SFsub_finite, Z.sub_diag. reflexivity.
Qed.

(** *** Rounding to nearest *)

(** The round bit after a shift is the last digit shifted out. *)
Lemma shr_1_r r : 0 <= shr_m r -> shr_r (shr_1 r) = Z.odd (shr_m r).
Proof. destruct r as [m rb sb]. cbn. destruct m as [|[p|p|]|p]; cbn; intros H; try reflexivity; lia. Qed.

Lemma iter_shr_1_r p : forall r, 0 <= shr_m r ->
  shr_r (iter_pos shr_1 p r) = Z.testbit (shr_m r) (Z.pos p - 1).
Proof.
  induction p as [p IH|p IH|]; intros r Hr; cbn [iter_pos].
  - assert (H1 : 0 <= shr_m (shr_1 r)) by (rewrite shr_1_m by assumption; apply Z.div_pos; lia).
    assert (H2 : 0 <= shr_m (iter_pos shr_1 p (shr_1 r)))
      by (rewrite iter_shr_1_m by assumption; apply Z.div_pos; [assumption | apply Z.pow_pos_nonneg; lia]).
    rewrite IH by assumption. rewrite iter_shr_1_m by assumption. rewrite shr_1_m by assumption.
    rewrite Z.div_pow2_bits by lia.
    change 2 with (2 ^ 1) at 1. rewrite Z.div_pow2_bits by lia. f_equal. lia.
  - assert (H2 : 0 <= shr_m (iter_pos shr_1 p r))
      by (rewrite iter_shr_1_m by assumption; apply Z.div_pos; [assumption | apply Z.pow_pos_nonneg; lia]).
    rewrite IH by assumption. rewrite iter_shr_1_m by assumption.
    rewrite Z.div_pow2_bits by lia. f_equal. lia.
  - rewrite shr_1_r by assumption. symmetry. apply Z.bit0_odd.
Qed.

(** When the last digit shifted out is 0 the mantissa is cut, not moved up. *)
Lemma binary_round_aux_down s M E : 0 <= M ->
  let e1 := Z.max E (fexp64 (Zdigits2 M + E)) in
  E < e1 -> Z.testbit M (e1 - E - 1) = false ->
  let m1 := M / 2 ^ (e1 - E) in
  let e2 := Z.max e1 (fexp64 (Zdigits2 m1 + e1)) in
  binary_round_aux prec emax s M E loc_Exact =
    match m1 / 2 ^ (e2 - e1) with
    | Z0 => S754_zero s
    | Z.pos m => if e2 <=? emax - prec then S754_finite s m e2 else S754_infinity s
    | Z.neg _ => S754_nan
    end.
Proof.
  intros HM e1 He1 Hbit m1 e2. unfold binary_round_aux.
  assert (Hs : exists r, shr_fexp prec emax M E loc_Exact = (r, e1) /\
                 round_nearest_even (shr_m r) (loc_of_shr_record r) = m1).
  { unfold shr_fexp, shr. rewrite fexp64_eq.
    destruct (fexp64 (Zdigits2 M + E) - E) as [|p|p] eqn:En; try (unfold e1 in He1; lia).
    assert (Hp : e1 - E = Z.pos p) by (unfold e1; lia).
    eexists. split; [f_equal; lia|].
    set (r := iter_pos shr_1 p (shr_record_of_loc M loc_Exact)).
    assert (Hm : shr_m r = m1).
    { unfold r, m1. rewrite iter_shr_1_m by (cbn; assumption). rewrite Hp. reflexivity. }
    assert (Hr : shr_r r = false).
    { unfold r. rewrite iter_shr_1_r by (cbn; assumption). cbn [shr_m shr_record_of_loc].
      rewrite <- Hbit. f_equal. lia. }
    rewrite Hm. destruct r as [m rb sb]. cbn in Hr. subst rb. destruct sb; reflexivity. }
  destruct Hs as (r & -> & ->).
  assert (H0 : 0 <= m1) by (apply Z.div_pos; [assumption | apply Z.pow_pos_nonneg; lia]).
  destruct (shr_fexp_spec m1 e1 loc_Exact H0) as (r2 & Hr2 & Hm2 & _). fold e2 in Hr2, Hm2.
  rewrite Hr2, Hm2. reflexivity.
Qed.

(** The product with the largest value below 1, [1 - 2^-53]. *)
Lemma SFmul_pred_one m e : 2 ^ 52 <= Z.pos m < 2 ^ 53 -> -1000 <= e <= 900 ->
  key (SFmul prec emax (S754_finite false m e) (S754_finite false 9007199254740991 (-53)))
  <> key (S754_finite false m e).
Proof.
  intros Hm He. rewrite SFmul_finite. cbn [xorb]. rewrite Pos2Z.inj_mul.
  set (P := Z.pos m * 9007199254740991).
  change (2 ^ 52) with 4503599627370496 in Hm. change (2 ^ 53) with 9007199254740992 in Hm.
  destruct (Z.eq_dec (Z.pos m) 4503599627370496) as [Heq|Hne].
  - assert (HP : P = 4503599627370496 * 9007199254740991) by (unfold P; rewrite Heq; reflexivity).
    assert (Hd : Zdigits2 P = 105) by (rewrite HP; reflexivity).
    pose proof (binary_round_aux_down false P (e + -53) ltac:(lia)) as Hdown.
    cbv zeta in Hdown. rewrite Hd in Hdown.
    replace (Z.max (e + -53) (fexp64 (105 + (e + -53)))) with (e - 1) in Hdown by (unfold fexp64; lia).
    replace (e - 1 - (e + -53)) with 52 in Hdown by lia.
    replace (e - 1 - (e + -53) - 1) with 51 in Hdown by lia.
    assert (Hq : P / 2 ^ 52 = 9007199254740991) by (rewrite HP; reflexivity).
    rewrite Hq in Hdown.
    change (Zdigits2 9007199254740991) with 53 in Hdown.
    replace (Z.max (e - 1) (fexp64 (53 + (e - 1)))) with (e - 1) in Hdown by (unfold fexp64; lia).
    rewrite Z.sub_diag in Hdown. change (9007199254740991 / 2 ^ 0) with 9007199254740991 in Hdown.
    replace (e - 1 <=? emax - prec) with true in Hdown
      by (symmetry; apply Z.leb_le; change (emax - prec) with 971; lia).
    rewrite Hdown; [|lia|rewrite HP; reflexivity].
    cbn [key]. intros H. inversion H. lia.
  - assert (HP : 2 ^ 105 <= P < 2 ^ 106).
    { unfold P. change (2 ^ 105) with 40564819207303340847894502572032.
      change (2 ^ 106) with 81129638414606681695789005144064. lia. }
    assert (Hd : Zdigits2 P = 106) by (apply Zdigits2_eq; [lia | exact HP]).
    pose proof (binary_round_aux_down false P (e + -53) ltac:(lia)) as Hdown.
    cbv zeta in Hdown. rewrite Hd in Hdown.
    replace (Z.max (e + -53) (fexp64 (106 + (e + -53)))) with e in Hdown by (unfold fexp64; lia).
    replace (e - (e + -53)) with 53 in Hdown by lia.
    replace (e - (e + -53) - 1) with 52 in Hdown by lia.
    assert (Hq : P / 2 ^ 53 = Z.pos m - 1).
    { symmetry. apply Z.div_unique with (9007199254740992 - Z.pos m);
        change (2 ^ 53) with 9007199254740992; unfold P; lia. }
    assert (Hbit : Z.testbit P 52 = false).
    { apply Z.testbit_false; [lia|].
      assert (Hq' : P / 2 ^ 52 = 2 * (Z.pos m - 1)).
      { symmetry. apply Z.div_unique with (9007199254740992 - Z.pos m);
          change (2 ^ 52) with 4503599627370496; unfold P; lia. }
      rewrite Hq', Z.mul_comm. apply Z.mod_mul. lia. }
    rewrite Hq in Hdown.
    rewrite (Zdigits2_eq (Z.pos m - 1) 53) in Hdown
      by (change (2 ^ (53 - 1)) with 4503599627370496; change (2 ^ 53) with 9007199254740992; lia).
    replace (Z.max e (fexp64 (53 + e))) with e in Hdown by (unfold fexp64; lia).
    rewrite Z.sub_diag, Z.div_1_r in Hdown.
    replace (e <=? emax - prec) with true in Hdown
      by (symmetry; apply Z.leb_le; change (emax - prec) with 971; lia).
    rewrite Hdown; [|lia|exact Hbit].
    destruct (Z.pos m - 1) as [|q|q] eqn:Eq; try lia.
    cbn [key]. intros H. inversion H. lia.
Qed.

(** A wide mantissa keeps at least the exponent its width asks for. *)
Lemma binary_round_aux_exponent s P E l d : Zdigits2 P = d -> 53 <= d -> -1074 <= E -> 1 <= P ->
  match binary_round_aux prec emax s P E l with
  | S754_finite _ _ e2 => E + d - 53 <= e2
  | S754_infinity _ => True
  | _ => False
  end.
Proof.
  intros Hd Hd53 HE HP.
  destruct (binary_round_aux_spec s P E l ltac:(lia)) as (m1 & Hm1 & _ & ->).
  pose proof (shift_nonzero P E HP HE) as H1. rewrite Hd in *.
  set (e1 := Z.max E (fexp64 (d + E))) in *.
  assert (He1 : e1 = E + d - 53) by (unfold e1, fexp64; lia).
  assert (Hm : 1 <= m1) by lia.
  pose proof (shift_nonzero m1 e1 Hm ltac:(lia)) as H2.
  set (e2 := Z.max e1 (fexp64 (Zdigits2 m1 + e1))) in *.
  destruct (m1 / 2 ^ (e2 - e1)); [lia| |lia].
  destruct (e2 <=? emax - prec); [lia|exact I].
Qed.

(** The finite factors. *)
Lemma SFmul_moves_finite m e sy my ey : 2 ^ 52 <= Z.pos m < 2 ^ 53 -> -52 <= e <= -49 ->
  valid_binary (S754_finite sy my ey) = true ->
  key (S754_finite sy my ey) <> key (S754_finite false 4503599627370496 (-52)) ->
  key (SFmul prec emax (S754_finite false m e) (S754_finite sy my ey)) <> key (S754_finite false m e).
Proof.
  intros Hm He Hv Hy.
  assert (Hdm : Z.pos (digits2_pos m) = 53) by (apply (Zdigits2_eq (Z.pos m) 53); [lia | exact Hm]).
  destruct sy.
  { rewrite SFmul_finite.
    pose proof (binary_round_aux_signed true (Z.pos (m * my)) (e + ey) loc_Exact ltac:(lia)) as Hs.
    cbn [xorb]. destruct (binary_round_aux _ _ _ _ _ _) as [s2|s2| |s2 m2 e2]; cbn in Hs; subst;
      try contradiction; cbn; discriminate. }
  assert (Hcase : (Z.pos my = 9007199254740991 /\ ey = -53) \/
                  ~ (Z.pos my = 9007199254740991 /\ ey = -53)) by lia.
  destruct Hcase as [[Hpred ->]|Hnp].
  { injection Hpred as ->. apply SFmul_pred_one; [exact Hm | lia]. }
  rewrite SFmul_finite. cbn [xorb].
  destruct (valid_digits false my ey Hv) as (Hey & Hemax).
  set (dy := Z.pos (digits2_pos my)) in *.
  assert (Hdy : 0 < dy) by (unfold dy; lia).
  destruct (Z_le_gt_dec (dy + ey) (-2)) as [Hsmall|Hbig].
  { pose proof (Zdigits2_mul m my 53 dy ltac:(lia) ltac:(unfold dy; lia)) as Hw.
    pose proof (binary_round_aux_mag false (Z.pos (m * my)) (e + ey) loc_Exact (51 + e)
                  ltac:(lia) ltac:(lia) ltac:(lia)) as Hmag.
    destruct (binary_round_aux _ _ _ _ _ _) as [s2|s2| |s2 m2 e2]; cbn [sf_mag] in Hmag;
      try contradiction; try (cbn; discriminate).
    destruct s2; cbn [key]; [discriminate|]. intros H. inversion H; subst. lia. }
  assert (Hnormal : dy = 53) by (unfold fexp64 in Hey; lia).
  assert (Hmy : 2 ^ 52 <= Z.pos my < 2 ^ 53).
  { pose proof (Zdigits2_low (Z.pos my) ltac:(lia)) as Hl.
    pose proof (Zdigits2_high (Z.pos my) ltac:(lia)) as Hh.
    change (Zdigits2 (Z.pos my)) with dy in Hl, Hh. rewrite Hnormal in Hl, Hh. exact (conj Hl Hh). }
  destruct (product_width (Z.pos m) (Z.pos my) Hm Hmy) as (d & Hd & HP).
  rewrite Pos2Z.inj_mul.
  destruct (Z_le_gt_dec (-51) ey) as [Hup|Hnear].
  { pose proof (binary_round_aux_exponent false (Z.pos m * Z.pos my) (e + ey) loc_Exact d
                  (Zdigits2_eq _ d ltac:(lia) HP) ltac:(lia) ltac:(lia)) as Hexp.
    assert (H1 : 1 <= Z.pos m * Z.pos my) by lia. specialize (Hexp H1).
    destruct (binary_round_aux _ _ _ _ _ _) as [s2|s2| |s2 m2 e2]; try contradiction.
    - destruct s2; cbn; discriminate.
    - destruct s2; cbn [key]; [discriminate|]. intros H. inversion H; subst. lia. }
  destruct (binary_round_aux_product false (Z.pos m * Z.pos my) (e + ey) d Hd HP ltac:(lia))
    as (m2 & e2 & -> & Hm2 & Hcases).
  cbn [key]. rewrite Z2Pos.id by assumption.
  pose proof (div_pow2_bounds (Z.pos m * Z.pos my) (d - 53) ltac:(lia)) as Hdiv.
  intros Hk. inversion Hk. subst e2 m2. clear Hk.
  assert (Hne1 : ~ (Z.pos my = 4503599627370496 /\ ey = -52))
    by (intros [H1 H2]; apply Hy; cbn [key]; rewrite H1, H2; reflexivity).
  change (2 ^ 52) with 4503599627370496 in *.
  change (2 ^ 53) with 9007199254740992 in *.
  assert (d = 105 \/ d = 106) as [-> | ->] by lia;
    change (2 ^ (105 - 53)) with 4503599627370496 in *;
    change (2 ^ (106 - 53)) with 9007199254740992 in *;
    change (2 ^ (105 - 1)) with 20282409603651670423947251286016 in *;
    change (2 ^ 105) with 40564819207303340847894502572032 in *;
    change (2 ^ (106 - 1)) with 40564819207303340847894502572032 in *;
    change (2 ^ 106) with 81129638414606681695789005144064 in *;
    nia.
Qed.

(** A score in [1,10] times any factor other than 1 is another value. *)
Lemma SFmul_moves m e y : 2 ^ 52 <= Z.pos m < 2 ^ 53 -> -52 <= e <= -49 ->
  valid_binary y = true -> key y <> key (S754_finite false 4503599627370496 (-52)) ->
  key (SFmul prec emax (S754_finite false m e) y) <> key (S754_finite false m e).
Proof.
  intros Hm He Hv Hy.
  destruct y as [sy|sy| |sy my ey].
  - destruct sy; cbn; discriminate.
  - destruct sy; cbn; discriminate.
  - cbn; discriminate.
  - apply SFmul_moves_finite; assumption.
Qed.

End Rounding.

(** ** The primitive operations *)

Ltac shapes := cbn [key lex_le lex_lt sf_below sf_mag sf_nonneg sf_posdiv sf_signed] in *.

Lemma Prim2SF_digits x s m e : Prim2SF x = S754_finite s m e ->
  (Z.pos (digits2_pos m) <= 53 /\ -1074 <= e <= 971)%Z.
Proof.
  intros H. pose proof (Prim2SF_valid x) as Hv. rewrite H in Hv.
  cbn in Hv. unfold bounded, canonical_mantissa in Hv.
  apply andb_prop in Hv. destruct Hv as [Hc He].
  apply Z.eqb_eq in Hc. apply Z.leb_le in He. rewrite fexp64_eq in Hc.
  unfold fexp64 in Hc. change (emax - prec)%Z with 971%Z in He. lia.
Qed.

Lemma below_number k x : below k x -> is_nan x = false.
Proof. intros H. apply is_nan_false_iff. eapply sf_below_nan; eassumption. Qed.

Lemma mag_number k x : mag k x -> is_nan x = false.
Proof. intros H. apply is_nan_false_iff. eapply sf_mag_nan; eassumption. Qed.

Lemma mag_below k x : mag k x -> below k x.
Proof. apply sf_mag_below. Qed.

Lemma below_mono k k' x : (k <= k')%Z -> below k x -> below k' x.
Proof. apply sf_below_mono. Qed.

Lemma mag_mono k k' x : (k <= k')%Z -> mag k x -> mag k' x.
Proof. apply sf_mag_mono. Qed.

Lemma below_nonneg_mag k x : below k x -> nonneg x -> mag k x.
Proof.
  unfold below, nonneg, mag. destruct (Prim2SF x) as [s|[|]| |[|] m e]; shapes; auto; try contradiction.
  discriminate.
Qed.

(** ** From comparisons to shapes *)

Lemma leb_below x c mc ec : Prim2SF c = S754_finite false mc ec ->
  is_nan x = false -> (c <? x) = false -> below (53 + ec) x.
Proof.
  intros Hc Hx H. apply ltb_false_iff in H. destruct H as [H|[H|H]].
  - apply is_nan_true_iff in H. congruence.
  - congruence.
  - unfold below. apply is_nan_false_iff in Hx. unfold fkey in H. rewrite Hc in H.
    destruct (Prim2SF x) as [s|[|]| |[|] m e] eqn:E; shapes; auto; try lia; try congruence.
    destruct (Prim2SF_digits x _ _ _ E). lia.
Qed.

Lemma leb_true_below x c mc ec : Prim2SF c = S754_finite false mc ec ->
  (x <=? c) = true -> below (53 + ec) x.
Proof.
  intros Hc H. apply leb_true_iff in H. destruct H as (Hx & Hcn & H).
  apply (leb_below x c mc ec Hc Hx). apply ltb_false_iff. auto.
Qed.

Lemma leb_zero_nonneg x : (0 <=? x) = true -> nonneg x.
Proof.
  intros H. apply leb_true_iff in H. destruct H as (_ & Hx & H). apply is_nan_false_iff in Hx.
  unfold nonneg. unfold fkey in H. change (Prim2SF 0) with (S754_zero false) in H.
  destruct (Prim2SF x) as [s|[|]| |[|] m e]; shapes; auto; try lia; congruence.
Qed.

Lemma ltb_zero_posdiv x : (0 <? x) = true -> sf_posdiv (Prim2SF x).
Proof.
  intros H. apply ltb_true_iff in H. destruct H as (_ & Hx & H). apply is_nan_false_iff in Hx.
  unfold fkey in H. change (Prim2SF 0) with (S754_zero false) in H.
  destruct (Prim2SF x) as [s|[|]| |[|] m e]; shapes; auto; try lia; congruence.
Qed.

(** ** Arithmetic on shapes *)

Lemma add_below k x y : below k x -> below k y -> (-1074 <= k <= 968)%Z -> below (k + 2) (x + y).
Proof. unfold below. rewrite add_spec. apply SFadd_below. Qed.

Lemma sub_below k x y : below k x -> nonneg y -> (-1074 <= k <= 968)%Z -> below (k + 2) (x - y).
Proof. unfold below, nonneg. rewrite sub_spec. apply SFsub_below. Qed.

Lemma mul_below k kc x c mc ec : Prim2SF c = S754_finite false mc ec ->
  (Z.pos (digits2_pos mc) + ec <= kc)%Z -> below k x -> (-1074 <= k + kc <= 970)%Z ->
  below (k + kc + 1) (x * c).
Proof. unfold below. rewrite mul_spec. intros ->. intros. unfold SF64mul. now apply SFmul_below. Qed.

Lemma mul_mag kx ky x y : mag kx x -> mag ky y -> (-1074 <= kx + ky <= 970)%Z ->
  mag (kx + ky + 1) (x * y).
Proof. unfold mag. rewrite mul_spec. apply SFmul_mag. Qed.

Lemma mul_number x c s mc ec : Prim2SF c = S754_finite s mc ec ->
  is_nan x = false -> is_nan (x * c) = false.
Proof.
  rewrite !is_nan_false_iff, mul_spec. intros ->. apply SFmul_nan.
Qed.

Lemma add_number x y : is_nan x = false -> mag 1024 y -> is_nan (x + y) = false.
Proof. rewrite !is_nan_false_iff, add_spec. apply SFadd_nan. Qed.

Lemma div_number x y : mag 1024 x -> (0 <? y) = true -> is_nan (x / y) = false.
Proof.
  intros Hx Hy. apply ltb_zero_posdiv in Hy. rewrite is_nan_false_iff, div_spec.
  apply SFdiv_nan; assumption.
Qed.

Lemma div_nonneg c mc ec y : Prim2SF c = S754_finite false mc ec ->
  (0 <? y) = true -> nonneg (c / y).
Proof.
  intros Hc Hy. apply ltb_zero_posdiv in Hy. unfold nonneg. rewrite div_spec, Hc.
  apply SFdiv_nonneg. assumption.
Qed.

Lemma nonneg_number x : nonneg x -> is_nan x = false.
Proof.
  unfold nonneg. rewrite is_nan_false_iff. destruct (Prim2SF x) as [s|[|]| |[|] m e]; shapes; congruence.
Qed.

Lemma nonneg_ltb_zero x : nonneg x -> (x <? 0) = false.
Proof.
  intros H. apply ltb_false_iff. right; right. unfold fkey. change (Prim2SF 0) with (S754_zero false).
  unfold nonneg in H. destruct (Prim2SF x) as [s|[|]| |[|] m e]; shapes; try contradiction; lia.
Qed.

Lemma sub_pos_ltb (x y : float) : (0 <? y - x) = (x <? y).
Proof.
  rewrite !FloatAxioms.ltb_spec, sub_spec. change (Prim2SF 0) with (S754_zero false).
  apply SFsub_pos; apply Prim2SF_valid.
Qed.

Lemma div_one x : x / 1 = x.
Proof.
  apply Prim2SF_inj. rewrite div_spec.
  change (Prim2SF 1) with (S754_finite false 4503599627370496 (-52)).
  apply SFdiv_one, Prim2SF_valid.
Qed.

(** ** The built-ins of [Math] *)

Ltac const_shape := unfold below, mag, nonneg; vm_compute; try exact I; try discriminate.

Lemma is_finite_mag x : is_finite x = true -> mag 1024 x.
Proof.
  unfold is_finite, is_infinity. intros H. apply negb_true_iff, orb_false_iff in H.
  destruct H as [Hn Hi]. apply is_nan_false_iff in Hn.
  destruct (abs x =? infinity) eqn:E; [discriminate|]. clear Hi.
  unfold mag. destruct (Prim2SF x) as [s|s| |s m e] eqn:Ex; shapes; auto.
  - assert (Ha : (abs x =? infinity) = true).
    { apply eqb_true_iff. unfold fkey. rewrite !is_nan_false_iff, abs_spec, Ex. cbn.
      repeat split; discriminate. }
    congruence.
  - destruct (Prim2SF_digits x _ _ _ Ex). lia.
Qed.

Lemma finite_number s m e x : Prim2SF x = S754_finite s m e -> is_nan x = false.
Proof. intros H. apply is_nan_false_iff. congruence. Qed.

Lemma Math_min_number a b : is_nan a = false -> is_nan b = false -> is_nan (Math_min a b) = false.
Proof.
  intros Ha Hb. unfold Math_min. rewrite Ha, Hb. cbn [orb].
  destruct (a <? b); [assumption|]. destruct (b <? a); [assumption|].
  destruct (is_zero a && get_sign a); assumption.
Qed.

(** [Math.min(c, z)] never exceeds the positive constant [c]. *)
Lemma Math_min_below c z mc ec : Prim2SF c = S754_finite false mc ec ->
  is_nan z = false -> below (53 + ec) (Math_min c z).
Proof.
  intros Hc Hz. assert (Hcn : is_nan c = false) by (eapply finite_number; eassumption).
  assert (Hcb : below (53 + ec) c).
  { unfold below. rewrite Hc. shapes. destruct (Prim2SF_digits c _ _ _ Hc). lia. }
  unfold Math_min. rewrite Hcn, Hz. cbn [orb].
  destruct (c <? z) eqn:E1; [assumption|].
  assert (below (53 + ec) z) by (eapply leb_below; eassumption).
  destruct (z <? c); [assumption|]. destruct (is_zero c && get_sign c); assumption.
Qed.

Lemma Math_max_zero_below k y : below k y -> below k (Math_max 0 y).
Proof.
  intros Hy. pose proof (below_number _ _ Hy) as Hn. unfold Math_max.
  change (is_nan 0) with false. rewrite Hn. cbn [orb].
  assert (H0 : below k 0) by (unfold below; exact I).
  destruct (0 <? y); [assumption|]. destruct (y <? 0); [assumption|].
  destruct (is_zero 0 && get_sign 0); assumption.
Qed.

(** The clamp [Math.max(1, Math.min(10, x))] of a Number. *)
Lemma clamp_range x : is_nan x = false ->
  (1 <=? Math_max 1 (Math_min 10 x)) = true /\ (Math_max 1 (Math_min 10 x) <=? 10) = true.
Proof.
  intros Hx.
  assert (Hm : exists m, Math_min 10 x = m /\ is_nan m = false /\ (10 <? m) = false).
  { unfold Math_min. change (is_nan 10) with false. rewrite Hx. cbn [orb].
    destruct (10 <? x) eqn:A; [exists 10; repeat split; reflexivity|].
    destruct (x <? 10); [exists x; repeat split; assumption|].
    change (is_zero 10 && get_sign 10) with false. cbn iota. exists x; repeat split; assumption. }
  destruct Hm as (m & -> & Hm & Hle). unfold Math_max.
  change (is_nan 1) with false. rewrite Hm. cbn [orb].
  assert (H10 : (m <=? 10) = true).
  { apply ltb_false_iff in Hle. destruct Hle as [H|[H|H]].
    - vm_compute in H. congruence.
    - congruence.
    - apply leb_true_iff; repeat split; auto. }
  destruct (1 <? m) eqn:C.
  - split; [|assumption]. apply ltb_true_iff in C. destruct C as (? & ? & C).
    apply leb_true_iff; repeat split; auto. apply lex_le_iff; auto.
  - destruct (m <? 1); [split; reflexivity|].
    change (is_zero 1 && get_sign 1) with false. cbn iota. split; reflexivity.
Qed.

(** The values ECMAScript fixes for [Math.log10] outside the positive
    finite numbers. *)
Lemma Math_log10_special approx x :
  match Prim2SF x with
  | S754_nan => Math_log10 approx x = nan
  | S754_zero _ => Math_log10 approx x = neg_infinity
  | S754_infinity false => Math_log10 approx x = infinity
  | S754_infinity true | S754_finite true _ _ => Math_log10 approx x = nan
  | S754_finite false _ _ => True
  end.
Proof.
  destruct (Prim2SF x) as [s|s| |s m e] eqn:Ex.
  - unfold Math_log10. rewrite (proj2 (is_nan_false_iff x)) by congruence.
    unfold is_zero. rewrite !FloatAxioms.eqb_spec, Ex. destruct s; reflexivity.
  - unfold Math_log10. rewrite (proj2 (is_nan_false_iff x)) by congruence.
    unfold is_zero. rewrite !FloatAxioms.eqb_spec, FloatAxioms.ltb_spec, Ex. destruct s; reflexivity.
  - unfold Math_log10. rewrite (proj2 (is_nan_true_iff x)) by congruence. reflexivity.
  - destruct s; [|exact I].
    unfold Math_log10. rewrite (proj2 (is_nan_false_iff x)) by congruence.
    unfold is_zero. rewrite !FloatAxioms.eqb_spec, FloatAxioms.ltb_spec, Ex. reflexivity.
Qed.

Section Log10.

Variable approx : float -> float.

(** The approximation returns a Number on positive finite arguments. *)
Hypothesis approx_number :
  forall y, (0 <? y) = true -> (y <? infinity) = true -> is_nan (approx y) = false.

Lemma Math_log10_number x : nonneg x -> is_nan (Math_log10 approx x) = false.
Proof.
  intros Hx. pose proof (nonneg_number x Hx) as Hn. pose proof (nonneg_ltb_zero x Hx) as Hlt.
  unfold Math_log10. rewrite Hn.
  destruct (x =? infinity) eqn:Ei; [reflexivity|].
  destruct (x =? 1); [reflexivity|].
  destruct (is_zero x) eqn:Ez; [reflexivity|]. rewrite Hlt.
  apply approx_number.
  - apply ltb_true_iff. repeat split; auto.
    unfold nonneg in Hx. unfold fkey. change (Prim2SF 0) with (S754_zero false).
    destruct (Prim2SF x) as [s|[|]| |[|] m e] eqn:Ex; shapes; try contradiction; try lia.
    assert (Hz : is_zero x = true).
    { apply eqb_true_iff. repeat split; auto. unfold fkey. rewrite Ex. reflexivity. }
    congruence.
  - apply ltb_true_iff. repeat split; auto. unfold fkey. change (Prim2SF infinity) with (S754_infinity false).
    unfold nonneg in Hx.
    destruct (Prim2SF x) as [s|[|]| |[|] m e] eqn:Ex; shapes; try contradiction; try lia.
    assert (Hz : (x =? infinity) = true).
    { apply eqb_true_iff. repeat split; auto. unfold fkey. rewrite Ex. reflexivity. }
    congruence.
Qed.

End Log10.

(** ** Scores in [1,10] *)

Lemma score_range_shape x : inScoreRange x ->
  exists m e, Prim2SF x = S754_finite false m e /\
    (2 ^ 52 <= Z.pos m < 2 ^ 53 /\ -52 <= e <= -49)%Z.
Proof.
  intros [H1 H10]. apply leb_true_iff in H1, H10.
  destruct H1 as (_ & Hx & H1), H10 as (_ & _ & H10). apply is_nan_false_iff in Hx.
  unfold fkey in H1, H10.
  change (Prim2SF 1) with (S754_finite false 4503599627370496 (-52)) in H1.
  change (Prim2SF 10) with (S754_finite false 5629499534213120 (-49)) in H10.
  pose proof (Prim2SF_valid x) as Hv.
  destruct (Prim2SF x) as [s|[|]| |[|] m e]; shapes; try lia; try congruence.
  exists m, e. split; [reflexivity|]. apply valid_canonical in Hv.
  change (2 ^ 52)%Z with 4503599627370496%Z in *. lia.
Qed.

Lemma mul_08_lt x : inScoreRange x -> (x * 0.8 <? x) = true.
Proof.
  intros Hx. destruct (score_range_shape x Hx) as (m & e & Ex & Hm & He).
  apply ltb_true_iff. rewrite !is_nan_false_iff. unfold fkey. rewrite mul_spec, Ex.
  change (Prim2SF 0.8) with (S754_finite false 7205759403792794 (-53)). unfold SF64mul.
  split; [apply SFmul_nan; discriminate|]. split; [discriminate|].
  apply SFmul_shrinks; assumption.
Qed.

Lemma mul_12_gt x : inScoreRange x -> (x <? x * 1.2) = true.
Proof.
  intros Hx. destruct (score_range_shape x Hx) as (m & e & Ex & Hm & He).
  apply ltb_true_iff. rewrite !is_nan_false_iff. unfold fkey. rewrite mul_spec, Ex.
  change (Prim2SF 1.2) with (S754_finite false 5404319552844595 (-52)). unfold SF64mul.
  split; [discriminate|]. split; [apply SFmul_nan; discriminate|].
  apply SFmul_grows; assumption.
Qed.

Lemma ltb_neq x y : (x <? y) = true -> (x =? y) = false /\ (y =? x) = false.
Proof.
  intros H. apply ltb_true_iff in H. destruct H as (_ & _ & H).
  split.
  - destruct (x =? y) eqn:E; [|reflexivity]. apply eqb_true_iff in E.
    destruct E as (_ & _ & E). rewrite E in H. now apply lex_lt_refl in H.
  - destruct (y =? x) eqn:E; [|reflexivity]. apply eqb_true_iff in E.
    destruct E as (_ & _ & E). rewrite E in H. now apply lex_lt_refl in H.
Qed.

(** A score in [1,10] is changed by every factor other than 1. *)
Lemma mul_changes x f : inScoreRange x -> (f =? 1) = false -> (x * f =? x) = false.
Proof.
  intros Hx Hf. destruct (score_range_shape x Hx) as (m & e & Ex & Hm & He).
  destruct (x * f =? x) eqn:E; [exfalso|reflexivity].
  apply eqb_true_iff in E. destruct E as (_ & _ & Ek).
  unfold fkey in Ek. rewrite mul_spec, Ex in Ek.
  revert Ek. apply SFmul_moves; try assumption; [apply Prim2SF_valid|].
  intros Hk. assert (Ht : (f =? 1) = true); [|congruence].
  apply eqb_true_iff. split; [|split; [reflexivity|exact Hk]].
  apply is_nan_false_iff. intros Hn. rewrite Hn in Hk. discriminate Hk.
Qed.

(** ** NaN is contagious *)

Lemma nan_unique x : is_nan x = true -> x = nan.
Proof. intros H. apply is_nan_true_iff in H. apply Prim2SF_inj. exact H. Qed.

Lemma add_nan_r x : x + nan = nan.
Proof.
  apply Prim2SF_inj. rewrite add_spec. change (Prim2SF nan) with S754_nan.
  destruct (Prim2SF x); reflexivity.
Qed.

(** * The market cycle *)

Section MarketCycle.

Import BitcoinDominanceAnalyzer.

Lemma at_most_35_below_60 dominance :
  (dominance <=? 35) = true -> (60 <=? dominance) = false.
Proof.
  intros H. apply leb_true_iff in H. destruct H as (Hd & _ & H).
  apply leb_false_iff. right; right. unfold fkey in *.
  change (Prim2SF 35) with (S754_finite false 4925812092436480 (-47)) in H.
  change (Prim2SF 60) with (S754_finite false 8444249301319680 (-47)).
  destruct (key (Prim2SF dominance)) as [[c e] m]. shapes. lia.
Qed.

(** C2. For every dominance in [0,100] the two impacts of
    [assessMarketImpact] add up to exactly 2; the BTC impact is 1.2 from
    60 on, 0.8 up to 35, and 1.0 otherwise. *)
Theorem impacts_sum_to_two (dominance : float) :
  (0 <=? dominance) = true -> (dominance <=? 100) = true ->
  let impact := assessMarketImpact dominance in
  btcImpact impact + altcoinImpact impact = 2 /\
  ((60 <=? dominance) = true -> btcImpact impact = 1.2) /\
  ((dominance <=? 35) = true -> btcImpact impact = 0.8) /\
  ((60 <=? dominance) = false -> (dominance <=? 35) = false -> btcImpact impact = 1.0).
Proof.
  intros _ _. cbv zeta. unfold assessMarketImpact, calculateAltcoinImpact, calculateBTCImpact.
  cbn [btcImpact altcoinImpact].
  change thresholds.HIGH with 60. change thresholds.LOW with 35. repeat split.
  - destruct (60 <=? dominance); [reflexivity|]. destruct (dominance <=? 35); reflexivity.
  - intros ->. reflexivity.
  - intros H. rewrite (at_most_35_below_60 dominance H), H. reflexivity.
  - intros -> ->. reflexivity.
Qed.

Lemma impacts_sum_to_two_witness :
  let impact := assessMarketImpact 45.5 in
  btcImpact impact + altcoinImpact impact = 2 /\
  ((60 <=? 45.5) = true -> btcImpact impact = 1.2) /\
  ((45.5 <=? 35) = true -> btcImpact impact = 0.8) /\
  ((60 <=? 45.5) = false -> (45.5 <=? 35) = false -> btcImpact impact = 1.0).
Proof. apply (impacts_sum_to_two 45.5); reflexivity. Defined.

(** C3. [determineCyclePhase] applies its rules in order: from 60 on
    btc_dominance (high); else up to 35 altcoin_season (high); else
    below 45 transition (medium); else accumulation (medium).  So 65 is
    btc_dominance, 35 is altcoin_season and 45 is accumulation. *)
Theorem determineCyclePhase_rules (dominance : float) :
  let phase := determineCyclePhase dominance in
  ((60 <=? dominance) = true ->
   phase_name phase = "btc_dominance"%string /\ strength phase = "high"%string) /\
  ((60 <=? dominance) = false -> (dominance <=? 35) = true ->
   phase_name phase = "altcoin_season"%string /\ strength phase = "high"%string) /\
  ((60 <=? dominance) = false -> (dominance <=? 35) = false -> (dominance <? 45) = true ->
   phase_name phase = "transition"%string /\ strength phase = "medium"%string) /\
  ((60 <=? dominance) = false -> (dominance <=? 35) = false -> (dominance <? 45) = false ->
   phase_name phase = "accumulation"%string /\ strength phase = "medium"%string) /\
  phase_name (determineCyclePhase 65) = "btc_dominance"%string /\
  phase_name (determineCyclePhase 35) = "altcoin_season"%string /\
  phase_name (determineCyclePhase 45) = "accumulation"%string.
Proof.
  cbv zeta. unfold determineCyclePhase.
  change thresholds.HIGH with 60. change thresholds.LOW with 35. change thresholds.MEDIUM with 45.
  repeat split; try reflexivity.
  all: repeat match goal with H : _ = _ |- _ => rewrite H; clear H end; reflexivity.
Qed.

(** The same rules by intervals of Numbers. *)
Lemma determineCyclePhase_intervals (dominance : float) :
  ((dominance <=? 35) = true ->
   phase_name (determineCyclePhase dominance) = "altcoin_season"%string) /\
  ((35 <? dominance) = true -> (dominance <? 45) = true ->
   phase_name (determineCyclePhase dominance) = "transition"%string) /\
  ((45 <=? dominance) = true -> (dominance <? 60) = true ->
   phase_name (determineCyclePhase dominance) = "accumulation"%string).
Proof.
  unfold determineCyclePhase.
  change thresholds.HIGH with 60. change thresholds.LOW with 35. change thresholds.MEDIUM with 45.
  repeat split.
  - intros H. rewrite (at_most_35_below_60 dominance H), H. reflexivity.
  - intros H1 H2.
    assert (E1 : (60 <=? dominance) = false).
    { apply ltb_true_iff in H2. destruct H2 as (_ & _ & H2). apply leb_false_iff. right; right.
      unfold fkey in *.
      change (Prim2SF 45) with (S754_finite false 6333186975989760 (-47)) in H2.
      change (Prim2SF 60) with (S754_finite false 8444249301319680 (-47)).
      destruct (key (Prim2SF dominance)) as [[c e] m]. shapes. lia. }
    assert (E2 : (dominance <=? 35) = false).
    { apply ltb_true_iff in H1. destruct H1 as (_ & _ & H1). apply leb_false_iff. auto. }
    rewrite E1, E2, H2. reflexivity.
  - intros H1 H2.
    assert (E1 : (60 <=? dominance) = false).
    { apply ltb_true_iff in H2. destruct H2 as (_ & _ & H2). apply leb_false_iff. auto. }
    assert (E2 : (dominance <=? 35) = false).
    { apply leb_true_iff in H1. destruct H1 as (_ & _ & H1). apply leb_false_iff. right; right.
      unfold fkey in *.
      change (Prim2SF 45) with (S754_finite false 6333186975989760 (-47)) in H1.
      change (Prim2SF 35) with (S754_finite false 4925812092436480 (-47)).
      destruct (key (Prim2SF dominance)) as [[c e] m]. shapes. lia. }
    assert (E3 : (dominance <? 45) = false).
    { apply leb_true_iff in H1. destruct H1 as (_ & _ & H1). apply ltb_false_iff. auto. }
    rewrite E1, E2, E3. reflexivity.
Qed.

End MarketCycle.

(** * The dominance adjustment *)

Section Adjustment.

Import BitcoinDominanceAnalyzer.
Local Open Scope string_scope.

Lemma toUpperCase_ascii_B c : toUpperCase_ascii c = "B"%char -> c = "B"%char \/ c = "b"%char.
Proof.
  destruct c as [[|] [|] [|] [|] [|] [|] [|] [|]]; vm_compute; intros H;
    try discriminate H; auto.
Qed.

Lemma toUpperCase_ascii_T c : toUpperCase_ascii c = "T"%char -> c = "T"%char \/ c = "t"%char.
Proof.
  destruct c as [[|] [|] [|] [|] [|] [|] [|] [|]]; vm_compute; intros H;
    try discriminate H; auto.
Qed.

Lemma toUpperCase_ascii_C c : toUpperCase_ascii c = "C"%char -> c = "C"%char \/ c = "c"%char.
Proof.
  destruct c as [[|] [|] [|] [|] [|] [|] [|] [|]]; vm_compute; intros H;
    try discriminate H; auto.
Qed.

(** A symbol upper-cases to BTC exactly when it spells BTC in some mix
    of cases. *)
Lemma toUpperCase_BTC s : toUpperCase s = "BTC" <-> In s caseVariantsOfBTC.
Proof.
  split.
  - destruct s as [|c1 [|c2 [|c3 [|c4 s]]]]; cbn [toUpperCase]; intros H; try discriminate H.
    inversion H as [[H1 H2 H3]].
    apply toUpperCase_ascii_B in H1. apply toUpperCase_ascii_T in H2.
    apply toUpperCase_ascii_C in H3.
    destruct H1 as [-> | ->], H2 as [-> | ->], H3 as [-> | ->]; cbn; tauto.
  - intros H. cbn in H. repeat destruct H as [<- | H]; try reflexivity. contradiction.
Qed.

Lemma isBTC_iff s : String.eqb (toUpperCase s) "BTC" = true <-> In s caseVariantsOfBTC.
Proof. rewrite String.eqb_eq. apply toUpperCase_BTC. Qed.

(** C10. The BTC test of [adjustForBTCDominance] ignores the case of the
    letters: every spelling of BTC gets the BTC impact, every other
    symbol the altcoin impact. *)
Theorem btc_test_ignores_case (analysis : BaseAnalysis) (btcDominance : DominanceState) :
  let symbol := symbol (basic (fields analysis)) in
  let adjusted := adjustForBTCDominance analysis btcDominance in
  (In symbol caseVariantsOfBTC ->
   adjustedScore adjusted = investmentScore analysis * btcImpact (impact btcDominance)) /\
  (~ In symbol caseVariantsOfBTC ->
   adjustedScore adjusted = investmentScore analysis * altcoinImpact (impact btcDominance)).
Proof.
  cbv zeta. unfold adjustForBTCDominance. cbn [adjustedScore]. split; intros H.
  - apply isBTC_iff in H. rewrite H. reflexivity.
  - rewrite <- isBTC_iff in H. apply not_true_is_false in H. rewrite H. reflexivity.
Qed.

(** The impact [adjustForBTCDominance] applies. *)
Lemma applied_impact (analysis : BaseAnalysis) (state : DominanceState) :
  adjustedScore (adjustForBTCDominance analysis state) =
  investmentScore analysis *
  (if String.eqb (toUpperCase (symbol (basic (fields analysis)))) "BTC"
   then btcImpact (impact state) else altcoinImpact (impact state)).
Proof. reflexivity. Qed.

(** The analyzer knows three impacts. *)
Lemma analyzer_impacts dominance :
  let impact := impact (marketCycleOf dominance) in
  (btcImpact impact = 1.2 /\ altcoinImpact impact = 0.8)%float \/
  (btcImpact impact = 0.8 /\ altcoinImpact impact = 1.2)%float \/
  (btcImpact impact = 1 /\ altcoinImpact impact = 1)%float.
Proof.
  cbv zeta. unfold marketCycleOf, assessMarketImpact, calculateAltcoinImpact, calculateBTCImpact.
  cbn [impact btcImpact altcoinImpact].
  destruct (thresholds.HIGH <=? dominance)%float; [left; split; reflexivity|].
  destruct (dominance <=? thresholds.LOW)%float; [right; left|right; right]; split; reflexivity.
Qed.

(** C4, amended.  The adjusted score is the investment score times the
    BTC impact when the symbol upper-cased is BTC, times the altcoin
    impact otherwise.  For an investment score in [1,10], an applied
    impact other than 1.0 gives an adjusted score that differs from the
    investment score; at a dominance of 65 a symbol that does not
    upper-case to BTC gets the investment score times 0.8, which is
    strictly less. *)
Theorem adjustForBTCDominance_spec (analysis : BaseAnalysis) (state : DominanceState) :
  let isBTC := String.eqb (toUpperCase (symbol (basic (fields analysis)))) "BTC" in
  let applied := if isBTC then btcImpact (impact state) else altcoinImpact (impact state) in
  let adjusted := adjustedScore (adjustForBTCDominance analysis state) in
  adjusted = (investmentScore analysis * applied)%float /\
  (state = marketCycleOf 65 -> isBTC = false ->
     adjusted = (investmentScore analysis * 0.8)%float) /\
  (inScoreRange (investmentScore analysis) ->
     ((applied =? 1)%float = false -> (adjusted =? investmentScore analysis)%float = false) /\
     (state = marketCycleOf 65 -> isBTC = false ->
        (adjusted <? investmentScore analysis)%float = true)).
Proof.
  cbv zeta. rewrite applied_impact. split; [reflexivity|]. split.
  - intros -> Hsym. rewrite Hsym. reflexivity.
  - intros Hrange. split.
    + apply mul_changes. exact Hrange.
    + intros -> Hsym. rewrite Hsym.
      change (altcoinImpact (impact (marketCycleOf 65))) with 0.8%float.
      apply mul_08_lt. exact Hrange.
Qed.

Lemma adjustForBTCDominance_spec_witness :
  let analysis := sampleBase "ETH" 7.5 in
  let state := marketCycleOf 65 in
  let adjusted := adjustedScore (adjustForBTCDominance analysis state) in
  adjusted = (7.5 * 0.8)%float /\ (adjusted <? 7.5)%float = true.
Proof.
  cbv zeta.
  destruct (adjustForBTCDominance_spec (sampleBase "ETH" 7.5) (marketCycleOf 65)) as (_ & H1 & H2).
  split; [apply H1; reflexivity|].
  apply H2; [split; reflexivity|reflexivity|reflexivity].
Defined.

(** C4 as stated fails: the lower-case symbol btc gets the BTC impact at
    a dominance of 65 (7.5 becomes 9, not 6); an investment score of 0
    is not changed by the impact 0.8; and the NaN that the calculator
    returns for a coin without capitalisation and volume is not made
    strictly less. *)
Lemma adjustForBTCDominance_counterexample :
  let state := marketCycleOf 65 in
  let dead := performBaseAnalysis log10_sample [] (sampleCoin "DEAD" 0 0) in
  symbol (basic (fields (sampleBase "btc" 7.5))) <> "BTC" /\
  adjustedScore (adjustForBTCDominance (sampleBase "btc" 7.5) state) = 9%float /\
  adjustedScore (adjustForBTCDominance (sampleBase "btc" 7.5) state)
    <> (7.5 * altcoinImpact (impact state))%float /\
  (altcoinImpact (impact state) =? 1)%float = false /\
  adjustedScore (adjustForBTCDominance (sampleBase "ETH" 0) state) = 0%float /\
  investmentScore dead = nan /\
  (adjustedScore (adjustForBTCDominance dead state) <? investmentScore dead)%float = false.
Proof.
  cbv zeta. repeat split; try reflexivity; discriminate.
Qed.

End Adjustment.

(** * The scores *)

(** C9, at the empty series.  [calculateMomentumIndicator] guards its two
    averages against an empty array and returns 1; the mean and the
    variance of [calculateVolatilityScore] divide 0 by the length 0, so
    that the standard deviation and the score are NaN. *)
Theorem volatility_of_empty_series :
  calculateMomentumIndicator [] = 1 /\
  stdDev [] = nan /\
  calculateVolatilityScore [] = {| score := nan; category := "Baja" |}.
Proof. repeat split; reflexivity. Qed.

(** The empty series is what [performBaseAnalysis] passes on for a coin
    whose percent changes are all [null]; the NaN reaches the investment
    score of that coin. *)
Example volatility_of_stale_coin :
  let analysis := performBaseAnalysis log10_sample [] staleCoin in
  momentum (metrics (fields analysis)) = 1 /\
  score (volatility (metrics (fields analysis))) = nan /\
  investmentScore analysis = nan.
Proof. cbv zeta. repeat split; reflexivity. Qed.

(** ** A series of one value *)

(** The mean of one value and its distance to it. *)
Lemma deviation_single x : is_finite x = true -> Math_pow2 (x - (0 + x) / 1) = 0.
Proof.
  intros H. apply is_finite_mag in H. unfold mag in H. rewrite div_one.
  apply Prim2SF_inj. unfold Math_pow2. rewrite mul_spec, sub_spec, add_spec.
  change (Prim2SF 0) with (S754_zero false).
  destruct (Prim2SF x) as [s|s| |s m e] eqn:Ex; cbn [sf_mag] in H; try contradiction.
  - destruct s; reflexivity.
  - cbn [SFadd]. rewrite SFsub_diag by (cbn; exact H). reflexivity.
Qed.

Lemma stdDev_single x : is_finite x = true -> stdDev [x] = 0.
Proof.
  intros H. unfold stdDev, Array_reduce. cbn [fold_left].
  change (Array_length [x]) with 1. rewrite (deviation_single x H). reflexivity.
Qed.

Lemma volatility_single x : is_finite x = true ->
  calculateVolatilityScore [x] = {| score := 0; category := "Baja" |}.
Proof. intros H. unfold calculateVolatilityScore. rewrite (stdDev_single x H). reflexivity. Qed.

(** A single change counts as a gain or as a loss: the indicator is 0 for
    a loss and 1 otherwise. *)
Lemma momentum_single x : calculateMomentumIndicator [x] = if x <? 0 then 0 else 1.
Proof.
  unfold calculateMomentumIndicator. cbn [filter].
  destruct (x <? 0) eqn:En.
  - assert (Ep : (0 <? x) = false).
    { apply ltb_true_iff in En. destruct En as (_ & _ & En).
      apply ltb_false_iff. right; right. apply lex_le_iff. auto. }
    rewrite Ep. cbn [map average Array_reduce fold_left].
    change (Array_length [Math_abs x]) with 1. rewrite div_one.
    rewrite FloatAxioms.ltb_spec in En. unfold Math_abs.
    assert (Ha : (abs x =? 0) = false /\ 0 / abs x = 0).
    { split; [rewrite FloatAxioms.eqb_spec | apply Prim2SF_inj; rewrite div_spec];
        rewrite abs_spec; change (Prim2SF 0) with (S754_zero false) in *;
        destruct (Prim2SF x) as [[|]|[|]| |[|] m e]; try discriminate En; reflexivity. }
    destruct Ha as [-> ->]. reflexivity.
  - destruct (0 <? x); reflexivity.
Qed.

Lemma unit_interval_below x : (x <=? 1) = true -> below 1 x.
Proof.
  intros H. apply (leb_true_below x 1 4503599627370496 (-52)); [reflexivity|assumption].
Qed.

Lemma unit_interval_mag x : (0 <=? x) = true -> (x <=? 1) = true -> mag 1 x.
Proof.
  intros H0 H1. apply below_nonneg_mag; [apply unit_interval_below; assumption|].
  apply leb_zero_nonneg; assumption.
Qed.

Lemma clamp_nan_or_range x :
  is_nan (Math_max 1 (Math_min 10 x)) = true \/ inScoreRange (Math_max 1 (Math_min 10 x)).
Proof.
  destruct (is_nan x) eqn:E.
  - left. apply nan_unique in E. subst x. reflexivity.
  - right. apply clamp_range. assumption.
Qed.

(** The logarithm that both scores take of [1e11 / marketCap], when the
    capitalisation is not positive. *)
Lemma growth_of_nonpositive_cap approx marketCap : (marketCap <=? 0) = true ->
  let growth := Math_log10 approx (1e11 / marketCap) in
  growth = nan \/ growth = infinity \/ growth = neg_infinity.
Proof.
  intros H. apply leb_true_iff in H. destruct H as (Hn & _ & Hk). apply is_nan_false_iff in Hn.
  unfold fkey in Hk. change (Prim2SF 0) with (S754_zero false) in Hk.
  assert (Hq : Prim2SF (1e11 / marketCap) = S754_infinity false \/
               sf_signed true (Prim2SF (1e11 / marketCap))).
  { rewrite div_spec. change (Prim2SF 1e11) with (S754_finite false 6553600000000000 (-16)).
    destruct (Prim2SF marketCap) as [[|]|[|]| |[|] m e]; shapes; try lia; try congruence.
    - right. reflexivity.
    - left. reflexivity.
    - right. reflexivity.
    - right. apply (SFdiv_finite_signed false _ _ true). }
  cbv zeta. pose proof (Math_log10_special approx (1e11 / marketCap)) as Hs.
  destruct (Prim2SF (1e11 / marketCap)) as [[|]|[|]| |[|] m e]; shapes;
    destruct Hq as [Hq|Hq]; try discriminate Hq; auto.
Qed.

Section Scores.

Variable log10_approx : float -> float.

Local Abbreviation investmentScoreOf := (calculateInvestmentScore log10_approx).
Local Abbreviation potentialReturnOf := (calculatePotentialReturn log10_approx).

(** Whatever the input, both scores are NaN or clamped to [1,10]. *)
Lemma scores_nan_or_range (analysis : Analysis) :
  (is_nan (investmentScoreOf analysis) = true \/ inScoreRange (investmentScoreOf analysis)) /\
  (is_nan (potentialReturnOf analysis) = true \/ inScoreRange (potentialReturnOf analysis)).
Proof. split; apply clamp_nan_or_range. Qed.

(** With neither capitalisation nor volume the volume ratio is 0/0. *)
Lemma investmentScore_zero_over_zero (analysis : Analysis) :
  is_zero (marketCap (basic analysis)) = true ->
  is_zero (volume24h (basic analysis)) = true ->
  investmentScoreOf analysis = nan.
Proof.
  intros Hm Hv. unfold calculateInvestmentScore.
  assert (E : volume24h (basic analysis) / marketCap (basic analysis) = nan).
  { apply Prim2SF_inj. rewrite div_spec.
    apply eqb_true_iff in Hm, Hv. destruct Hm as (Hm & _ & Hmk), Hv as (Hv & _ & Hvk).
    apply is_nan_false_iff in Hm, Hv. unfold fkey in *.
    change (Prim2SF PrimFloat.zero) with (S754_zero false) in *.
    destruct (Prim2SF (marketCap (basic analysis))) as [s|[|]| |[|] m e];
      try congruence; try discriminate Hmk;
    destruct (Prim2SF (volume24h (basic analysis))) as [s'|[|]| |[|] m' e'];
      try congruence; try discriminate Hvk; reflexivity. }
  rewrite E. change (Math_min 10 (nan * 5) * 0.1) with nan. rewrite add_nan_r. reflexivity.
Qed.

(** C5, amended.  An input with marketCap <= 0 is not rejected: both
    scoring functions evaluate their formula.  The logarithm of
    1e11 / marketCap is then NaN, Infinity or -Infinity, and each
    function returns NaN or a value clamped to [1,10]; when the
    capitalisation and the volume are both 0 the investment score is
    NaN. *)
Theorem scores_without_validation (analysis : Analysis) :
  (marketCap (basic analysis) <=? 0) = true ->
  (let growth := Math_log10 log10_approx (1e11 / marketCap (basic analysis)) in
   growth = nan \/ growth = infinity \/ growth = neg_infinity) /\
  (is_nan (investmentScoreOf analysis) = true \/ inScoreRange (investmentScoreOf analysis)) /\
  (is_nan (potentialReturnOf analysis) = true \/ inScoreRange (potentialReturnOf analysis)) /\
  (is_zero (marketCap (basic analysis)) = true ->
   is_zero (volume24h (basic analysis)) = true ->
   investmentScoreOf analysis = nan).
Proof.
  intros Hcap. destruct (scores_nan_or_range analysis) as [H1 H2].
  split; [exact (growth_of_nonpositive_cap log10_approx _ Hcap)|].
  split; [exact H1|]. split; [exact H2|]. apply investmentScore_zero_over_zero.
Qed.

(** The approximation returns a Number on positive finite arguments. *)
Hypothesis approx_number :
  forall y, (0 <? y) = true -> (y <? infinity) = true -> is_nan (log10_approx y) = false.

Lemma growth_number (analysis : Analysis) :
  (0 <? marketCap (basic analysis)) = true ->
  is_nan (Math_log10 log10_approx (1e11 / marketCap (basic analysis))) = false.
Proof.
  intros Hmc. apply Math_log10_number; [assumption|].
  eapply div_nonneg; [reflexivity|assumption].
Qed.

Lemma investmentScore_range (analysis : Analysis) :
  (0 <? marketCap (basic analysis)) = true ->
  is_finite (volume24h (basic analysis)) = true ->
  wellFormedMetrics (metrics analysis) ->
  inScoreRange (investmentScoreOf analysis).
Proof.
  intros Hmc Hv (Hmm & [Hvh0 Hvh1] & [Hmo0 Hmo1] & [Hvo0 Hvo1]).
  unfold calculateInvestmentScore.
  set (mm := score (marketMaturity (metrics analysis))) in *.
  set (vh := score (volumeHealth (metrics analysis))) in *.
  set (mo := momentum (metrics analysis)) in *.
  set (vo := score (volatility (metrics analysis))) in *.
  set (mc := marketCap (basic analysis)) in *.
  set (v := volume24h (basic analysis)) in *.
  assert (T1 : below 6 ((4 - mm) * 2 * 0.2)).
  { destruct Hmm as [-> | [-> | [-> | [-> | ->]]]]; const_shape. }
  assert (T2 : below 6 (vh * 10 * 0.2)).
  { apply below_mono with (1 + 4 + 1 + -2 + 1)%Z; [lia|].
    eapply mul_below; [reflexivity|vm_compute; discriminate| |lia].
    eapply mul_below; [reflexivity|vm_compute; discriminate| |lia].
    apply unit_interval_below; assumption. }
  assert (T3 : below 6 (mo * 10 * 0.25)).
  { apply below_mono with (1 + 4 + 1 + -1 + 1)%Z; [lia|].
    eapply mul_below; [reflexivity|vm_compute; discriminate| |lia].
    eapply mul_below; [reflexivity|vm_compute; discriminate| |lia].
    apply unit_interval_below; assumption. }
  assert (T4 : below 6 (Math_max 0 (1 - vo) * 0.15)).
  { apply below_mono with (1 + 2 + -2 + 1)%Z; [lia|].
    eapply mul_below; [reflexivity|vm_compute; discriminate| |lia].
    apply Math_max_zero_below. apply sub_below; [const_shape| |lia].
    apply leb_zero_nonneg; assumption. }
  assert (T5 : below 6 (Math_min 10 (Math_log10 log10_approx (1e11 / mc) * 2) * 0.1)).
  { apply below_mono with (4 + -3 + 1)%Z; [lia|].
    eapply mul_below; [reflexivity|vm_compute; discriminate| |lia].
    apply (Math_min_below 10 _ 5629499534213120 (-49)); [reflexivity|].
    eapply mul_number; [reflexivity|]. apply growth_number. assumption. }
  assert (T6 : below 6 (Math_min 10 (v / mc * 5) * 0.1)).
  { apply below_mono with (4 + -3 + 1)%Z; [lia|].
    eapply mul_below; [reflexivity|vm_compute; discriminate| |lia].
    apply (Math_min_below 10 _ 5629499534213120 (-49)); [reflexivity|].
    eapply mul_number; [reflexivity|]. apply div_number; [|assumption].
    apply is_finite_mag; assumption. }
  apply clamp_range. apply (below_number 16).
  replace 16%Z with (14 + 2)%Z by reflexivity.
  apply add_below; [|apply below_mono with 6%Z; [lia|assumption]|lia].
  replace 14%Z with (12 + 2)%Z by reflexivity.
  apply add_below; [|apply below_mono with 6%Z; [lia|assumption]|lia].
  replace 12%Z with (10 + 2)%Z by reflexivity.
  apply add_below; [|apply below_mono with 6%Z; [lia|assumption]|lia].
  replace 10%Z with (8 + 2)%Z by reflexivity.
  apply add_below; [|apply below_mono with 6%Z; [lia|assumption]|lia].
  replace 8%Z with (6 + 2)%Z by reflexivity.
  apply add_below; [assumption|assumption|lia].
Qed.

Lemma potentialReturn_range (analysis : Analysis) :
  (0 <? marketCap (basic analysis)) = true ->
  wellFormedMetrics (metrics analysis) ->
  inScoreRange (potentialReturnOf analysis).
Proof.
  intros Hmc (Hmm & [Hvh0 Hvh1] & [Hmo0 Hmo1] & _).
  unfold calculatePotentialReturn.
  set (mm := score (marketMaturity (metrics analysis))) in *.
  set (vh := score (volumeHealth (metrics analysis))) in *.
  set (mo := momentum (metrics analysis)) in *.
  set (mc := marketCap (basic analysis)) in *.
  apply clamp_range.
  eapply mul_number; [reflexivity|].
  apply add_number.
  - apply add_number.
    + apply add_number.
      * eapply mul_number; [reflexivity|]. eapply mul_number; [reflexivity|].
        apply growth_number. assumption.
      * apply mag_mono with (1 + -2 + 1)%Z; [lia|].
        apply mul_mag; [apply unit_interval_mag; assumption|const_shape|lia].
    + apply mag_mono with (1 + -2 + 1)%Z; [lia|].
      apply mul_mag; [apply unit_interval_mag; assumption|const_shape|lia].
  - destruct Hmm as [-> | [-> | [-> | [-> | ->]]]]; const_shape.
Qed.

(** C1, amended.  For every analysis with marketCap > 0, a finite
    volume24h and well-formed metrics, and for a logarithm that returns
    a Number on positive finite arguments, the investment score and the
    potential return lie in [1,10]. *)
Theorem scores_in_range (analysis : Analysis) :
  (0 <? marketCap (basic analysis)) = true ->
  is_finite (volume24h (basic analysis)) = true ->
  wellFormedMetrics (metrics analysis) ->
  inScoreRange (investmentScoreOf analysis) /\ inScoreRange (potentialReturnOf analysis).
Proof.
  intros Hmc Hv Hm. split.
  - apply investmentScore_range; assumption.
  - apply potentialReturn_range; assumption.
Qed.

End Scores.

Lemma log10_sample_number y : is_nan (log10_sample y) = false.
Proof.
  unfold log10_sample. destruct (y =? 51); [reflexivity|].
  destruct (y =? 100); [reflexivity|]. destruct (y =? 10); reflexivity.
Qed.

Lemma sampleMetrics_wellFormed : wellFormedMetrics sampleMetrics.
Proof. unfold wellFormedMetrics. cbn. repeat split; auto. Qed.

Lemma scores_in_range_witness :
  inScoreRange (calculateInvestmentScore log10_sample (sampleAnalysis "BTC" 1e12 5e10)) /\
  inScoreRange (calculatePotentialReturn log10_sample (sampleAnalysis "BTC" 1e12 5e10)).
Proof.
  apply scores_in_range.
  - intros y _ _. apply log10_sample_number.
  - reflexivity.
  - reflexivity.
  - exact sampleMetrics_wellFormed.
Defined.

(** C1 as stated fails when volume24h is NaN: the metrics are well
    formed, the capitalisation is positive, and the score is NaN. *)
Lemma scores_in_range_counterexample :
  let analysis := sampleAnalysis "BTC" 1e12 nan in
  (0 <? marketCap (basic analysis)) = true /\
  wellFormedMetrics (metrics analysis) /\
  calculateInvestmentScore log10_sample analysis = nan /\
  ~ inScoreRange (calculateInvestmentScore log10_sample analysis).
Proof.
  cbv zeta. split; [reflexivity|]. split; [exact sampleMetrics_wellFormed|].
  split; [reflexivity|]. intros [H _]. vm_compute in H. discriminate H.
Qed.

Lemma scores_without_validation_witness :
  let analysis := sampleAnalysis "DEAD" 0 0 in
  (let growth := Math_log10 log10_sample (1e11 / marketCap (basic analysis)) in
   growth = nan \/ growth = infinity \/ growth = neg_infinity) /\
  (is_nan (calculateInvestmentScore log10_sample analysis) = true \/
   inScoreRange (calculateInvestmentScore log10_sample analysis)) /\
  (is_nan (calculatePotentialReturn log10_sample analysis) = true \/
   inScoreRange (calculatePotentialReturn log10_sample analysis)) /\
  (is_zero (marketCap (basic analysis)) = true ->
   is_zero (volume24h (basic analysis)) = true ->
   calculateInvestmentScore log10_sample analysis = nan).
Proof. cbv zeta. apply scores_without_validation. reflexivity. Defined.

(** C5 as stated fails at marketCap = 0: nothing is rejected; the
    investment score is NaN and the potential return is 10, computed
    from the logarithm of Infinity. *)
Lemma scores_without_validation_counterexample :
  let analysis := sampleAnalysis "DEAD" 0 0 in
  (marketCap (basic analysis) <=? 0) = true /\
  calculateInvestmentScore log10_sample analysis = nan /\
  Math_log10 log10_sample (1e11 / marketCap (basic analysis)) = infinity /\
  calculatePotentialReturn log10_sample analysis = 10.
Proof. cbv zeta. repeat split; reflexivity. Qed.

(** * The ranking *)

(** The order of the Numbers. *)
Lemma lex_le_trans a b c : lex_le a b -> lex_le b c -> lex_le a c.
Proof.
  destruct a as [[a1 a2] a3], b as [[b1 b2] b3], c as [[c1 c2] c3]. unfold lex_le. lia.
Qed.

Lemma leb_refl x : is_nan x = false -> (x <=? x) = true.
Proof. intros H. apply leb_true_iff. repeat split; auto. apply lex_le_iff. auto. Qed.

Lemma leb_trans x y z : (x <=? y) = true -> (y <=? z) = true -> (x <=? z) = true.
Proof.
  intros H1 H2. apply leb_true_iff in H1, H2. destruct H1 as (Hx & _ & H1), H2 as (_ & Hz & H2).
  apply leb_true_iff. repeat split; auto. eapply lex_le_trans; eassumption.
Qed.

Lemma lex_le_antisym a b : lex_le a b -> lex_le b a -> a = b.
Proof.
  destruct a as [[a1 a2] a3], b as [[b1 b2] b3]. unfold lex_le. intros H1 H2.
  assert (a1 = b1 /\ a2 = b2 /\ a3 = b3) as (-> & -> & ->) by lia. reflexivity.
Qed.

Lemma leb_antisym x y : (x <=? y) = true -> (y <=? x) = true -> (x =? y) = true.
Proof.
  intros H1 H2. apply leb_true_iff in H1, H2. destruct H1 as (Hx & Hy & H1), H2 as (_ & _ & H2).
  apply eqb_true_iff. repeat split; auto. apply lex_le_antisym; assumption.
Qed.

Lemma eqb_refl x : is_nan x = false -> (x =? x) = true.
Proof. intros H. apply eqb_true_iff. repeat split; auto. Qed.

Lemma sort_insert_In {A : Type} (comparefn : A -> A -> float) x l y :
  In y (sort_insert comparefn x l) <-> y = x \/ In y l.
Proof.
  induction l as [|z r IH]; cbn [sort_insert In]; [intuition congruence|].
  destruct (0 <? comparefn x z); cbn [In]; [rewrite IH|]; intuition congruence.
Qed.

Lemma Array_sort_In {A : Type} (comparefn : A -> A -> float) l y :
  In y (Array_sort comparefn l) <-> In y l.
Proof.
  induction l as [|x r IH]; [reflexivity|]. unfold Array_sort in *. cbn [fold_right In].
  rewrite sort_insert_In, IH. intuition congruence.
Qed.

Lemma slice_In {A : Type} n (l : list A) a : In a (Array_slice0 n l) -> In a l.
Proof.
  unfold Array_slice0. intros H. rewrite <- (firstn_skipn n l). apply in_or_app. now left.
Qed.

Lemma sort_insert_length {A : Type} (comparefn : A -> A -> float) x l :
  List.length (sort_insert comparefn x l) = S (List.length l).
Proof.
  induction l as [|y r IH]; cbn [sort_insert List.length]; [reflexivity|].
  destruct (0 <? comparefn x y); cbn [List.length]; congruence.
Qed.

Lemma Array_sort_length {A : Type} (comparefn : A -> A -> float) l :
  List.length (Array_sort comparefn l) = List.length l.
Proof.
  induction l as [|x r IH]; [reflexivity|]. unfold Array_sort in *. cbn [fold_right List.length].
  rewrite sort_insert_length. congruence.
Qed.

Lemma chain_tail {A : Type} (R : A -> A -> Prop) a l : chain R (a :: l) -> chain R l.
Proof. destruct l; cbn; tauto. Qed.

Lemma chain_firstn {A : Type} (R : A -> A -> Prop) n : forall l,
  chain R l -> chain R (firstn n l).
Proof.
  induction n as [|n IH]; intros l Hl; [exact I|].
  destruct l as [|a [|b r]]; cbn [firstn]; auto.
  - destruct n; exact I.
  - destruct Hl as [Hab Hr]. specialize (IH (b :: r) Hr).
    destruct n; cbn [firstn] in *; [exact I|]. split; assumption.
Qed.

(** The comparator moves [a] behind [b] only when [b] scores strictly
    more. *)
Lemma byAdjustedScore_pos a b :
  (0 <? byAdjustedScore a b) = (adjustedScore a <? adjustedScore b).
Proof. unfold byAdjustedScore. apply sub_pos_ltb. Qed.

Lemma moved_behind a b : (0 <? byAdjustedScore a b) = true -> descendingNumbers b a.
Proof.
  rewrite byAdjustedScore_pos. intros H _ _. unfold descending.
  apply ltb_true_iff in H. destruct H as (Ha & Hb & H).
  apply leb_true_iff. repeat split; auto. apply lex_le_iff. auto.
Qed.

Lemma kept_before a b : (0 <? byAdjustedScore a b) = false -> descendingNumbers a b.
Proof.
  rewrite byAdjustedScore_pos. intros H Ha Hb. unfold descending.
  apply ltb_false_iff in H. destruct H as [H|[H|H]]; try congruence.
  apply leb_true_iff. auto.
Qed.

Lemma sort_insert_chain x l :
  chain descendingNumbers l -> chain descendingNumbers (sort_insert byAdjustedScore x l).
Proof.
  induction l as [|y r IH]; intros Hl; [exact I|]. cbn [sort_insert].
  destruct (0 <? byAdjustedScore x y) eqn:E.
  - specialize (IH (chain_tail _ _ _ Hl)). destruct r as [|z r'].
    + cbn. split; [apply moved_behind; assumption | exact I].
    + cbn [sort_insert] in *. destruct (0 <? byAdjustedScore x z).
      * split; [apply Hl | exact IH].
      * split; [apply moved_behind; assumption | exact IH].
  - split; [apply kept_before; assumption | exact Hl].
Qed.

Lemma Array_sort_chain l : chain descendingNumbers (Array_sort byAdjustedScore l).
Proof.
  induction l as [|x r IH]; [exact I|]. unfold Array_sort in *. cbn [fold_right].
  apply sort_insert_chain. exact IH.
Qed.

(** Entries of equal score never pass each other. *)
Lemma withScore_insert v x l :
  withScore v (sort_insert byAdjustedScore x l) = withScore v (x :: l).
Proof.
  induction l as [|y r IH]; [reflexivity|]. cbn [sort_insert].
  destruct (0 <? byAdjustedScore x y) eqn:E; [|reflexivity].
  unfold withScore in *. cbn [filter] in *. rewrite IH.
  destruct (adjustedScore y =? v) eqn:Ey, (adjustedScore x =? v) eqn:Ex; try reflexivity.
  exfalso. rewrite byAdjustedScore_pos in E. apply ltb_true_iff in E.
  destruct E as (_ & _ & E). apply eqb_true_iff in Ex, Ey.
  destruct Ex as (_ & _ & Ex), Ey as (_ & _ & Ey). rewrite Ex, Ey in E.
  now apply lex_lt_refl in E.
Qed.

Lemma withScore_sort v l : withScore v (Array_sort byAdjustedScore l) = withScore v l.
Proof.
  induction l as [|x r IH]; [reflexivity|]. unfold Array_sort in *. cbn [fold_right].
  rewrite withScore_insert. unfold withScore in *. cbn [filter]. rewrite IH. reflexivity.
Qed.

(** Without NaN the neighbours are in descending order outright. *)
Lemma chain_numbers l :
  chain descendingNumbers l ->
  Forall (fun a => is_nan (adjustedScore a) = false) l -> chain descending l.
Proof.
  induction l as [|a [|b r] IH]; intros Hc Hn; try exact I.
  destruct Hc as [Hab Hr]. inversion Hn as [|? ? Ha Hn']; subst.
  split; [|apply IH; assumption].
  inversion Hn' as [|? ? Hb _]; subst. apply Hab; assumption.
Qed.

(** The head of a descending list of Numbers scores at least as much as
    every entry. *)
Lemma chain_head a l :
  Forall (fun a => is_nan (adjustedScore a) = false) (a :: l) ->
  chain descending (a :: l) ->
  Forall (fun b => (adjustedScore b <=? adjustedScore a) = true) (a :: l).
Proof.
  revert a. induction l as [|b r IH]; intros a Hn Hc.
  - constructor; [|constructor]. apply leb_refl. inversion Hn; assumption.
  - inversion Hn as [|? ? Ha Hn']; subst. destruct Hc as [Hab Hr].
    constructor; [apply leb_refl; exact Ha|].
    specialize (IH b Hn' Hr). eapply Forall_impl; [|exact IH].
    cbn beta. intros c Hc. eapply leb_trans; [exact Hc|exact Hab].
Qed.

Lemma withScore_own a l :
  is_nan (adjustedScore a) = false -> In a l -> In a (withScore (adjustedScore a) l).
Proof. intros Ha Hin. apply filter_In. split; [exact Hin|]. apply eqb_refl. exact Ha. Qed.

Lemma withScore_In v a l : In a (withScore v l) -> In a l.
Proof. intros H. apply filter_In in H. tauto. Qed.

(** A list of Numbers has one descending arrangement that keeps the
    entries of every score in their order: the result ECMAScript
    requires of a stable sort with a consistent comparator. *)
Lemma stable_ranking_unique : forall r1 r2,
  Forall (fun a => is_nan (adjustedScore a) = false) r1 ->
  Forall (fun a => is_nan (adjustedScore a) = false) r2 ->
  chain descending r1 -> chain descending r2 ->
  (forall v, withScore v r1 = withScore v r2) -> r1 = r2.
Proof.
  induction r1 as [|a t1 IH]; intros r2 Hn1 Hn2 Hc1 Hc2 Hw.
  - destruct r2 as [|b t2]; [reflexivity|]. exfalso.
    inversion Hn2 as [|? ? Hb _]; subst.
    assert (H : In b (withScore (adjustedScore b) (b :: t2))) by (apply withScore_own; [assumption|now left]).
    rewrite <- Hw in H. destruct H.
  - destruct r2 as [|b t2].
    + exfalso. inversion Hn1 as [|? ? Ha _]; subst.
      assert (H : In a (withScore (adjustedScore a) (a :: t1))) by (apply withScore_own; [assumption|now left]).
      rewrite Hw in H. destruct H.
    + inversion Hn1 as [|? ? Ha Hn1']; inversion Hn2 as [|? ? Hb Hn2']; subst.
      assert (Hba : (adjustedScore b <=? adjustedScore a) = true).
      { assert (H : In b (a :: t1)).
        { apply (withScore_In (adjustedScore b)). rewrite Hw. apply withScore_own; [assumption|now left]. }
        pose proof (chain_head a t1 Hn1 Hc1) as Hmax. rewrite Forall_forall in Hmax. auto. }
      assert (Hab : (adjustedScore a <=? adjustedScore b) = true).
      { assert (H : In a (b :: t2)).
        { apply (withScore_In (adjustedScore a)). rewrite <- Hw. apply withScore_own; [assumption|now left]. }
        pose proof (chain_head b t2 Hn2 Hc2) as Hmax. rewrite Forall_forall in Hmax. auto. }
      assert (Heq : a = b).
      { pose proof (Hw (adjustedScore a)) as H. unfold withScore in H. cbn [filter] in H.
        rewrite (eqb_refl _ Ha), (leb_antisym _ _ Hba Hab) in H. now inversion H. }
      subst b. f_equal. apply IH; auto.
      * eapply chain_tail; eassumption.
      * eapply chain_tail; eassumption.
      * intros v. specialize (Hw v). unfold withScore in *. cbn [filter] in Hw.
        destruct (adjustedScore a =? v); [now inversion Hw|exact Hw].
Qed.

Lemma sort_insert_Permutation {A : Type} (comparefn : A -> A -> float) x l :
  Permutation (x :: l) (sort_insert comparefn x l).
Proof.
  induction l as [|y r IH]; cbn [sort_insert]; [reflexivity|].
  destruct (0 <? comparefn x y); [|reflexivity].
  etransitivity; [apply perm_swap|]. apply perm_skip. exact IH.
Qed.

Lemma Array_sort_Permutation {A : Type} (comparefn : A -> A -> float) l :
  Permutation l (Array_sort comparefn l).
Proof.
  induction l as [|x r IH]; [reflexivity|]. unfold Array_sort in *. cbn [fold_right].
  etransitivity; [apply perm_skip; exact IH|]. apply sort_insert_Permutation.
Qed.

(** For a batch without NaN, [Array_sort] returns that arrangement. *)
Lemma Array_sort_stable_ranking opportunities ranked :
  Forall (fun a => is_nan (adjustedScore a) = false) opportunities ->
  Permutation opportunities ranked -> chain descending ranked ->
  (forall v, withScore v ranked = withScore v opportunities) ->
  Array_sort byAdjustedScore opportunities = ranked.
Proof.
  intros Hn Hp Hc Hw.
  assert (Hs : Forall (fun a => is_nan (adjustedScore a) = false) (Array_sort byAdjustedScore opportunities)).
  { eapply Permutation_Forall; [apply Array_sort_Permutation|exact Hn]. }
  apply stable_ranking_unique; auto.
  - eapply Permutation_Forall; eassumption.
  - apply chain_numbers; [apply Array_sort_chain|exact Hs].
  - intros v. rewrite withScore_sort, Hw. reflexivity.
Qed.

(** Such an arrangement exists: the model's. *)
Lemma Array_sort_is_stable_ranking opportunities :
  Forall (fun a => is_nan (adjustedScore a) = false) opportunities ->
  let ranked := Array_sort byAdjustedScore opportunities in
  Permutation opportunities ranked /\ chain descending ranked /\
  (forall v, withScore v ranked = withScore v opportunities).
Proof.
  intros Hn. cbv zeta. split; [apply Array_sort_Permutation|]. split.
  - apply chain_numbers; [apply Array_sort_chain|].
    eapply Permutation_Forall; [apply Array_sort_Permutation|exact Hn].
  - intros v. apply withScore_sort.
Qed.

(** The ranking step of [scanTopOpportunities]. *)
Lemma ranking_spec opportunities :
  let out := Array_slice0 10 (Array_sort byAdjustedScore opportunities) in
  chain descendingNumbers out /\
  (List.length out <= 10)%nat /\
  List.length out = Nat.min 10 (List.length opportunities) /\
  forall v, exists rest, withScore v opportunities = withScore v out ++ rest.
Proof.
  cbv zeta. unfold Array_slice0. repeat split.
  - apply chain_firstn, Array_sort_chain.
  - apply firstn_le_length.
  - rewrite length_firstn, Array_sort_length. reflexivity.
  - intros v. exists (withScore v (skipn 10 (Array_sort byAdjustedScore opportunities))).
    unfold withScore. rewrite <- filter_app, firstn_skipn. symmetry. apply withScore_sort.
Qed.

(** * The requests of a scan *)

Section Scan.

Local Open Scope nat_scope.

Variable log10_approx : float -> float.
Variable coinbaseTokens : list string.
Variable net : Network.

Local Abbreviation analyze := (analyzeToken log10_approx coinbaseTokens net).
Local Abbreviation loop := (scanLoop log10_approx coinbaseTokens net).
Local Abbreviation scan := (scanTopOpportunities log10_approx coinbaseTokens net).
Local Abbreviation outcomesFrom := (outcomes log10_approx coinbaseTokens net).

(** One call of [analyzeToken] sends one request to each endpoint,
    whatever comes back. *)
Lemma analyzeToken_requests symbol s :
  exists r, analyze symbol s = (r, afterToken s) /\
    (forall a, r = Normal a -> readsDominance net a (dominance_sent s)) /\
    (forall data coin d,
        quotes_latest net (quotes_sent s) (toUpperCase symbol) = Normal data ->
        data (toUpperCase symbol) = Some coin ->
        global_metrics net (dominance_sent s) = Normal d ->
        exists a, r = Normal a).
Proof.
  unfold analyzeToken, readsDominance.
  cbv [try_catch bind Promise_all axios_get_quotes analyzeMarketCycle getCurrentDominance
       axios_get_global_metrics ret throw quotes_sent dominance_sent listings_sent logged].
  destruct s as [ls qs ds lg]. unfold afterToken. cbn [quotes_sent dominance_sent listings_sent logged].
  destruct (quotes_latest net qs (toUpperCase symbol)) as [data|msg];
    destruct (global_metrics net ds) as [d|msg'] eqn:Ed.
  - destruct (data (toUpperCase symbol)) as [coin|] eqn:Ec.
    + eexists. split; [reflexivity|]. split.
      * intros a Ha. inversion Ha.
        cbn [adjustForBTCDominance btcDominance BitcoinDominanceAnalyzer.marketCycleOf currentDominance].
        split; reflexivity.
      * intros data' coin' d' H1 H2 H3. eexists. reflexivity.
    + eexists. split; [reflexivity|]. split; [discriminate|].
      intros data' coin' d' H1 H2 H3. congruence.
  - eexists. split; [reflexivity|]. split; [discriminate|]. discriminate.
  - eexists. split; [reflexivity|]. split; [discriminate|]. discriminate.
  - eexists. split; [reflexivity|]. split; [discriminate|]. discriminate.
Qed.

(** What a call of [analyzeToken] returns depends on the two request
    counters only. *)
Lemma analyzeToken_counters symbol s t :
  quotes_sent s = quotes_sent t -> dominance_sent s = dominance_sent t ->
  fst (analyze symbol s) = fst (analyze symbol t).
Proof.
  intros Hq Hd. destruct s as [ls qs ds lg], t as [lt qt dt lgt].
  cbn [quotes_sent dominance_sent] in Hq, Hd. subst qt dt. unfold analyzeToken.
  cbv [try_catch bind Promise_all axios_get_quotes analyzeMarketCycle getCurrentDominance
       axios_get_global_metrics ret throw quotes_sent dominance_sent listings_sent logged].
  destruct (quotes_latest net qs (toUpperCase symbol)) as [data|message];
    destruct (global_metrics net ds) as [d|message']; try reflexivity.
  destruct (data (toUpperCase symbol)); reflexivity.
Qed.

(** The loop of a scan, coin by coin: the analyses that returned are
    appended in the order of the listing, and each call that threw
    leaves its line in the log. *)
Lemma scanLoop_outcomes s0 coins : forall k opportunities s,
  quotes_sent s = quotes_sent s0 + k -> dominance_sent s = dominance_sent s0 + k ->
  exists s',
    loop coins opportunities s
      = (Normal (opportunities ++ analysedOf (outcomesFrom s0 k coins)), s') /\
    logged s' = logged s ++ droppedOf (outcomesFrom s0 k coins).
Proof.
  induction coins as [|coin rest IH]; intros k opportunities s Hq Hd.
  - exists s. cbn [scanLoop outcomes analysedOf droppedOf flat_map ret].
    rewrite !app_nil_r. split; reflexivity.
  - cbn [scanLoop outcomes]. unfold bind at 1. unfold try_catch at 1. unfold bind at 1.
    assert (Hout : fst (analyze (coin_symbol coin) (turn s0 k)) = fst (analyze (coin_symbol coin) s))
      by (apply analyzeToken_counters; cbn [turn quotes_sent dominance_sent]; congruence).
    destruct (analyzeToken_requests (coin_symbol coin) s)
      as (r & Hr & _).
    rewrite Hr in Hout |- *. cbn [fst] in Hout.
    unfold analysedOf, droppedOf. cbn [flat_map snd fst]. rewrite Hout.
    destruct r as [a|message].
    + cbv [ret].
      destruct (IH (S k) (opportunities ++ [a]) (afterToken s)) as (s' & Hl & Hlog).
      { cbn [afterToken quotes_sent]. lia. }
      { cbn [afterToken dominance_sent]. lia. }
      exists s'. rewrite Hl, <- app_assoc. split; [reflexivity|]. exact Hlog.
    + cbv [log bind ret].
      set (s1 := Build_Session _ _ _ _).
      destruct (IH (S k) opportunities s1) as (s' & Hl & Hlog).
      { subst s1. cbn [afterToken quotes_sent]. lia. }
      { subst s1. cbn [afterToken dominance_sent]. lia. }
      exists s'. rewrite Hl. split; [reflexivity|].
      rewrite Hlog. subst s1. cbn [afterToken logged]. rewrite <- app_assoc. reflexivity.
Qed.

(** Each listed coin has one outcome. *)
Lemma outcomes_coins s coins : forall k, map fst (outcomesFrom s k coins) = coins.
Proof.
  induction coins as [|coin rest IH]; intros k; [reflexivity|].
  cbn [outcomes map fst]. rewrite IH. reflexivity.
Qed.

Lemma outcomes_length results :
  List.length (analysedOf results) + List.length (droppedOf results) = List.length results.
Proof.
  induction results as [|[coin [a|message]] rest IH]; [reflexivity| |];
    unfold analysedOf, droppedOf in *; cbn [flat_map snd fst app List.length] in *; lia.
Qed.

Lemma analysedOf_In results a :
  In a (analysedOf results) <-> exists coin, In (coin, Normal a) results.
Proof.
  unfold analysedOf. rewrite in_flat_map. split.
  - intros ([coin r] & Hin & Ha). cbn [snd] in Ha. destruct r as [b|message]; [|destruct Ha].
    destruct Ha as [<-|[]]. exists coin. exact Hin.
  - intros (coin & Hin). exists (coin, Normal a). split; [exact Hin|]. now left.
Qed.

Lemma droppedOf_In results line :
  In line (droppedOf results) <->
  exists coin message,
    In (coin, Throw message) results /\
    line = ("Error analizando " ++ coin_symbol coin ++ ": " ++ message)%string.
Proof.
  unfold droppedOf. rewrite in_flat_map. split.
  - intros ([coin r] & Hin & Hl). cbn [snd fst] in Hl. destruct r as [b|message]; [destruct Hl|].
    destruct Hl as [<-|[]]. exists coin, message. split; [exact Hin|reflexivity].
  - intros (coin & message & Hin & ->). exists (coin, Throw message). split; [exact Hin|]. now left.
Qed.

(** When every request is answered, every call returns. *)
Lemma outcomes_answered s coins all :
  allAnswered net all -> (forall coin, In coin coins -> In coin all) ->
  forall k, droppedOf (outcomesFrom s k coins) = [].
Proof.
  intros [Hd Hq]. induction coins as [|coin rest IH]; intros Hsub k; [reflexivity|].
  cbn [outcomes]. unfold droppedOf in *. cbn [flat_map snd fst].
  rewrite IH by (intros c Hc; apply Hsub; now right). rewrite app_nil_r.
  destruct (analyzeToken_requests (coin_symbol coin) (turn s k))
    as (r & Hr & _ & Hok).
  rewrite Hr. cbn [fst].
  destruct (Hd (dominance_sent (turn s k))) as (d & Hd').
  destruct (Hq (quotes_sent (turn s k)) coin (Hsub coin (or_introl eq_refl)))
    as (data & found & Hq1 & Hq2).
  destruct (Hok data found d Hq1 Hq2 Hd') as (a & ->). reflexivity.
Qed.

Lemma outcomes_nth s coins : forall n k coin,
  nth_error coins k = Some coin ->
  nth_error (outcomesFrom s n coins) k
    = Some (coin, fst (analyze (coin_symbol coin) (turn s (n + k)))).
Proof.
  induction coins as [|c rest IH]; intros n k coin H; [destruct k; discriminate|].
  destruct k as [|k]; cbn [nth_error outcomes] in *.
  - inversion H; subst. rewrite Nat.add_0_r. reflexivity.
  - rewrite (IH (S n) k coin H). replace (S n + k) with (n + S k) by lia. reflexivity.
Qed.

Lemma outcomes_In s coins k coin r : In (coin, r) (outcomesFrom s k coins) -> In coin coins.
Proof.
  intros H. rewrite <- (outcomes_coins s coins k). change coin with (fst (coin, r)).
  apply in_map. exact H.
Qed.

(** The loop of a scan: every coin costs one request to each endpoint;
    it is either analysed, with the reading of its own request, or
    dropped with one line in the log. *)
Lemma scanLoop_spec coins : forall opportunities s,
  exists analysed dropped readings s',
    loop coins opportunities s = (Normal (opportunities ++ analysed), s') /\
    listings_sent s' = listings_sent s /\
    quotes_sent s' = quotes_sent s + List.length coins /\
    dominance_sent s' = dominance_sent s + List.length coins /\
    logged s' = logged s ++ dropped /\
    List.length analysed + List.length dropped = List.length coins /\
    Forall2 (readsDominance net) analysed readings /\
    Forall (fun n => dominance_sent s <= n < dominance_sent s + List.length coins) readings /\
    NoDup readings /\
    (allAnswered net coins -> dropped = []).
Proof.
  induction coins as [|coin rest IH]; intros opportunities s.
  - exists [], [], [], s. cbn [scanLoop ret List.length]. rewrite !app_nil_r, !Nat.add_0_r.
    repeat split; auto; constructor.
  - cbn [scanLoop]. unfold bind at 1. unfold try_catch at 1. unfold bind at 1.
    destruct (analyzeToken_requests (coin_symbol coin) s) as (r & Hr & Hread & Hok).
    rewrite Hr. destruct r as [a|message].
    + cbv [ret].
      destruct (IH (opportunities ++ [a]) (afterToken s))
        as (analysed & dropped & readings & s' & Hl & H1 & H2 & H3 & H4 & H5 & H6 & H7 & H8 & H9).
      exists (a :: analysed), dropped, (dominance_sent s :: readings), s'.
      rewrite Hl, <- app_assoc. cbn [app List.length afterToken quotes_sent dominance_sent listings_sent logged] in *.
      repeat split; try lia; auto.
      * constructor; [lia|]. eapply Forall_impl; [|exact H7]. cbn. intros; lia.
      * constructor; [|assumption]. intros Hin. rewrite Forall_forall in H7.
        specialize (H7 _ Hin). cbn in H7. lia.
      * intros [Hd Hq]. apply H9. split; [assumption|]. intros n c Hc. apply Hq. now right.
    + cbv [log bind ret].
      set (s1 := Build_Session _ _ _ _).
      destruct (IH opportunities s1)
        as (analysed & dropped & readings & s' & Hl & H1 & H2 & H3 & H4 & H5 & H6 & H7 & H8 & H9).
      exists analysed, (("Error analizando " ++ coin_symbol coin ++ ": " ++ message)%string :: dropped),
        readings, s'.
      rewrite Hl. subst s1.
      cbn [app List.length afterToken quotes_sent dominance_sent listings_sent logged] in *.
      rewrite H4, <- app_assoc. cbn [app].
      repeat split; try lia; auto.
      * eapply Forall_impl; [|exact H7]. cbn. intros; lia.
      * intros [Hd Hq]. exfalso.
        destruct (Hd (dominance_sent s)) as (d & Hd').
        destruct (Hq (quotes_sent s) coin (or_introl eq_refl)) as (data & found & Hq1 & Hq2).
        destruct (Hok data found d Hq1 Hq2 Hd') as (a & Ha). discriminate.
Qed.

End Scan.

(** * The batch scan *)

Section Batch.

Variable log10_approx : float -> float.
Variable coinbaseTokens : list string.
Variable net : Network.

Local Open Scope nat_scope.

Local Abbreviation loop := (scanLoop log10_approx coinbaseTokens net).
Local Abbreviation scan := (scanTopOpportunities log10_approx coinbaseTokens net).
Local Abbreviation analyze := (analyzeToken log10_approx coinbaseTokens net).
Local Abbreviation outcomesFrom := (outcomes log10_approx coinbaseTokens net).

(** The session once the listing is requested. *)
Lemma scan_unfold s :
  scan s =
  match listings_latest net (listings_sent s) with
  | Normal coins =>
      match loop coins []
              {| listings_sent := S (listings_sent s); quotes_sent := quotes_sent s;
                 dominance_sent := dominance_sent s; logged := logged s |} with
      | (Normal opportunities, s') =>
          (Normal (Array_slice0 10 (Array_sort byAdjustedScore opportunities)), s')
      | (Throw message, s') =>
          (Throw ("Error escaneando oportunidades: " ++ message)%string, s')
      end
  | Throw message =>
      (Throw ("Error escaneando oportunidades: " ++ message)%string,
       {| listings_sent := S (listings_sent s); quotes_sent := quotes_sent s;
          dominance_sent := dominance_sent s; logged := logged s |})
  end.
Proof.
  unfold scanTopOpportunities, try_catch, bind, axios_get_listings, ret, throw.
  destruct (listings_latest net (listings_sent s)); [|reflexivity].
  destruct (loop _ _ _) as [[opportunities|message] s']; reflexivity.
Qed.



(** C7, amended.  A scan reads the dominance once per listed coin, in
    the [analyzeToken] call of that coin: N coins cost N readings, and
    every analysis carries the dominance state of its own reading. *)
Theorem dominance_read_per_coin (s : Session) (coins : list CoinData) :
  listings_latest net (listings_sent s) = Normal coins ->
  exists out s' analysed readings,
    scan s = (Normal out, s') /\
    out = Array_slice0 10 (Array_sort byAdjustedScore analysed) /\
    dominance_sent s' = dominance_sent s + List.length coins /\
    Forall2 (readsDominance net) analysed readings /\
    NoDup readings /\
    Forall (fun n => dominance_sent s <= n < dominance_sent s + List.length coins) readings.
Proof.
  intros Hl. rewrite scan_unfold, Hl.
  set (s1 := Build_Session _ _ _ _).
  destruct (scanLoop_spec log10_approx coinbaseTokens net coins [] s1)
    as (analysed & dropped & readings & s' & El & _ & _ & Hdom & _ & _ & Hread & Hrange & Hnodup & _).
  rewrite El. cbn [app].
  exists (Array_slice0 10 (Array_sort byAdjustedScore analysed)), s', analysed, readings.
  repeat split; auto.
Qed.

End Batch.

Lemma answering_allAnswered coins dominanceAt :
  (forall coin, In coin coins -> lookup coins (toUpperCase (coin_symbol coin)) <> None) ->
  allAnswered (answering coins dominanceAt) coins.
Proof.
  intros H. split.
  - intros n. eexists. reflexivity.
  - intros n coin Hin. specialize (H coin Hin).
    destruct (lookup coins (toUpperCase (coin_symbol coin))) as [found|] eqn:E; [|congruence].
    exists (lookup coins), found. split; [reflexivity|assumption].
Qed.





Lemma dominance_read_per_coin_witness :
  exists out s' analysed readings,
    scanTopOpportunities log10_sample [] (answering fiveCoins fallingDominance) start = (Normal out, s') /\
    out = Array_slice0 10 (Array_sort byAdjustedScore analysed) /\
    dominance_sent s' = (dominance_sent start + List.length fiveCoins)%nat /\
    Forall2 (readsDominance (answering fiveCoins fallingDominance)) analysed readings /\
    NoDup readings /\
    Forall (fun n => (dominance_sent start <= n < dominance_sent start + List.length fiveCoins)%nat)
      readings.
Proof. apply dominance_read_per_coin. reflexivity. Defined.

(** C7 as stated fails on two coins while the dominance falls from 65 to
    30: the scan reads the dominance twice, and the two analyses carry
    different dominance states. *)
Lemma dominance_read_twice :
  exists a b s',
    scanTopOpportunities log10_sample []
      (answering [sampleCoin "AAA" 1e11 6e10; sampleCoin "BBB" 1e11 6e10] fallingDominance) start
      = (Normal [a; b], s') /\
    dominance_sent s' = 2%nat /\
    currentDominance (btcDominance a) = 30 /\
    currentDominance (btcDominance b) = 65 /\
    phase_name (phase (btcDominance a)) = "altcoin_season"%string /\
    phase_name (phase (btcDominance b)) = "btc_dominance"%string.
Proof.
  eexists. eexists. eexists. split; [vm_compute; reflexivity|]. repeat split; reflexivity.
Qed.

(** * Further properties of the code

    What follows goes beyond the claims: the functions of
    [src/monitor.js] around the ones the claims cite, and the class
    [AdvancedCryptoScanner]. *)

(** ** More on the order *)

(** Two different literals. *)
Ltac float_neq :=
  let H := fresh in intro H; apply (f_equal Prim2SF) in H; vm_compute in H; discriminate H.

Ltac float_false H := apply (f_equal Prim2SF) in H; vm_compute in H; discriminate H.

Lemma ltb_leb x y : (x <? y) = true -> (x <=? y) = true.
Proof.
  intros H. apply ltb_true_iff in H. destruct H as (Hx & Hy & H).
  apply leb_true_iff. repeat split; auto. apply lex_le_iff. auto.
Qed.

Lemma not_ltb_leb x y : is_nan x = false -> is_nan y = false ->
  (x <? y) = false -> (y <=? x) = true.
Proof.
  intros Hx Hy H. apply ltb_false_iff in H. destruct H as [H|[H|H]]; try congruence.
  apply leb_true_iff. auto.
Qed.

Lemma nonneg_leb_zero x : nonneg x -> (0 <=? x) = true.
Proof.
  intros H. apply leb_true_iff. split; [reflexivity|]. split; [apply nonneg_number; exact H|].
  unfold fkey. change (Prim2SF 0) with (S754_zero false). unfold nonneg in H.
  destruct (Prim2SF x) as [s|[|]| |[|] m e]; shapes; try contradiction; lia.
Qed.

(** ** [Math.min] and [Math.max] of two Numbers *)

Lemma Math_min_spec a b : is_nan a = false -> is_nan b = false ->
  (Math_min a b <=? a) = true /\ (Math_min a b <=? b) = true /\
  (Math_min a b = a \/ Math_min a b = b).
Proof.
  intros Ha Hb. unfold Math_min. rewrite Ha, Hb. cbn [orb].
  destruct (a <? b) eqn:E1.
  - split; [apply leb_refl; exact Ha|]. split; [apply ltb_leb; exact E1 | left; reflexivity].
  - pose proof (not_ltb_leb a b Ha Hb E1) as Hba.
    destruct (b <? a) eqn:E2.
    + split; [exact Hba|]. split; [apply leb_refl; exact Hb | right; reflexivity].
    + pose proof (not_ltb_leb b a Hb Ha E2) as Hab.
      destruct (is_zero a && get_sign a).
      * split; [apply leb_refl; exact Ha|]. split; [exact Hab | left; reflexivity].
      * split; [exact Hba|]. split; [apply leb_refl; exact Hb | right; reflexivity].
Qed.

Lemma Math_max_spec a b : is_nan a = false -> is_nan b = false ->
  (a <=? Math_max a b) = true /\ (b <=? Math_max a b) = true /\
  (Math_max a b = a \/ Math_max a b = b).
Proof.
  intros Ha Hb. unfold Math_max. rewrite Ha, Hb. cbn [orb].
  destruct (a <? b) eqn:E1.
  - split; [apply ltb_leb; exact E1|]. split; [apply leb_refl; exact Hb | right; reflexivity].
  - pose proof (not_ltb_leb a b Ha Hb E1) as Hba.
    destruct (b <? a) eqn:E2.
    + split; [apply leb_refl; exact Ha|]. split; [exact Hba | left; reflexivity].
    + pose proof (not_ltb_leb b a Hb Ha E2) as Hab.
      destruct (is_zero a && get_sign a).
      * split; [exact Hab|]. split; [apply leb_refl; exact Hb | right; reflexivity].
      * split; [apply leb_refl; exact Ha|]. split; [exact Hba | left; reflexivity].
Qed.

Lemma Math_min_nan a b : is_nan a = true \/ is_nan b = true -> Math_min a b = nan.
Proof. intros [H|H]; unfold Math_min; rewrite H; [|rewrite orb_true_r]; reflexivity. Qed.

Lemma Math_max_nan a b : is_nan a = true \/ is_nan b = true -> Math_max a b = nan.
Proof. intros [H|H]; unfold Math_max; rewrite H; [|rewrite orb_true_r]; reflexivity. Qed.

(** [Math.max(lo, Math.min(v, hi))] of a Number lies between the
    bounds. *)
Lemma clamp_between v lo hi : is_nan v = false -> (lo <=? hi) = true ->
  (lo <=? Math_max lo (Math_min v hi)) = true /\ (Math_max lo (Math_min v hi) <=? hi) = true.
Proof.
  intros Hv Hmm. pose proof Hmm as Hk. apply leb_true_iff in Hk. destruct Hk as (Hmin & Hmax & _).
  destruct (Math_min_spec v hi Hv Hmax) as (_ & Hle & _).
  pose proof (Math_min_number v hi Hv Hmax) as Hn.
  destruct (Math_max_spec lo (Math_min v hi) Hmin Hn) as (Hge & _ & [E|E]).
  - split; [exact Hge|]. rewrite E. exact Hmm.
  - split; [exact Hge|]. rewrite E. exact Hle.
Qed.

(** ** NaN operands *)

Lemma add_nan_l x : nan + x = nan.
Proof.
  apply Prim2SF_inj. rewrite add_spec. change (Prim2SF nan) with S754_nan. reflexivity.
Qed.

Lemma mul_nan_l x : nan * x = nan.
Proof.
  apply Prim2SF_inj. rewrite mul_spec. change (Prim2SF nan) with S754_nan. reflexivity.
Qed.

Lemma div_nan_nan x : nan / x = nan.
Proof.
  apply Prim2SF_inj. rewrite div_spec. change (Prim2SF nan) with S754_nan. reflexivity.
Qed.

Lemma sub_nan_r x : x - nan = nan.
Proof.
  apply Prim2SF_inj. rewrite sub_spec. change (Prim2SF nan) with S754_nan.
  destruct (Prim2SF x); reflexivity.
Qed.

Lemma div_nan_l x y : is_nan x = true -> is_nan (x / y) = true.
Proof.
  intros H. apply is_nan_true_iff in H. apply is_nan_true_iff. rewrite div_spec, H.
  destruct (Prim2SF y); reflexivity.
Qed.

(** ** Signs of results *)

Lemma SFsqrt_nonneg x : SFsqrt prec emax x = S754_nan \/ sf_nonneg (SFsqrt prec emax x).
Proof.
  destruct x as [s|[|]| |[|] m e]; cbn [SFsqrt sf_nonneg]; auto.
  unfold SFsqrt_core_binary.
  set (m' := match (_ - _)%Z with Z0 => _ | Z.pos _ => _ | Z.neg _ => _ end).
  pose proof (Z.sqrtrem_sqrt m') as Hq. pose proof (Z.sqrt_nonneg m') as Hs.
  destruct (Z.sqrtrem m') as [q r]. cbn [fst] in Hq. subst q. right.
  set (e' := Z.min _ _). set (l := if (r =? 0)%Z then _ else _).
  pose proof (binary_round_aux_signed false (Z.sqrt m') e' l Hs) as H.
  destruct (binary_round_aux _ _ _ _ _ _) as [s|s| |s m2 e2]; cbn in H |- *; subst; auto.
Qed.

Lemma sqrt_nonneg x : is_nan (sqrt x) = true \/ nonneg (sqrt x).
Proof.
  unfold nonneg. rewrite is_nan_true_iff, sqrt_spec. apply SFsqrt_nonneg.
Qed.

Lemma div_nonneg_l x c mc ec : Prim2SF c = S754_finite false mc ec -> nonneg x -> nonneg (x / c).
Proof.
  intros Hc Hx. unfold nonneg in *. rewrite div_spec, Hc. unfold SF64div.
  destruct (Prim2SF x) as [s|[|]| |[|] m e]; cbn [sf_nonneg] in Hx; try contradiction; try exact I.
  pose proof (SFdiv_finite_signed false m e false mc ec) as H.
  destruct (SFdiv _ _ _ _) as [s|s| |s m2 e2]; cbn in H |- *; subst; auto.
Qed.

Lemma div_number_pos x y my ey : is_nan x = false -> Prim2SF y = S754_finite false my ey ->
  is_nan (x / y) = false.
Proof.
  intros Hx Hy. apply is_nan_false_iff in Hx. apply is_nan_false_iff.
  rewrite div_spec, Hy. unfold SF64div.
  destruct (Prim2SF x) as [s|s| |s m e]; try congruence; try discriminate.
  eapply sf_signed_nan. apply SFdiv_finite_signed.
Qed.

Lemma sub_number x y : mag 1024 x -> is_nan y = false -> is_nan (x - y) = false.
Proof.
  intros Hx Hy. apply is_nan_false_iff in Hy. apply is_nan_false_iff.
  unfold mag in Hx. rewrite sub_spec. unfold SF64sub.
  destruct (Prim2SF x) as [sx|sx| |sx mx ex]; cbn [sf_mag] in Hx; try contradiction;
  destruct (Prim2SF y) as [sy|sy| |sy my ey]; try congruence; try discriminate.
  - destruct sx, sy; discriminate.
  - rewrite SFsub_finite. apply binary_normalize_nan.
Qed.

Lemma pow2_nonneg x : is_nan x = false -> nonneg (Math_pow2 x).
Proof.
  intros Hx. apply is_nan_false_iff in Hx. unfold nonneg, Math_pow2. rewrite mul_spec.
  unfold SF64mul. destruct (Prim2SF x) as [s|s| |s m e]; try congruence.
  - destruct s; exact I.
  - destruct s; exact I.
  - rewrite SFmul_finite.
    pose proof (binary_round_aux_signed (xorb s s) (Z.pos (m * m)) (e + e) loc_Exact ltac:(lia)) as H.
    rewrite xorb_nilpotent in *.
    destruct (binary_round_aux _ _ _ _ _ _) as [s2|s2| |s2 m2 e2]; cbn in H |- *; subst; auto.
Qed.

Lemma add_nonneg x y : nonneg x -> nonneg y -> nonneg (x + y).
Proof.
  unfold nonneg. rewrite add_spec. unfold SF64add. intros Hx Hy.
  destruct (Prim2SF x) as [sx|[|]| |[|] mx ex]; cbn [sf_nonneg] in Hx; try contradiction;
  destruct (Prim2SF y) as [sy|[|]| |[|] my ey]; cbn [sf_nonneg] in Hy; try contradiction;
    try exact I.
  - destruct sx, sy; exact I.
  - rewrite SFadd_finite. cbn [cond_Zopp].
    set (M := (_ + _)%Z). assert (HM : (0 < M)%Z) by (unfold M; lia).
    destruct M as [|p|p]; try lia. cbn [binary_normalize].
    pose proof (binary_round_signed false p (Z.min ex ey)) as H.
    destruct (binary_round _ _ _ _ _) as [s2|s2| |s2 m2 e2]; cbn in H |- *; subst; auto.
Qed.

Lemma sqrt_of_nonneg x : nonneg x -> nonneg (sqrt x).
Proof.
  intros Hx. destruct (sqrt_nonneg x) as [H|H]; [|exact H]. exfalso.
  apply is_nan_true_iff in H. rewrite sqrt_spec in H. unfold SF64sqrt, nonneg in *.
  destruct (Prim2SF x) as [s|[|]| |[|] m e]; cbn [sf_nonneg SFsqrt] in *;
    try contradiction; try discriminate.
  revert H. unfold SFsqrt_core_binary.
  set (m' := match (_ - _)%Z with Z0 => _ | Z.pos _ => _ | Z.neg _ => _ end).
  pose proof (Z.sqrtrem_sqrt m') as Hq. pose proof (Z.sqrt_nonneg m') as Hs.
  destruct (Z.sqrtrem m') as [q r]. cbn [fst] in Hq. subst q.
  eapply sf_signed_nan. apply binary_round_aux_signed. exact Hs.
Qed.

(** The length of a non-empty array is a positive finite Number. *)
Lemma Array_length_positive {A : Type} (l : list A) :
  l <> [] -> (Z.of_nat (List.length l) < 2 ^ 32)%Z ->
  exists m e, Prim2SF (Array_length l) = S754_finite false m e.
Proof.
  intros Hne Hlen. unfold Array_length. rewrite of_uint63_spec, Uint63.of_Z_spec.
  assert (Hpos : (0 < Z.of_nat (List.length l))%Z) by (destruct l; [congruence | cbn; lia]).
  rewrite Z.mod_small by (change Uint63.wB with (2 ^ 63)%Z; split; [lia|];
                          apply Z.lt_trans with (1 := Hlen); reflexivity).
  destruct (Z.of_nat (List.length l)) as [|p|p] eqn:En; try lia.
  cbn [binary_normalize].
  pose proof (binary_round_nonzero false p 0 ltac:(lia)) as Hnz.
  assert (Hd : (Z.pos (digits2_pos p) + 0 <= 32)%Z).
  { assert (Zdigits2 (Z.pos p) <= 32)%Z by (apply Zdigits2_bound; lia). cbn in H. lia. }
  pose proof (binary_round_mag false p 0 32 Hd ltac:(lia)) as Hmag.
  destruct (binary_round prec emax false p 0) as [s|s| |s m e]; cbn in Hnz, Hmag; try contradiction.
  subst s. exists m, e. reflexivity.
Qed.

(** ** Exact quotients and products *)

Section Quotients.

Local Open Scope Z_scope.

(** A finite value other than zero divided by itself is 1. *)
Lemma SFdiv_diag s m e : valid_binary (S754_finite s m e) = true ->
  SFdiv prec emax (S754_finite s m e) (S754_finite s m e)
  = S754_finite false 4503599627370496 (-52).
Proof.
  intros Hv. unfold SFdiv, SFdiv_core_binary. rewrite fexp64_eq.
  replace (Zdigits2 (Z.pos m) + e - (Zdigits2 (Z.pos m) + e)) with 0 by lia.
  rewrite Z.sub_diag. change (Z.min (fexp64 0) 0) with (-53). change (0 - -53) with 53.
  cbn [Z.ltb Z.compare]. rewrite Z.shiftl_mul_pow2 by lia.
  assert (Hq : Z.div_eucl (Z.pos m * 2 ^ 53) (Z.pos m) = (9007199254740992, 0)).
  { pose proof (Z.div_eucl_eq (Z.pos m * 2 ^ 53) (Z.pos m) ltac:(lia)) as Heq.
    pose proof (Z.mod_pos_bound (Z.pos m * 2 ^ 53) (Z.pos m) ltac:(lia)) as Hb.
    unfold Z.modulo in Hb.
    destruct (Z.div_eucl (Z.pos m * 2 ^ 53) (Z.pos m)) as [q r].
    change (2 ^ 53) with 9007199254740992 in *.
    assert (q = 9007199254740992) by nia. subst q. f_equal. lia. }
  rewrite Hq.
  assert (Hl : new_location (Z.pos m) 0 = loc_Exact).
  { unfold new_location. destruct (Z.even (Z.pos m)); reflexivity. }
  rewrite Hl. destruct s; cbn [xorb];
    change 9007199254740992 with (Z.pos 4503599627370496~0);
    rewrite binary_round_aux_even by (cbn; lia); reflexivity.
Qed.

(** The quotient by a positive finite value of magnitude [2^(j-1)] at
    least. *)
Lemma SFdiv_below k j x my ey : sf_below k x -> Z.pos (digits2_pos my) + ey = j ->
  -1074 <= k - j + 1 <= 970 ->
  sf_below (k - j + 2) (SFdiv prec emax x (S754_finite false my ey)).
Proof.
  intros Hx Hj Hk.
  destruct x as [sx|sx| |[|] mx ex]; cbn [sf_below] in Hx; try contradiction.
  - exact I.
  - subst sx. reflexivity.
  - apply sf_signed_true_below. apply (SFdiv_finite_signed true mx ex false my ey).
  - apply sf_mag_below. unfold SFdiv, SFdiv_core_binary. cbn [xorb Zdigits2].
    set (d1 := Z.pos (digits2_pos mx)) in *. set (d2 := Z.pos (digits2_pos my)) in *.
    set (e' := Z.min (fexp prec emax (d1 + ex - (d2 + ey))) (ex - ey)).
    assert (He' : e' <= ex - ey) by (unfold e'; lia).
    set (s := ex - ey - e').
    set (m' := match s with Z0 => Z.pos mx | Z.pos _ => Z.shiftl (Z.pos mx) s | Z.neg _ => 0 end).
    assert (Hm' : m' = Z.pos mx * 2 ^ s).
    { unfold m'. destruct s as [|p|p] eqn:Es; [lia| |lia]. apply Z.shiftl_mul_pow2. lia. }
    assert (Hs : 0 <= s) by (unfold s; lia).
    assert (H1 : Z.pos mx < 2 ^ d1) by (apply (Zdigits2_high (Z.pos mx)); lia).
    assert (H2 : 2 ^ (d2 - 1) <= Z.pos my) by (apply (Zdigits2_low (Z.pos my)); lia).
    assert (Hd1 : 0 < d1) by (unfold d1; lia). assert (Hd2 : 0 < d2) by (unfold d2; lia).
    assert (Hps : 0 < 2 ^ s) by (apply Z.pow_pos_nonneg; lia).
    assert (Hpd : 0 < 2 ^ (d2 - 1)) by (apply Z.pow_pos_nonneg; lia).
    assert (He'' : e' <= k - j + 1).
    { unfold e'. rewrite fexp64_eq. unfold fexp64. unfold d1, d2 in *. lia. }
    pose proof (Z.div_pos m' (Z.pos my) ltac:(lia) ltac:(lia)) as Hq0.
    pose proof (Z.mul_div_le m' (Z.pos my) ltac:(lia)) as Hqm.
    assert (Hlt : m' < 2 ^ (d1 + s)) by (rewrite Hm', Z.pow_add_r by lia; nia).
    assert (Hdig : Zdigits2 (m' / Z.pos my) + e' <= k - j + 1).
    { destruct (Z.eq_dec (m' / Z.pos my) 0) as [Hz|Hnz]; [rewrite Hz; cbn [Zdigits2]; lia|].
      assert (Hq1 : 1 <= m' / Z.pos my) by lia.
      destruct (Z_le_gt_dec (d1 + s - d2 + 1) 0) as [Hneg|Hpos].
      - exfalso. assert (2 ^ (d1 + s) <= 2 ^ (d2 - 1)) by (apply Z.pow_le_mono_r; lia). nia.
      - assert (Hb : m' / Z.pos my < 2 ^ (d1 + s - d2 + 1)).
        { assert (2 ^ (d1 + s) = 2 ^ (d2 - 1) * 2 ^ (d1 + s - d2 + 1))
            by (rewrite <- Z.pow_add_r by lia; f_equal; lia).
          assert (0 < 2 ^ (d1 + s - d2 + 1)) by (apply Z.pow_pos_nonneg; lia). nia. }
        apply Zdigits2_bound in Hb; lia. }
    unfold Z.div in Hdig, Hq0. destruct (Z.div_eucl m' (Z.pos my)) as [q r]. cbn [fst] in Hdig, Hq0.
    replace (k - j + 2) with ((k - j + 1) + 1) by lia.
    apply binary_round_aux_mag; [exact Hq0 | exact Hdig | exact Hk].
Qed.

Ltac widths :=
  change (2 ^ (105 - 53)) with 4503599627370496 in *;
  change (2 ^ (106 - 53)) with 9007199254740992 in *;
  change (2 ^ 52) with 4503599627370496 in *;
  change (2 ^ 53) with 9007199254740992 in *;
  change (2 ^ (105 - 1)) with 20282409603651670423947251286016 in *;
  change (2 ^ 105) with 40564819207303340847894502572032 in *;
  change (2 ^ (106 - 1)) with 40564819207303340847894502572032 in *;
  change (2 ^ 106) with 81129638414606681695789005144064 in *.

(** From 1 on, the product with 0.8 is at least 0.8. *)
Lemma SFmul_08_floor m e : 2 ^ 52 <= Z.pos m < 2 ^ 53 -> -52 <= e <= -49 ->
  lex_le (key (S754_finite false 7205759403792794 (-53)))
         (key (SFmul prec emax (S754_finite false m e) (S754_finite false 7205759403792794 (-53)))).
Proof.
  intros Hm He. rewrite SFmul_finite. cbn [xorb].
  destruct (product_width (Z.pos m) 7205759403792794 Hm ltac:(cbn; lia)) as (d & Hd & HP).
  rewrite Pos2Z.inj_mul.
  destruct (binary_round_aux_product false (Z.pos m * 7205759403792794) (e + -53) d Hd HP ltac:(lia))
    as (m2 & e2 & -> & Hm2 & Hcases).
  cbn [key lex_le]. rewrite Z2Pos.id by assumption.
  pose proof (div_pow2_bounds (Z.pos m * 7205759403792794) (d - 53) ltac:(lia)) as Hdiv.
  assert (d = 105 \/ d = 106) as [-> | ->] by lia; widths; lia.
Qed.

(** Up to 10, the product with 1.2 is at most 12. *)
Lemma SFmul_12_ceiling m e : 2 ^ 52 <= Z.pos m < 2 ^ 53 -> -52 <= e <= -49 ->
  (e < -49 \/ Z.pos m <= 5629499534213120) ->
  lex_le (key (SFmul prec emax (S754_finite false m e) (S754_finite false 5404319552844595 (-52))))
         (key (S754_finite false 6755399441055744 (-49))).
Proof.
  intros Hm He Hten. rewrite SFmul_finite. cbn [xorb].
  destruct (product_width (Z.pos m) 5404319552844595 Hm ltac:(cbn; lia)) as (d & Hd & HP).
  rewrite Pos2Z.inj_mul.
  destruct (binary_round_aux_product false (Z.pos m * 5404319552844595) (e + -52) d Hd HP ltac:(lia))
    as (m2 & e2 & -> & Hm2 & Hcases).
  cbn [key lex_le]. rewrite Z2Pos.id by assumption.
  pose proof (div_pow2_bounds (Z.pos m * 5404319552844595) (d - 53) ltac:(lia)) as Hdiv.
  assert (d = 105 \/ d = 106) as [-> | ->] by lia; widths; lia.
Qed.

(** The product with 1 is exact. *)
Lemma SFmul_one m e : 2 ^ 52 <= Z.pos m < 2 ^ 53 -> -1000 <= e <= 900 ->
  SFmul prec emax (S754_finite false m e) (S754_finite false 4503599627370496 (-52))
  = S754_finite false m e.
Proof.
  intros Hm He. rewrite SFmul_finite. cbn [xorb]. rewrite Pos2Z.inj_mul.
  set (P := Z.pos m * 4503599627370496).
  change (2 ^ 52) with 4503599627370496 in Hm. change (2 ^ 53) with 9007199254740992 in Hm.
  assert (HP : 2 ^ (105 - 1) <= P < 2 ^ 105) by (unfold P; widths; lia).
  assert (Hd : Zdigits2 P = 105) by (apply Zdigits2_eq; [lia | exact HP]).
  pose proof (binary_round_aux_down false P (e + -52) ltac:(unfold P; lia)) as Hdown.
  cbv zeta in Hdown. rewrite Hd in Hdown.
  replace (Z.max (e + -52) (fexp64 (105 + (e + -52)))) with e in Hdown by (unfold fexp64; lia).
  replace (e - (e + -52)) with 52 in Hdown by lia.
  replace (e - (e + -52) - 1) with 51 in Hdown by lia.
  assert (Hq : P / 2 ^ 52 = Z.pos m) by (unfold P; apply Z.div_mul; discriminate).
  rewrite Hq in Hdown.
  rewrite (Zdigits2_eq (Z.pos m) 53) in Hdown
    by (change (2 ^ (53 - 1)) with 4503599627370496; change (2 ^ 53) with 9007199254740992; lia).
  replace (Z.max e (fexp64 (53 + e))) with e in Hdown by (unfold fexp64; lia).
  rewrite Z.sub_diag, Z.div_1_r in Hdown.
  replace (e <=? emax - prec) with true in Hdown
    by (symmetry; apply Z.leb_le; change (emax - prec) with 971; lia).
  apply Hdown; [lia|]. unfold P. change 4503599627370496 with (2 ^ 52).
  apply Z.mul_pow2_bits_low. lia.
Qed.

End Quotients.

Lemma div_diag x : is_finite x = true -> (x =? 0) = false -> x / x = 1.
Proof.
  intros Hf Hz. apply Prim2SF_inj. rewrite div_spec.
  change (Prim2SF 1) with (S754_finite false 4503599627370496 (-52)).
  pose proof (Prim2SF_valid x) as Hv. apply is_finite_mag in Hf. unfold mag in Hf.
  destruct (Prim2SF x) as [s|s| |s m e] eqn:Ex; cbn [sf_mag] in Hf; try contradiction.
  - exfalso. assert (Ht : (x =? 0) = true); [|congruence].
    apply eqb_true_iff. split; [apply is_nan_false_iff; congruence|]. split; [reflexivity|].
    unfold fkey. rewrite Ex. reflexivity.
  - apply SFdiv_diag. exact Hv.
Qed.

Lemma div_below k j x c mc ec : Prim2SF c = S754_finite false mc ec ->
  (Z.pos (digits2_pos mc) + ec = j)%Z -> below k x -> (-1074 <= k - j + 1 <= 970)%Z ->
  below (k - j + 2) (x / c).
Proof.
  intros Hc Hj Hx Hk. unfold below in *. rewrite div_spec, Hc. unfold SF64div.
  apply SFdiv_below; assumption.
Qed.

(** [Math.min(a, 0.5)] from 0.5 on. *)
Lemma Math_min_half a : (0.5 <=? a) = true -> Math_min a 0.5 = 0.5.
Proof.
  intros H. pose proof H as H'. apply leb_true_iff in H'. destruct H' as (_ & Ha & Hk).
  unfold Math_min. rewrite Ha. change (is_nan 0.5) with false. cbn [orb].
  assert (E1 : (a <? 0.5) = false) by (apply ltb_false_iff; auto).
  rewrite E1. destruct (0.5 <? a); [reflexivity|].
  assert (Ez : is_zero a = false).
  { unfold is_zero. destruct (a =? PrimFloat.zero) eqn:E; [|reflexivity].
    apply eqb_true_iff in E. destruct E as (_ & _ & E). rewrite E in Hk.
    exfalso. revert Hk. unfold fkey.
    change (Prim2SF 0.5) with (S754_finite false 4503599627370496 (-53)).
    change (Prim2SF PrimFloat.zero) with (S754_zero false). cbn [key lex_le]. lia. }
  rewrite Ez. reflexivity.
Qed.

(** A score in its range, with the bound 10 on the mantissa. *)
Lemma score_range_key x : inScoreRange x ->
  exists m e, Prim2SF x = S754_finite false m e /\
    (2 ^ 52 <= Z.pos m < 2 ^ 53 /\ -52 <= e <= -49 /\
     (e < -49 \/ Z.pos m <= 5629499534213120))%Z.
Proof.
  intros Hx. destruct (score_range_shape x Hx) as (m & e & Ex & Hm & He).
  exists m, e. split; [exact Ex|]. split; [exact Hm|]. split; [exact He|].
  destruct Hx as [_ H10]. apply leb_true_iff in H10. destruct H10 as (_ & _ & H10).
  unfold fkey in H10. rewrite Ex in H10.
  change (Prim2SF 10) with (S754_finite false 5629499534213120 (-49)) in H10.
  cbn [key lex_le] in H10. lia.
Qed.

Lemma mul_08_floor x : inScoreRange x -> (0.8 <=? x * 0.8) = true.
Proof.
  intros Hx. destruct (score_range_shape x Hx) as (m & e & Ex & Hm & He).
  apply leb_true_iff. rewrite !is_nan_false_iff. unfold fkey. rewrite mul_spec, Ex.
  change (Prim2SF 0.8) with (S754_finite false 7205759403792794 (-53)). unfold SF64mul.
  split; [discriminate|]. split; [apply SFmul_nan; discriminate|].
  apply SFmul_08_floor; assumption.
Qed.

Lemma mul_12_ceiling x : inScoreRange x -> (x * 1.2 <=? 12) = true.
Proof.
  intros Hx. destruct (score_range_key x Hx) as (m & e & Ex & Hm & He & Hten).
  apply leb_true_iff. rewrite !is_nan_false_iff. unfold fkey. rewrite mul_spec, Ex.
  change (Prim2SF 1.2) with (S754_finite false 5404319552844595 (-52)).
  change (Prim2SF 12) with (S754_finite false 6755399441055744 (-49)). unfold SF64mul.
  split; [apply SFmul_nan; discriminate|]. split; [discriminate|].
  apply SFmul_12_ceiling; assumption.
Qed.

Lemma mul_one x : inScoreRange x -> x * 1 = x.
Proof.
  intros Hx. destruct (score_range_shape x Hx) as (m & e & Ex & Hm & He).
  apply Prim2SF_inj. rewrite mul_spec, Ex.
  change (Prim2SF 1) with (S754_finite false 4503599627370496 (-52)).
  apply SFmul_one; [exact Hm | lia].
Qed.

(** A Number between two positive finite values is positive and
    finite. *)
Lemma between_finite r lo hi mlo elo mhi ehi :
  Prim2SF lo = S754_finite false mlo elo -> Prim2SF hi = S754_finite false mhi ehi ->
  (lo <=? r) = true -> (r <=? hi) = true ->
  exists m e, Prim2SF r = S754_finite false m e.
Proof.
  intros Hlo Hhi H1 H2. apply leb_true_iff in H1, H2.
  destruct H1 as (_ & Hr & H1), H2 as (_ & _ & H2). apply is_nan_false_iff in Hr.
  unfold fkey in H1, H2. rewrite Hlo in H1. rewrite Hhi in H2.
  destruct (Prim2SF r) as [s|[|]| |[|] m e]; shapes; try lia; try congruence.
  exists m, e. reflexivity.
Qed.

(** [(change + 100) / 100] for a change that is [null] or at most 1e15. *)
Lemma change_term_below (change : option float) :
  (forall v, change = Some v -> (v <=? 1e15) = true) ->
  below 47 ((ToNumber change + 100) / 100).
Proof.
  intros H. destruct change as [v|]; cbn [ToNumber].
  - specialize (H v eq_refl).
    pose proof (leb_true_below v 1e15 8000000000000000 (-3) eq_refl H) as Hv.
    assert (H100 : below 50 100) by (unfold below; vm_compute; discriminate).
    pose proof (add_below 50 v 100 (below_mono (53 + -3) 50 v ltac:(lia) Hv) H100 ltac:(lia)) as Hs.
    apply (div_below 52 7 _ 100 7036874417766400 (-46) eq_refl eq_refl Hs). lia.
  - unfold below. vm_compute. discriminate.
Qed.

Lemma Math_max_tenth y k : below k y ->
  exists m e, Prim2SF (Math_max 0.1 y) = S754_finite false m e.
Proof.
  intros Hy. pose proof (below_number _ _ Hy) as Hn.
  destruct (Math_max_spec 0.1 y eq_refl Hn) as (H1 & _ & [E|E]).
  - rewrite E. eexists. eexists. reflexivity.
  - rewrite E in *. apply leb_true_iff in H1. destruct H1 as (_ & _ & H1).
    unfold fkey in H1. change (Prim2SF 0.1) with (S754_finite false 7205759403792794 (-56)) in H1.
    unfold below in Hy.
    destruct (Prim2SF y) as [s|[|]| |[|] m e]; shapes; try lia; try discriminate.
    exists m, e. reflexivity.
Qed.

(** ** Sums over a series *)

Lemma sum_number l : forall acc, is_nan acc = false ->
  Forall (fun x => is_finite x = true) l -> is_nan (fold_left add l acc) = false.
Proof.
  induction l as [|x r IH]; intros acc Hacc Hl; [exact Hacc|].
  inversion Hl as [|? ? Hx Hr]; subst. cbn [fold_left]. apply IH; [|exact Hr].
  apply add_number; [exact Hacc | apply is_finite_mag; exact Hx].
Qed.

Lemma squares_nonneg mean l : is_nan mean = false -> forall acc, nonneg acc ->
  Forall (fun x => is_finite x = true) l ->
  nonneg (fold_left (fun a b => a + Math_pow2 (b - mean)) l acc).
Proof.
  intros Hm. induction l as [|x r IH]; intros acc Hacc Hl; [exact Hacc|].
  inversion Hl as [|? ? Hx Hr]; subst. cbn [fold_left]. apply IH; [|exact Hr].
  apply add_nonneg; [exact Hacc|]. apply pow2_nonneg, sub_number; [|exact Hm].
  apply is_finite_mag. exact Hx.
Qed.

(** ** Sorting by a key, descending *)

Section SortByKey.

Context {A : Type} (sortKey : A -> float).

Let descendingKeys (a b : A) : Prop :=
  is_nan (sortKey a) = false -> is_nan (sortKey b) = false -> (sortKey b <=? sortKey a) = true.

Let byKey (a b : A) : float := sortKey b - sortKey a.

Lemma sort_insert_by_key x l :
  chain descendingKeys l -> chain descendingKeys (sort_insert byKey x l).
Proof.
  assert (Hmoved : forall a b, (0 <? byKey a b) = true -> descendingKeys b a).
  { intros a b H _ _. unfold byKey in H. rewrite sub_pos_ltb in H. apply ltb_leb. exact H. }
  assert (Hkept : forall a b, (0 <? byKey a b) = false -> descendingKeys a b).
  { intros a b H Ha Hb. unfold byKey in H. rewrite sub_pos_ltb in H.
    apply not_ltb_leb; assumption. }
  induction l as [|y r IH]; intros Hl; [exact I|]. cbn [sort_insert].
  destruct (0 <? byKey x y) eqn:E.
  - specialize (IH (chain_tail _ _ _ Hl)). destruct r as [|z r'].
    + cbn. split; [apply Hmoved; assumption | exact I].
    + cbn [sort_insert] in *. destruct (0 <? byKey x z).
      * split; [apply Hl | exact IH].
      * split; [apply Hmoved; assumption | exact IH].
  - split; [apply Hkept; assumption | exact Hl].
Qed.

Lemma Array_sort_by_key l : chain descendingKeys (Array_sort byKey l).
Proof.
  induction l as [|x r IH]; [exact I|]. unfold Array_sort in *. cbn [fold_right].
  apply sort_insert_by_key. exact IH.
Qed.

End SortByKey.

Lemma chain_Forall_impl {A : Type} (R S : A -> A -> Prop) (P : A -> Prop) l :
  (forall a b, P a -> P b -> R a b -> S a b) -> Forall P l -> chain R l -> chain S l.
Proof.
  intros HRS. induction l as [|a [|b r] IH]; intros HP Hc; try exact I.
  destruct Hc as [Hab Hr]. inversion HP as [|? ? Ha HP']; subst.
  inversion HP' as [|? ? Hb _]; subst. split; [apply HRS; assumption | apply IH; assumption].
Qed.

(** ** The market cycle *)

Section Cycle.

Import BitcoinDominanceAnalyzer.
Local Open Scope string_scope.

(** X1.  The phase and the impacts agree, although [determineCyclePhase]
    and [calculateBTCImpact] test the thresholds separately: the phase
    is btc_dominance exactly when the impacts are 1.2 for BTC and 0.8
    for the others, altcoin_season exactly when they are 0.8 and 1.2,
    and of medium strength exactly when both are 1.  This holds for
    every dominance, NaN included. *)
Theorem phase_matches_impact (dominance : float) :
  let phase := determineCyclePhase dominance in
  let impact := assessMarketImpact dominance in
  (phase_name phase = "btc_dominance" <->
     btcImpact impact = 1.2%float /\ altcoinImpact impact = 0.8%float) /\
  (phase_name phase = "altcoin_season" <->
     btcImpact impact = 0.8%float /\ altcoinImpact impact = 1.2%float) /\
  (strength phase = "medium" <->
     btcImpact impact = 1%float /\ altcoinImpact impact = 1%float) /\
  (strength phase = "high" \/ strength phase = "medium").
Proof.
  cbv zeta. unfold determineCyclePhase, assessMarketImpact, calculateAltcoinImpact, calculateBTCImpact.
  cbn [btcImpact altcoinImpact].
  destruct (thresholds.HIGH <=? dominance)%float;
    [|destruct (dominance <=? thresholds.LOW)%float;
       [|destruct (dominance <? thresholds.MEDIUM)%float]];
    cbn [phase_name strength];
    repeat split; try reflexivity;
    try (match goal with H : _ = _ |- _ => discriminate H end);
    try (intros [H _]; exfalso; revert H; float_neq);
    try (intros H; discriminate H); auto.
Qed.

(** X2.  [generateRecommendations] returns exactly one recommendation;
    its type follows the phase (BTC_FOCUS, ALT_FOCUS, MIXED,
    CONSERVATIVE), and its confidence is Alta exactly when the phase is
    of high strength. *)
Theorem one_recommendation (dominance : float) :
  exists r, generateRecommendations dominance = [r] /\
    (confidence r = "Alta" <-> strength (determineCyclePhase dominance) = "high") /\
    (rec_type r = "BTC_FOCUS" <-> phase_name (determineCyclePhase dominance) = "btc_dominance") /\
    (rec_type r = "ALT_FOCUS" <-> phase_name (determineCyclePhase dominance) = "altcoin_season") /\
    (rec_type r = "MIXED" <-> phase_name (determineCyclePhase dominance) = "transition") /\
    (rec_type r = "CONSERVATIVE" <-> phase_name (determineCyclePhase dominance) = "accumulation").
Proof.
  unfold generateRecommendations, determineCyclePhase.
  destruct (thresholds.HIGH <=? dominance)%float;
    [|destruct (dominance <=? thresholds.LOW)%float;
       [|destruct (dominance <? thresholds.MEDIUM)%float]];
    cbn; eexists; (split; [reflexivity|]); cbn;
    repeat split; intros H; try reflexivity; discriminate H.
Qed.

(** X15.  For an investment score in [1,10] and a dominance state made
    by the analyzer the adjusted score lies between 0.8 and 12: the
    impact 1.2 takes it above the scale of 10 the scores are shown
    on. *)
Theorem adjustedScore_bounds (analysis : BaseAnalysis) (dominance : float) :
  inScoreRange (investmentScore analysis) ->
  let adjusted := adjustedScore (adjustForBTCDominance analysis (marketCycleOf dominance)) in
  (0.8 <=? adjusted)%float = true /\ (adjusted <=? 12)%float = true.
Proof.
  intros Hx. cbv zeta. rewrite applied_impact.
  pose proof Hx as [H1 H10].
  assert (Hlow : (0.8 <=? investmentScore analysis)%float = true)
    by (eapply leb_trans; [|exact H1]; reflexivity).
  assert (Hhigh : (investmentScore analysis <=? 12)%float = true)
    by (eapply leb_trans; [exact H10|]; reflexivity).
  assert (H08 : (0.8 <=? investmentScore analysis * 0.8)%float = true /\
                (investmentScore analysis * 0.8 <=? 12)%float = true).
  { split; [apply mul_08_floor; exact Hx|].
    eapply leb_trans; [apply ltb_leb, mul_08_lt; exact Hx | exact Hhigh]. }
  assert (H12 : (0.8 <=? investmentScore analysis * 1.2)%float = true /\
                (investmentScore analysis * 1.2 <=? 12)%float = true).
  { split; [|apply mul_12_ceiling; exact Hx].
    eapply leb_trans; [exact Hlow | apply ltb_leb, mul_12_gt; exact Hx]. }
  destruct (analyzer_impacts dominance) as [[Hb Ha] | [[Hb Ha] | [Hb Ha]]];
    cbv zeta in Hb, Ha; rewrite Hb, Ha; destruct (String.eqb _ _);
    rewrite ?mul_one by exact Hx; auto.
Qed.

Lemma adjustedScore_bounds_witness :
  let adjusted := adjustedScore (adjustForBTCDominance (sampleBase "BTC" 10) (marketCycleOf 65)) in
  adjusted = 12%float /\ (0.8 <=? adjusted)%float = true /\ (adjusted <=? 12)%float = true.
Proof.
  cbv zeta. split; [reflexivity|].
  apply (adjustedScore_bounds (sampleBase "BTC" 10) 65). split; reflexivity.
Defined.

End Cycle.

(** ** One token *)

Section Calls.

Variable log10_approx : float -> float.
Variable coinbaseTokens : list string.
Variable net : Network.

Local Open Scope string_scope.

Local Abbreviation analyze := (analyzeToken log10_approx coinbaseTokens net).
Local Abbreviation loop := (scanLoop log10_approx coinbaseTokens net).
Local Abbreviation scan := (scanTopOpportunities log10_approx coinbaseTokens net).

(** [analyzeMarketCycle] wraps the message of [getCurrentDominance],
    which wraps the one of the request. *)
Lemma analyzeMarketCycle_unfold (s : Session) :
  analyzeMarketCycle net s =
  (match global_metrics net (dominance_sent s) with
   | Normal dominance => Normal (BitcoinDominanceAnalyzer.marketCycleOf dominance)
   | Throw message =>
       Throw ("Error en análisis de ciclo: Error obteniendo dominancia BTC: " ++ message)
   end,
   {| listings_sent := listings_sent s; quotes_sent := quotes_sent s;
      dominance_sent := S (dominance_sent s); logged := logged s |}).
Proof.
  unfold analyzeMarketCycle, getCurrentDominance, try_catch, bind, axios_get_global_metrics, ret, throw.
  destruct (global_metrics net (dominance_sent s)); reflexivity.
Qed.

(** X3.  What [analyzeToken] returns.  It always sends one quote request
    (for the upper-cased symbol) and one dominance request.  With both
    answered and the coin in the answer it returns the adjusted base
    analysis of that coin; a missing coin throws "Token no encontrado",
    a failed quote request its own message, and a failed dominance
    request that message wrapped twice, each time behind
    "Error analizando <symbol>: ".  It returns an analysis in no other
    case. *)
Theorem analyzeToken_outcome (symbol : string) (s : Session) :
  let asked := toUpperCase symbol in
  let quotes := quotes_latest net (quotes_sent s) asked in
  let reading := global_metrics net (dominance_sent s) in
  let outcome := fst (analyze symbol s) in
  snd (analyze symbol s) = afterToken s /\
  (forall data coinData dominance,
     quotes = Normal data -> data asked = Some coinData -> reading = Normal dominance ->
     outcome = Normal (adjustForBTCDominance
                         (performBaseAnalysis log10_approx coinbaseTokens coinData)
                         (BitcoinDominanceAnalyzer.marketCycleOf dominance))) /\
  (forall data dominance,
     quotes = Normal data -> data asked = None -> reading = Normal dominance ->
     outcome = Throw ("Error analizando " ++ symbol ++ ": Token no encontrado")) /\
  (forall message dominance,
     quotes = Throw message -> reading = Normal dominance ->
     outcome = Throw ("Error analizando " ++ symbol ++ ": " ++ message)) /\
  (forall data message,
     quotes = Normal data -> reading = Throw message ->
     outcome = Throw ("Error analizando " ++ symbol ++
                      ": Error en análisis de ciclo: Error obteniendo dominancia BTC: " ++ message)) /\
  (forall a, outcome = Normal a ->
     exists data coinData dominance,
       quotes = Normal data /\ data asked = Some coinData /\ reading = Normal dominance).
Proof.
  cbv zeta. unfold analyzeToken, try_catch, bind, Promise_all, axios_get_quotes.
  rewrite analyzeMarketCycle_unfold.
  cbn [quotes_sent dominance_sent listings_sent logged].
  unfold afterToken, ret, throw.
  destruct (quotes_latest net (quotes_sent s) (toUpperCase symbol)) as [data|m];
    destruct (global_metrics net (dominance_sent s)) as [d|m'];
    try destruct (data (toUpperCase symbol)) as [coin|] eqn:Ec; cbn [fst snd];
    repeat split; try congruence; try discriminate;
    try (intros; match goal with H : Normal _ = Normal _ |- _ => inversion H; subst end;
         congruence).
  - intros a Ha. exists data, coin, d. auto.
  - intros data0 message _ H. inversion H. reflexivity.
  - intros data0 message _ H. inversion H. reflexivity.
Qed.

(** Upper-casing twice is upper-casing once. *)
Lemma toUpperCase_ascii_idempotent c :
  toUpperCase_ascii (toUpperCase_ascii c) = toUpperCase_ascii c.
Proof. destruct c as [[] [] [] [] [] [] [] []]; reflexivity. Qed.

Lemma toUpperCase_idempotent symbol : toUpperCase (toUpperCase symbol) = toUpperCase symbol.
Proof.
  induction symbol as [|c r IH]; [reflexivity|]. cbn [toUpperCase].
  rewrite toUpperCase_ascii_idempotent, IH. reflexivity.
Qed.

(** X4.  [analyzeToken] does not depend on the case of the letters of
    the symbol: the call with the upper-cased symbol sends the same
    requests and returns the same analysis when one returns an
    analysis (the messages thrown differ in the symbol they quote). *)
Theorem analyzeToken_ignores_case (symbol : string) (s : Session) :
  snd (analyze symbol s) = snd (analyze (toUpperCase symbol) s) /\
  (forall a, fst (analyze symbol s) = Normal a <->
             fst (analyze (toUpperCase symbol) s) = Normal a).
Proof.
  unfold analyzeToken, try_catch. rewrite toUpperCase_idempotent.
  destruct (bind _ _ s) as [[a|message] s']; cbn [fst snd throw].
  - split; [reflexivity|]. intros a'. reflexivity.
  - split; [reflexivity|]. intros a'. split; discriminate.
Qed.

(** X5.  When the listing request fails, [scanTopOpportunities] throws
    its message behind "Error escaneando oportunidades: "; no quote and
    no dominance is requested and nothing is logged. *)
Theorem scan_fails_with_listing (s : Session) (message : string) :
  listings_latest net (listings_sent s) = Throw message ->
  scan s = (Throw ("Error escaneando oportunidades: " ++ message), afterListing s).
Proof. intros H. rewrite scan_unfold, H. reflexivity. Qed.

(** What [analyzeToken] throws names the symbol. *)
Lemma analyzeToken_throws symbol s message :
  fst (analyze symbol s) = Throw message ->
  exists cause, message = "Error analizando " ++ symbol ++ ": " ++ cause.
Proof.
  unfold analyzeToken, try_catch.
  destruct (bind _ _ s) as [[a|m] s']; cbn [fst throw]; [discriminate|].
  intros H. inversion H. exists m. reflexivity.
Qed.

Lemma scanLoop_log coins : forall opportunities s,
  exists analysed dropped s',
    loop coins opportunities s = (Normal analysed, s') /\
    logged s' = (logged s ++ dropped)%list /\
    Forall (droppedLine coins) dropped.
Proof.
  induction coins as [|coin rest IH]; intros opportunities s.
  - exists opportunities, [], s. cbn [scanLoop ret]. rewrite app_nil_r. auto.
  - cbn [scanLoop]. unfold bind at 1. unfold try_catch at 1. unfold bind at 1.
    destruct (analyzeToken_requests log10_approx coinbaseTokens net (coin_symbol coin) s)
      as (r & Ea & _).
    rewrite Ea. destruct r as [a|message].
    + cbv [ret].
      destruct (IH (opportunities ++ [a])%list (afterToken s))
        as (analysed & dropped & s' & Hl & Hlog & Hd).
      exists analysed, dropped, s'. split; [exact Hl|]. split; [exact Hlog|].
      eapply Forall_impl; [|exact Hd]. intros line (c & cause & Hin & Hline).
      exists c, cause. split; [right; exact Hin | exact Hline].
    + cbv [log bind ret].
      set (s2 := Build_Session _ _ _ _).
      destruct (IH opportunities s2) as (analysed & dropped & s' & Hl & Hlog & Hd).
      destruct (analyzeToken_throws (coin_symbol coin) s message) as (cause & Hcause);
        [rewrite Ea; reflexivity|].
      exists analysed, (("Error analizando " ++ coin_symbol coin ++ ": " ++ message)%string :: dropped), s'.
      split; [exact Hl|]. split.
      * rewrite Hlog. subst s2. cbn [logged afterToken]. rewrite <- app_assoc. reflexivity.
      * constructor.
        -- exists coin, cause. split; [left; reflexivity|]. rewrite Hcause. reflexivity.
        -- eapply Forall_impl; [|exact Hd]. intros line (c & cause' & Hin & Hline).
           exists c, cause'. split; [right; exact Hin | exact Hline].
Qed.

(** X6.  Every line a scan adds to the log belongs to a listed coin and
    names it twice,
    "Error analizando <symbol>: Error analizando <symbol>: <cause>":
    [analyzeToken] has put the prefix on the message already when
    [scanTopOpportunities] puts it on again. *)
Theorem scan_log_lines (s : Session) (coins : list CoinData) :
  listings_latest net (listings_sent s) = Normal coins ->
  exists out s' dropped,
    scan s = (Normal out, s') /\
    logged s' = (logged s ++ dropped)%list /\
    Forall (droppedLine coins) dropped.
Proof.
  intros Hl. rewrite scan_unfold, Hl.
  set (s1 := Build_Session _ _ _ _).
  destruct (scanLoop_log coins [] s1) as (analysed & dropped & s' & El & Hlog & Hd).
  rewrite El. exists (Array_slice0 10 (Array_sort byAdjustedScore analysed)), s', dropped.
  split; [reflexivity|]. split; [exact Hlog | exact Hd].
Qed.

End Calls.

Lemma scan_fails_with_listing_witness :
  scanTopOpportunities log10_sample [] offline start =
  (Throw "Error escaneando oportunidades: timeout"%string, afterListing start).
Proof. apply (scan_fails_with_listing log10_sample [] offline start "timeout"). reflexivity. Defined.

Lemma scan_log_lines_witness :
  exists out s' dropped,
    scanTopOpportunities log10_sample [] (withoutQuotes twoCoins) start = (Normal out, s') /\
    logged s' = (logged start ++ dropped)%list /\
    Forall (droppedLine twoCoins) dropped.
Proof. apply (scan_log_lines log10_sample [] (withoutQuotes twoCoins) start twoCoins). reflexivity. Defined.

(** The two lines of that log. *)
Example scan_log_of_failed_quotes :
  logged (snd (scanTopOpportunities log10_sample [] (withoutQuotes twoCoins) start)) =
  [ "Error analizando DEAD: Error analizando DEAD: timeout";
    "Error analizando LIVE: Error analizando LIVE: timeout" ]%string.
Proof. reflexivity. Qed.

(** ** The metrics *)

(** X7.  Whatever the series, the volatility score is NaN or lies in
    [0,1]: it is never negative and never above 1. *)
Theorem volatility_score_bounds (priceChanges : list float) :
  let s := score (calculateVolatilityScore priceChanges) in
  is_nan s = true \/ ((0 <=? s) = true /\ (s <=? 1) = true).
Proof.
  cbv zeta. unfold calculateVolatilityScore. cbn [score].
  set (d := stdDev priceChanges).
  assert (Hd : is_nan d = true \/ nonneg d) by apply sqrt_nonneg.
  change constants.VOLATILITY_THRESHOLDS.HIGH with 25.
  destruct Hd as [Hd|Hd].
  - left. rewrite (Math_min_nan (d / 25) 1); [reflexivity|]. left. apply div_nan_l. exact Hd.
  - right. pose proof (div_nonneg_l d 25 7036874417766400 (-48) eq_refl Hd) as Hq.
    pose proof (nonneg_number _ Hq) as Hn.
    destruct (Math_min_spec (d / 25) 1 Hn eq_refl) as (_ & H1 & [E|E]).
    + split; [|exact H1]. rewrite E. apply nonneg_leb_zero. exact Hq.
    + split; [|exact H1]. rewrite E. reflexivity.
Qed.

(** X8.  For a series that is not empty and holds finite values only,
    the volatility score is a Number in [0,1], however large the
    values: an overflow of the sums gives Infinity, never NaN.  The
    empty series is the only one of finite values with a NaN score. *)
Theorem volatility_score_of_finite_series (priceChanges : list float) :
  priceChanges <> [] -> (Z.of_nat (List.length priceChanges) < 2 ^ 32)%Z ->
  Forall (fun x => is_finite x = true) priceChanges ->
  let s := score (calculateVolatilityScore priceChanges) in
  (0 <=? s) = true /\ (s <=? 1) = true.
Proof.
  intros Hne Hlen Hfin. cbv zeta. unfold calculateVolatilityScore. cbn [score].
  destruct (Array_length_positive priceChanges Hne Hlen) as (m & e & Hn).
  assert (Hd : nonneg (stdDev priceChanges)).
  { unfold stdDev, Array_reduce, Math_sqrt. apply sqrt_of_nonneg.
    apply (div_nonneg_l _ _ m e Hn). apply squares_nonneg; [|exact I|exact Hfin].
    apply (div_number_pos _ _ m e); [|exact Hn]. apply sum_number; [reflexivity|exact Hfin]. }
  change constants.VOLATILITY_THRESHOLDS.HIGH with 25.
  pose proof (div_nonneg_l _ 25 7036874417766400 (-48) eq_refl Hd) as Hq.
  pose proof (nonneg_number _ Hq) as Hnum.
  destruct (Math_min_spec (stdDev priceChanges / 25) 1 Hnum eq_refl) as (_ & H1 & [E|E]).
  - split; [|exact H1]. rewrite E. apply nonneg_leb_zero. exact Hq.
  - split; [|exact H1]. rewrite E. reflexivity.
Qed.

Lemma volatility_score_of_finite_series_witness :
  let s := score (calculateVolatilityScore [1; 5; 10; 20]) in
  (0 <=? s) = true /\ (s <=? 1) = true.
Proof.
  apply (volatility_score_of_finite_series [1; 5; 10; 20]).
  - discriminate.
  - reflexivity.
  - repeat constructor.
Defined.

(** X9.  A series of one finite value has the standard deviation 0, the
    volatility score 0 and the category Baja; its momentum is 0 when
    the value is a loss and 1 otherwise. *)
Theorem single_value_metrics (x : float) :
  is_finite x = true ->
  stdDev [x] = 0 /\
  calculateVolatilityScore [x] = {| score := 0; category := "Baja" |} /\
  calculateMomentumIndicator [x] = (if x <? 0 then 0 else 1).
Proof.
  intros H. split; [apply stdDev_single; exact H|].
  split; [apply volatility_single; exact H | apply momentum_single].
Qed.

Lemma single_value_metrics_witness :
  stdDev [-5] = 0 /\
  calculateVolatilityScore [-5] = {| score := 0; category := "Baja" |} /\
  calculateMomentumIndicator [-5] = 0.
Proof. apply (single_value_metrics (-5)). reflexivity. Defined.

(** X10.  A series without a negative value has the momentum 1, whatever
    else it holds: gains, zeros or NaN. *)
Theorem momentum_without_losses (priceChanges : list float) :
  Forall (fun x => (x <? 0) = false) priceChanges ->
  calculateMomentumIndicator priceChanges = 1.
Proof.
  intros H. unfold calculateMomentumIndicator.
  assert (E : filter (fun x => x <? 0) priceChanges = []).
  { induction H as [|x l Hx Hl IH]; [reflexivity|]. cbn [filter]. rewrite Hx. exact IH. }
  rewrite E. reflexivity.
Qed.

Lemma momentum_without_losses_witness : calculateMomentumIndicator [1; 0; nan; 20] = 1.
Proof. apply momentum_without_losses. repeat constructor. Defined.

(** X11.  The maturity score never rises with the capitalisation: a
    larger market capitalisation gets the same score or a lower one. *)
Theorem marketMaturity_antitone (cap1 cap2 : float) :
  (cap1 <=? cap2) = true ->
  (score (calculateMarketMaturity cap2) <=? score (calculateMarketMaturity cap1)) = true.
Proof.
  intros H. unfold calculateMarketMaturity.
  assert (Hup : forall t, (t <=? cap1) = true -> (t <=? cap2) = true)
    by (intros t Ht; eapply leb_trans; eassumption).
  destruct (constants.MARKET_SEGMENTS.LARGE_CAP <=? cap1) eqn:A1;
    [rewrite (Hup _ A1); reflexivity|].
  destruct (constants.MARKET_SEGMENTS.MID_CAP <=? cap1) eqn:A2;
    [rewrite (Hup _ A2); destruct (constants.MARKET_SEGMENTS.LARGE_CAP <=? cap2); reflexivity|].
  destruct (constants.MARKET_SEGMENTS.SMALL_CAP <=? cap1) eqn:A3;
    [rewrite (Hup _ A3); destruct (constants.MARKET_SEGMENTS.LARGE_CAP <=? cap2);
       [|destruct (constants.MARKET_SEGMENTS.MID_CAP <=? cap2)]; reflexivity|].
  destruct (constants.MARKET_SEGMENTS.MICRO_CAP <=? cap1) eqn:A4;
    [rewrite (Hup _ A4)|];
    destruct (constants.MARKET_SEGMENTS.LARGE_CAP <=? cap2);
    try destruct (constants.MARKET_SEGMENTS.MID_CAP <=? cap2);
    try destruct (constants.MARKET_SEGMENTS.SMALL_CAP <=? cap2);
    try destruct (constants.MARKET_SEGMENTS.MICRO_CAP <=? cap2); reflexivity.
Qed.

Lemma marketMaturity_antitone_witness :
  (score (calculateMarketMaturity 3e9) <=? score (calculateMarketMaturity 6e7)) = true /\
  score (calculateMarketMaturity 3e9) = 1.5 /\ score (calculateMarketMaturity 6e7) = 2.5.
Proof.
  split; [apply (marketMaturity_antitone 6e7 3e9); reflexivity|]. split; reflexivity.
Defined.

Section VolumeHealth.

Variable log10_approx : float -> float.

(** The logarithm of 51, the denominator of the volume score, is a
    finite Number other than 0. *)
Hypothesis log10_51 :
  is_finite (log10_approx 51) = true /\ (log10_approx 51 =? 0) = false.

(** X12.  From a volume ratio of 0.5 on the volume score is exactly 1
    and the category Excepcional: the ratio is cut to 0.5 and the
    logarithm is divided by itself. *)
Theorem volumeHealth_saturates (volumeRatio : float) :
  (0.5 <=? volumeRatio) = true ->
  calculateVolumeHealth log10_approx volumeRatio = {| score := 1; category := "Excepcional" |}.
Proof.
  intros H. unfold calculateVolumeHealth.
  change constants.VOLUME_RATIOS.EXCEPTIONAL with 0.5.
  rewrite (Math_min_half _ H), H.
  change (Math_log10 log10_approx (0.5 * 100 + 1)) with (log10_approx 51).
  rewrite div_diag by apply log10_51. reflexivity.
Qed.

End VolumeHealth.

Lemma volumeHealth_saturates_witness :
  calculateVolumeHealth log10_sample 0.6 = {| score := 1; category := "Excepcional" |}.
Proof. apply volumeHealth_saturates; [split|]; reflexivity. Defined.

Section Risk.

Variable log10_approx : float -> float.
Variable coinbaseTokens : list string.

(** X13.  A NaN among the three metric scores makes the risk score NaN,
    and the level is then Bajo, the lowest: both comparisons with NaN
    fail. *)
Theorem riskLevel_of_missing_metric (analysis : Analysis) :
  is_nan (score (volatility (metrics analysis))) = true \/
  is_nan (score (marketMaturity (metrics analysis))) = true \/
  is_nan (score (volumeHealth (metrics analysis))) = true ->
  calculateRiskLevel analysis = {| level := "Bajo"; riskScore := nan |}.
Proof.
  unfold calculateRiskLevel.
  intros [H|[H|H]]; apply nan_unique in H; rewrite H.
  - rewrite mul_nan_l, !add_nan_l. reflexivity.
  - rewrite div_nan_nan, mul_nan_l, add_nan_r, add_nan_l. reflexivity.
  - rewrite sub_nan_r, mul_nan_l, add_nan_r. reflexivity.
Qed.

(** X14.  A coin none of whose four percent changes is known is
    analysed without an error: its momentum is 1, its investment score
    is NaN and its risk level is Bajo, whatever its price,
    capitalisation and volume. *)
Theorem analysis_without_changes (coinData : CoinData) :
  percent_change_1h (quote_USD coinData) = None ->
  percent_change_24h (quote_USD coinData) = None ->
  percent_change_7d (quote_USD coinData) = None ->
  percent_change_30d (quote_USD coinData) = None ->
  let analysis := performBaseAnalysis log10_approx coinbaseTokens coinData in
  momentum (metrics (fields analysis)) = 1 /\
  investmentScore analysis = nan /\
  level (riskLevel analysis) = "Bajo"%string.
Proof.
  intros H1 H2 H3 H4. cbv zeta. unfold performBaseAnalysis.
  rewrite H1, H2, H3, H4. cbn [notNull flat_map app riskLevel investmentScore fields metrics momentum].
  change (calculateVolatilityScore []) with {| score := nan; category := "Baja" |}.
  split; [reflexivity|]. split.
  - unfold calculateInvestmentScore. cbn [metrics volatility score].
    change (Math_max 0 (1 - nan) * 0.15) with nan.
    rewrite add_nan_r, !add_nan_l. reflexivity.
  - unfold calculateRiskLevel. cbn [metrics volatility score].
    rewrite mul_nan_l, !add_nan_l. reflexivity.
Qed.

End Risk.

Lemma riskLevel_of_missing_metric_witness :
  calculateRiskLevel (fields (performBaseAnalysis log10_sample [] staleCoin))
  = {| level := "Bajo"; riskScore := nan |}.
Proof. apply riskLevel_of_missing_metric. left. reflexivity. Defined.

Lemma analysis_without_changes_witness :
  let analysis := performBaseAnalysis log10_sample [] staleCoin in
  momentum (metrics (fields analysis)) = 1 /\
  investmentScore analysis = nan /\
  level (riskLevel analysis) = "Bajo"%string.
Proof. apply (analysis_without_changes log10_sample [] staleCoin); reflexivity. Defined.

(** ** The scanner *)

Section ScannerFacts.

Import AdvancedCryptoScanner.

(** X16.  [normalizeValue] of a Number, with bounds in order, lies
    between the bounds. *)
Theorem normalizeValue_range (value min max : float) :
  is_nan value = false -> (min <=? max) = true ->
  (min <=? normalizeValue value min max) = true /\
  (normalizeValue value min max <=? max) = true.
Proof. intros Hv Hmm. unfold normalizeValue. apply clamp_between; assumption. Qed.

Lemma normalizeValue_range_witness :
  (0.1 <=? normalizeValue 7 0.1 5) = true /\ (normalizeValue 7 0.1 5 <=? 5) = true.
Proof. apply normalizeValue_range; reflexivity. Defined.

(** X17.  The risk of the scanner follows the majority of its three
    component risks: it is Alto exactly when two components are 3 and
    the third is not 1, and Bajo exactly when two components are 1 and
    the third is not 3. *)
Theorem calculateRisk_majority (coin : CoinData) :
  let a := marketCapRisk coin in
  let b := volumeRisk coin in
  let c := volatilityRisk coin in
  (calculateRisk coin = "Alto"%string <->
     (a = 3 /\ b = 3 /\ c <> 1) \/ (a = 3 /\ c = 3 /\ b <> 1) \/ (b = 3 /\ c = 3 /\ a <> 1)) /\
  (calculateRisk coin = "Bajo"%string <->
     (a = 1 /\ b = 1 /\ c <> 3) \/ (a = 1 /\ c = 1 /\ b <> 3) \/ (b = 1 /\ c = 1 /\ a <> 3)).
Proof.
  cbv zeta. unfold calculateRisk, marketCapRisk, volumeRisk, volatilityRisk. cbv zeta.
  destruct (market_cap (quote_USD coin) <? 10000000);
    [|destruct (market_cap (quote_USD coin) <? 100000000)];
  (destruct (volume_24h (quote_USD coin) / market_cap (quote_USD coin) <? 0.1);
    [|destruct (volume_24h (quote_USD coin) / market_cap (quote_USD coin) <? 0.2)]);
  (destruct (20 <? Math_abs (ToNumber (percent_change_24h (quote_USD coin))));
    [|destruct (10 <? Math_abs (ToNumber (percent_change_24h (quote_USD coin))))]);
  (split; (split;
    [ intros H; first [ discriminate H
                      | left; repeat split; try reflexivity; intro E; float_false E
                      | right; left; repeat split; try reflexivity; intro E; float_false E
                      | right; right; repeat split; try reflexivity; intro E; float_false E ]
    | intros [(E1 & E2 & E3)|[(E1 & E2 & E3)|(E1 & E2 & E3)]];
      first [ reflexivity | float_false E1 | float_false E2 | exfalso; apply E3; reflexivity ] ])).
Qed.

Section ScannerReturn.

Variable log10_approx : float -> float.

(** The approximation returns a Number on positive finite arguments. *)
Hypothesis approx_number :
  forall y, (0 <? y) = true -> (y <? infinity) = true -> is_nan (log10_approx y) = false.

(** X18.  The potential return of the scanner lies in [1,10] for every
    coin with a positive capitalisation, a finite volume and a 7-day
    change that is [null] or at most 1e15 percent. *)
Theorem scanner_potentialReturn_range (coin : CoinData) :
  (0 <? market_cap (quote_USD coin)) = true ->
  is_finite (volume_24h (quote_USD coin)) = true ->
  boundedChange (percent_change_7d (quote_USD coin)) ->
  inScoreRange (calculatePotentialReturn log10_approx coin).
Proof.
  intros Hcap Hvol Hchg. unfold calculatePotentialReturn, normalizeValue. cbv zeta.
  set (USD := quote_USD coin) in *.
  (* the capitalisation factor *)
  assert (Hcapn : is_nan (market_cap USD) = false)
    by (apply ltb_true_iff in Hcap; apply Hcap).
  destruct (Math_max_spec (market_cap USD) 1 Hcapn eq_refl) as (Hge & _ & _).
  assert (Hpos : (0 <? Math_max (market_cap USD) 1) = true).
  { apply ltb_true_iff in Hcap. destruct Hcap as (_ & _ & Hk).
    apply leb_true_iff in Hge. destruct Hge as (_ & Hmn & Hk').
    apply ltb_true_iff. split; [reflexivity|]. split; [exact Hmn|].
    destruct (fkey 0) as [[a1 a2] a3], (fkey (market_cap USD)) as [[b1 b2] b3],
      (fkey (Math_max (market_cap USD) 1)) as [[c1 c2] c3]. unfold lex_lt, lex_le in *. lia. }
  pose proof (div_nonneg 1000000000 8388608000000000 (-23) _ eq_refl Hpos) as Hq.
  pose proof (Math_log10_number log10_approx approx_number _ Hq) as Hlog.
  destruct (Math_max_spec 0 _ eq_refl Hlog) as (_ & _ & Hcases).
  set (marketCapFactor := Math_max 0 _) in *.
  assert (Hf1 : is_nan marketCapFactor = false)
    by (destruct Hcases as [E|E]; rewrite E; [reflexivity | exact Hlog]).
  (* the momentum factor *)
  destruct (Math_max_tenth _ 47 (change_term_below _ Hchg)) as (m2 & e2 & Hf2).
  (* the volume factor *)
  assert (Hratio : is_nan (volume_24h USD / market_cap USD * 10) = false).
  { apply (mul_number _ 10 false 5629499534213120 (-49) eq_refl).
    apply div_number; [apply is_finite_mag; exact Hvol | exact Hcap]. }
  destruct (clamp_between _ 0.1 5 Hratio eq_refl) as (Hv1 & Hv2).
  destruct (between_finite _ 0.1 5 _ _ _ _ eq_refl eq_refl Hv1 Hv2) as (m3 & e3 & Hf3).
  (* the product and its clamp *)
  apply clamp_between; [|reflexivity].
  apply (mul_number _ _ false m3 e3 Hf3). apply (mul_number _ _ false m2 e2 Hf2). exact Hf1.
Qed.

(** The score of a coin whose volume ratio is a Number and whose
    changes are bounded is a Number. *)
Lemma calculateScore_number (coin : CoinData) :
  is_nan (volume_24h (quote_USD coin) / market_cap (quote_USD coin)) = false ->
  boundedChange (percent_change_24h (quote_USD coin)) ->
  boundedChange (percent_change_7d (quote_USD coin)) ->
  is_nan (calculateScore coin) = false.
Proof.
  intros Hr H24 H7. unfold calculateScore. cbv zeta.
  pose proof (change_term_below _ H24) as Hm. pose proof (change_term_below _ H7) as Ht.
  assert (Hv : below 3 (Math_min (volume_24h (quote_USD coin) / market_cap (quote_USD coin) * 10) 5)).
  { apply (leb_true_below _ 5 5629499534213120 (-50) eq_refl).
    apply Math_min_spec; [|reflexivity].
    apply (mul_number _ 10 false 5629499534213120 (-49) eq_refl). exact Hr. }
  pose proof (mul_below 47 0 _ 0.3 5404319552844595 (-54) eq_refl ltac:(cbn; lia) Hm ltac:(lia)) as A.
  pose proof (mul_below 47 0 _ 0.4 7205759403792794 (-54) eq_refl ltac:(cbn; lia) Ht ltac:(lia)) as B.
  pose proof (mul_below 47 0 _ 0.3 5404319552844595 (-54) eq_refl ltac:(cbn; lia)
                (below_mono 3 47 _ ltac:(lia) Hv) ltac:(lia)) as C.
  cbn [Z.add] in A, B, C.
  pose proof (add_below 48 _ _ A B ltac:(lia)) as AB.
  pose proof (add_below 50 _ _ AB (below_mono 48 50 _ ltac:(lia) C) ltac:(lia)) as ABC.
  eapply below_number.
  apply (mul_below 52 7 _ 100 7036874417766400 (-46) eq_refl ltac:(cbn; lia) ABC). lia.
Qed.

End ScannerReturn.

Section Listing.

Variable log10_approx : float -> float.
Variable listings : nat -> Completion (option (list CoinData)).

Local Open Scope string_scope.

Local Abbreviation scan := (scanOpportunities log10_approx listings).
Local Abbreviation entry := (toOpportunity log10_approx).

(** X19.  The scanner logs a failed scan and throws the error on as it
    is: a failed request keeps its message, a response without data
    throws "Respuesta de API inválida"; either way one line,
    "Error en scanOpportunities: <message>", is logged.  A scan that
    returns has logged nothing. *)
Theorem scanOpportunities_failure (s : Session) :
  (forall message, listings (listings_sent s) = Throw message ->
     scan s = (Throw message,
               {| listings_sent := S (listings_sent s); quotes_sent := quotes_sent s;
                  dominance_sent := dominance_sent s;
                  logged := logged s ++ ["Error en scanOpportunities: " ++ message] |})) /\
  (listings (listings_sent s) = Normal None ->
     scan s = (Throw "Respuesta de API inválida",
               {| listings_sent := S (listings_sent s); quotes_sent := quotes_sent s;
                  dominance_sent := dominance_sent s;
                  logged := logged s ++
                            ["Error en scanOpportunities: Respuesta de API inválida"] |})) /\
  (forall out s', scan s = (Normal out, s') ->
     s' = afterListing s /\ exists data, listings (listings_sent s) = Normal (Some data)).
Proof.
  unfold scanOpportunities, try_catch, bind, axios_get_listings, log, throw, ret, afterListing.
  destruct (listings (listings_sent s)) as [[data|]|m];
    cbn [listings_sent quotes_sent dominance_sent logged]; (split; [|split]).
  - intros message H. discriminate H.
  - intros H. discriminate H.
  - intros out s' H. inversion H. split; [reflexivity|]. exists data. reflexivity.
  - intros message H. discriminate H.
  - intros _. reflexivity.
  - intros out s' H. discriminate H.
  - intros message H. inversion H. reflexivity.
  - intros H. discriminate H.
  - intros out s' H. discriminate H.
Qed.

(** X20.  A scan of the scanner returns the entries of exactly the
    listed coins that pass the three thresholds (capitalisation from
    1e6, volume from 1e5, volume ratio from 0.05), all of them: no cut
    to 10 is made here.  Two neighbours whose scores are Numbers are in
    descending order of score, and the whole output is when the 24-hour
    and 7-day changes of the listed coins are [null] or at most 1e15
    percent. *)
Theorem scanOpportunities_result (s : Session) (data : list CoinData) :
  listings (listings_sent s) = Normal (Some data) ->
  exists out,
    scan s = (Normal out, afterListing s) /\
    (forall o, In o out <-> exists coin, In coin data /\ eligible coin = true /\ o = entry coin) /\
    List.length out = List.length (filter eligible data) /\
    Forall (fun o => (minMarketCap <=? marketCap o)%float = true /\
                     (minVolume <=? volume24h o)%float = true /\
                     (minVolumeRatio <=? volumeRatio o)%float = true) out /\
    chain (fun a b => is_nan (score a) = false -> is_nan (score b) = false ->
                      (score b <=? score a)%float = true) out /\
    (Forall (fun coin => boundedChange (percent_change_24h (quote_USD coin)) /\
                         boundedChange (percent_change_7d (quote_USD coin))) data ->
     chain (fun a b => (score b <=? score a)%float = true) out).
Proof.
  intros Hl. unfold scanOpportunities, try_catch, bind, axios_get_listings, ret.
  rewrite Hl. eexists. split; [reflexivity|].
  assert (Hin : forall o, In o (Array_sort byScore (map entry (filter eligible data))) <->
                          exists coin, In coin data /\ eligible coin = true /\ o = entry coin).
  { intros o. rewrite Array_sort_In, in_map_iff. split.
    - intros (coin & <- & Hc). apply filter_In in Hc. exists coin. intuition.
    - intros (coin & Hc & He & ->). exists coin. split; [reflexivity|]. apply filter_In. auto. }
  assert (Hchain : chain (fun a b => is_nan (score a) = false -> is_nan (score b) = false ->
                                     (score b <=? score a)%float = true)
                         (Array_sort byScore (map entry (filter eligible data))))
    by apply (Array_sort_by_key score).
  split; [exact Hin|]. split; [rewrite Array_sort_length, length_map; reflexivity|]. split; [|split].
  - apply Forall_forall. intros o Ho. apply Hin in Ho. destruct Ho as (coin & _ & He & ->).
    unfold eligible in He. apply andb_prop in He. destruct He as [He H3].
    apply andb_prop in He. destruct He as [H1 H2]. cbn [marketCap volume24h volumeRatio toOpportunity].
    auto.
  - exact Hchain.
  - intros Hdata. eapply chain_Forall_impl; [| |exact Hchain].
    + intros a b Ha Hb Hab. exact (Hab Ha Hb).
    + apply Forall_forall. intros o Ho. apply Hin in Ho. destruct Ho as (coin & Hc & He & ->).
      rewrite Forall_forall in Hdata. destruct (Hdata coin Hc) as [H24 H7].
      cbn [score toOpportunity]. apply calculateScore_number; try assumption.
      unfold eligible in He. apply andb_prop in He. destruct He as [_ H3].
      apply leb_true_iff in H3. apply H3.
Qed.

End Listing.

End ScannerFacts.

Lemma scanner_potentialReturn_range_witness :
  inScoreRange (AdvancedCryptoScanner.calculatePotentialReturn log10_sample (sampleCoin "AAA" 1e8 6e7)).
Proof.
  apply scanner_potentialReturn_range.
  - intros y _ _. apply log10_sample_number.
  - reflexivity.
  - reflexivity.
  - intros v H. inversion H. reflexivity.
Defined.

Lemma scanOpportunities_result_witness :
  exists out,
    AdvancedCryptoScanner.scanOpportunities log10_sample (fun _ => Normal (Some fiveCoins)) start
      = (Normal out, afterListing start) /\
    List.length out = 4%nat /\
    chain (fun a b => (AdvancedCryptoScanner.score b <=? AdvancedCryptoScanner.score a) = true) out.
Proof.
  destruct (scanOpportunities_result log10_sample (fun _ => Normal (Some fiveCoins)) start
              fiveCoins eq_refl) as (out & Hs & _ & Hlen & _ & _ & Hsorted).
  exists out. split; [exact Hs|]. split; [exact Hlen|].
  apply Hsorted. repeat constructor; intros v H; inversion H; reflexivity.
Defined.
